(** * Orchestrator editor plugin: action menu, favorites store, graph node pins

    A shallow embedding of the parts of
      - src/editor/graph/actions/action_menu.cpp
      - src/plugin/settings.cpp
      - src/editor/graph/graph_node.cpp
      - src/plugin/plugin.cpp
    that build the filtered action tree, keep the list of favorite actions
    in the project settings, parse the search box into keywords, count
    pins by opacity, register the settings of the plugin and save and
    restore the layout of its floating window.

    Engine strings are modelled by [string]; the separators and the literals
    of the sources, "/" and " " among them, are ASCII.  [String::to_lower]
    folds every cased letter of the engine's character table, which is not
    part of the sources: it is a parameter of the model, [Lowercase].  A
    [TreeItem*] of the source is a path of child indices from the hidden
    root of the tree. *)

From Stdlib Require Import List String Ascii Bool Arith Lia Permutation.
From Stdlib Require QArith.
Import ListNotations.
Open Scope string_scope.
Open Scope list_scope.

(* ================================================================== *)
(** ** Engine strings: the [String] methods the sources call *)

Module GString.

(** [String::to_lower]: the text with every cased letter replaced by its
    lower-case letter, as the character table of the engine has it. *)
Class Lowercase := { to_lower : string -> string }.

(** [String::is_empty]. *)
Definition is_empty (s : string) : bool :=
  match s with EmptyString => true | _ => false end.

(** [String::begins_with]. *)
Fixpoint begins_with (s p : string) : bool :=
  match p with
  | EmptyString => true
  | String a p' =>
      match s with
      | EmptyString => false
      | String b s' => Ascii.eqb b a && begins_with s' p'
      end
  end.

(** [String::ends_with]. *)
Definition ends_with (s p : string) : bool :=
  Nat.leb (String.length p) (String.length s)
  && String.eqb (String.substring (String.length s - String.length p)
                                  (String.length p) s) p.

(** [String::trim_prefix]: the prefix is dropped once, when it is there. *)
Definition trim_prefix (s p : string) : string :=
  if begins_with s p
  then String.substring (String.length p) (String.length s - String.length p) s
  else s.

(** [String::trim_suffix]: the suffix is dropped once, when it is there. *)
Definition trim_suffix (s p : string) : string :=
  if ends_with s p
  then String.substring 0 (String.length s - String.length p) s
  else s.

(** [String::split] with a one-character separator and [allow_empty] left at
    its default (true): n separators give n + 1 pieces, empty ones kept. *)
Fixpoint split (sep : ascii) (s : string) : list string :=
  match s with
  | EmptyString => [EmptyString]
  | String c r =>
      if Ascii.eqb c sep then EmptyString :: split sep r
      else match split sep r with
           | h :: t => String c h :: t
           | [] => [String c EmptyString]
           end
  end.

(** [String.join] of the pieces with a one-character separator. *)
Fixpoint join (sep : ascii) (l : list string) : string :=
  match l with
  | [] => EmptyString
  | [x] => x
  | x :: r => (x ++ String sep (join sep r))%string
  end.

(** The character [c] occurs in [s]. *)
Fixpoint contains_char (c : ascii) (s : string) : bool :=
  match s with
  | EmptyString => false
  | String a r => Ascii.eqb a c || contains_char c r
  end.

End GString.

(* ================================================================== *)
(** ** The favorites list in the project settings (settings.cpp) *)

Module Settings.

(** Calls made on the [ProjectSettings] singleton, in the order they are
    made.  Only [SetSetting] and [Save] write the store. *)
Inductive PsCall :=
| SetSetting (value : list string)
| SetInitialValue (value : list string)
| AddPropertyInfo
| SetAsBasic (basic : bool)
| Save.

(** The part of [ProjectSettings] the favorites use: the value stored under
    "orchestrator/settings/action_favorites" ([None]: the setting does not
    exist) and the journal of the calls made so far. *)
Record ProjectSettings := {
  action_favorites : option (list string);
  journal : list PsCall
}.

Definition has_setting (ps : ProjectSettings) : bool :=
  match action_favorites ps with Some _ => true | None => false end.

Definition set_setting (value : list string) (ps : ProjectSettings) : ProjectSettings :=
  {| action_favorites := Some value; journal := journal ps ++ [SetSetting value] |}.

Definition call (c : PsCall) (ps : ProjectSettings) : ProjectSettings :=
  {| action_favorites := action_favorites ps; journal := journal ps ++ [c] |}.

(** [PackedStringArray::has]. *)
Definition has (l : list string) (x : string) : bool := existsb (String.eqb x) l.

(** [PackedStringArray::find]; [None] is the -1 of the engine. *)
Fixpoint find (l : list string) (x : string) : option nat :=
  match l with
  | [] => None
  | y :: r => if String.eqb y x then Some 0
              else match find r x with Some i => Some (S i) | None => None end
  end.

(** [PackedStringArray::remove_at]; an index out of range removes nothing. *)
Fixpoint remove_at (i : nat) (l : list string) : list string :=
  match l, i with
  | [], _ => []
  | _ :: r, 0 => r
  | y :: r, S i' => y :: remove_at i' r
  end.

Definition push_back (l : list string) (x : string) : list string := l ++ [x].

(** [OrchestratorSettings::get_action_favorites]. *)
Definition get_action_favorites (ps : ProjectSettings) : list string :=
  match action_favorites ps with Some l => l | None => [] end.

(** [OrchestratorSettings::add_action_favorite]. *)
Definition add_action_favorite (p_action_name : string) (ps : ProjectSettings)
  : ProjectSettings :=
  let ps1 :=
    if negb (has_setting ps)
    then call (SetAsBasic false)
           (call AddPropertyInfo
              (call (SetInitialValue []) (set_setting [] ps)))
    else ps in
  let actions := get_action_favorites ps1 in
  if negb (has actions p_action_name)
  then call Save (set_setting (push_back actions p_action_name) ps1)
  else ps1.

(** [OrchestratorSettings::remove_action_favorite]. *)
Definition remove_action_favorite (p_action_name : string) (ps : ProjectSettings)
  : ProjectSettings :=
  if negb (has_setting ps) then ps
  else
    let actions := get_action_favorites ps in
    if has actions p_action_name
    then match find actions p_action_name with
         | Some i => call Save (set_setting (remove_at i actions) ps)
         | None => call Save (set_setting actions ps)
         end
    else ps.

(** A call of one of the two methods, and a sequence of such calls. *)
Inductive FavoriteOp :=
| AddFavorite (name : string)
| RemoveFavorite (name : string).

Definition run_op (ps : ProjectSettings) (op : FavoriteOp) : ProjectSettings :=
  match op with
  | AddFavorite p => add_action_favorite p ps
  | RemoveFavorite p => remove_action_favorite p ps
  end.

Definition run_ops (ops : list FavoriteOp) (ps : ProjectSettings) : ProjectSettings :=
  fold_left run_op ops ps.

(** A project in which the favorites setting was never written. *)
Definition fresh : ProjectSettings := {| action_favorites := None; journal := [] |}.

End Settings.

(* ================================================================== *)
(** ** Counting pins by opacity (graph_node.cpp) *)

Module GraphNode.

Section Opacity.

(** The alpha channel of a [Color] is a float; the model only needs the
    engine's [is_equal_approx] on it. *)
Variable Alpha : Type.
Variable is_equal_approx : Alpha -> Alpha -> bool.

(** What the two counting methods read from the [GraphNode] base class. *)
Record Ports := {
  get_input_port_count : nat;
  get_output_port_count : nat;
  is_slot_enabled_left : nat -> bool;
  is_slot_enabled_right : nat -> bool;
  get_input_port_alpha : nat -> Alpha;
  get_output_port_alpha : nat -> Alpha
}.

(** [for (int i = 0; i < bound; i++) if (hit i) count++;] *)
Definition count_loop (bound : nat) (hit : nat -> bool) : nat :=
  fold_left (fun count i => if hit i then S count else count) (seq 0 bound) 0.

(** [OrchestratorGraphNode::get_inputs_with_opacity]. *)
Definition get_inputs_with_opacity (g : Ports) (p_opacity : Alpha) : nat :=
  count_loop (get_input_port_count g)
    (fun i => is_slot_enabled_left g i
              && is_equal_approx (get_input_port_alpha g i) p_opacity).

(** [OrchestratorGraphNode::get_outputs_with_opacity]; the bound of the loop
    is [get_input_port_count], as in the source. *)
Definition get_outputs_with_opacity (g : Ports) (p_opacity : Alpha) : nat :=
  count_loop (get_input_port_count g)
    (fun i => is_slot_enabled_right g i
              && is_equal_approx (get_output_port_alpha g i) p_opacity).

End Opacity.

Arguments get_input_port_count {Alpha} _.
Arguments get_output_port_count {Alpha} _.
Arguments is_slot_enabled_left {Alpha} _ _.
Arguments is_slot_enabled_right {Alpha} _ _.
Arguments get_input_port_alpha {Alpha} _ _.
Arguments get_output_port_alpha {Alpha} _ _.
Arguments get_inputs_with_opacity {Alpha} _ _ _.
Arguments get_outputs_with_opacity {Alpha} _ _ _.

End GraphNode.

(* ================================================================== *)
(** ** The action menu (action_menu.cpp) *)

Module ActionMenu.

Import GString.

(** A [Ref<Texture2D>]; two references are equal when they are the same
    texture. *)
Definition Texture := nat.

(** [OrchestratorGraphActionSpec]. *)
Record ActionSpec := {
  category : string;
  text : string;
  tooltip : string;
  icon : string;
  type_icon : string
}.

(** [OrchestratorGraphActionHandler], as far as the menu looks at it. *)
Record ActionHandler := { get_class : string }.

(** [OrchestratorGraphActionMenuItem]; [get_handler] is [None] for a
    reference that is not valid. *)
Record MenuItem := {
  get_spec : ActionSpec;
  get_handler : option ActionHandler
}.

(** [OrchestratorGraphActionFilter]. *)
Record ActionFilter := {
  keywords : list string;
  context_sensitive : bool
}.

(** What a [TreeItem] carries: columns 0 and 1, the three metas and whether
    the row is the selected one. *)
Record Cell := {
  cell_text : string;
  cell_icon : option Texture;
  cell_tooltip : string;
  cell_selectable : bool;
  cell_icon1 : option Texture;
  cell_tooltip1 : string;
  cell_button : option Texture;
  meta_item : option MenuItem;
  meta_handler : option ActionHandler;
  meta_favorite : option bool;
  cell_selected : bool
}.

(** A [TreeItem] with the items below it, in order. *)
Local Unset Elimination Schemes.
Inductive TreeItem := Item (cell : Cell) (children : list TreeItem).
Local Set Elimination Schemes.

Definition cell (t : TreeItem) : Cell := match t with Item c _ => c end.
Definition children (t : TreeItem) : list TreeItem := match t with Item _ ks => ks end.

Definition get_text (t : TreeItem) : string := cell_text (cell t).
Definition get_child_count (t : TreeItem) : nat := List.length (children t).
Definition has_handler (t : TreeItem) : bool :=
  match meta_handler (cell t) with Some _ => true | None => false end.

(** A freshly created item: empty text, no icon, selectable, no meta. *)
Definition new_cell : Cell :=
  {| cell_text := ""; cell_icon := None; cell_tooltip := "";
     cell_selectable := true; cell_icon1 := None; cell_tooltip1 := "";
     cell_button := None; meta_item := None; meta_handler := None;
     meta_favorite := None; cell_selected := false |}.

(** The setters the menu calls on an item. *)
Definition set_text (s : string) (c : Cell) : Cell :=
  {| cell_text := s; cell_icon := cell_icon c; cell_tooltip := cell_tooltip c;
     cell_selectable := cell_selectable c; cell_icon1 := cell_icon1 c;
     cell_tooltip1 := cell_tooltip1 c; cell_button := cell_button c;
     meta_item := meta_item c; meta_handler := meta_handler c;
     meta_favorite := meta_favorite c; cell_selected := cell_selected c |}.

Definition set_icon (i : Texture) (c : Cell) : Cell :=
  {| cell_text := cell_text c; cell_icon := Some i; cell_tooltip := cell_tooltip c;
     cell_selectable := cell_selectable c; cell_icon1 := cell_icon1 c;
     cell_tooltip1 := cell_tooltip1 c; cell_button := cell_button c;
     meta_item := meta_item c; meta_handler := meta_handler c;
     meta_favorite := meta_favorite c; cell_selected := cell_selected c |}.

Definition set_tooltip_text (s : string) (c : Cell) : Cell :=
  {| cell_text := cell_text c; cell_icon := cell_icon c; cell_tooltip := s;
     cell_selectable := cell_selectable c; cell_icon1 := cell_icon1 c;
     cell_tooltip1 := cell_tooltip1 c; cell_button := cell_button c;
     meta_item := meta_item c; meta_handler := meta_handler c;
     meta_favorite := meta_favorite c; cell_selected := cell_selected c |}.

Definition set_selectable (b : bool) (c : Cell) : Cell :=
  {| cell_text := cell_text c; cell_icon := cell_icon c; cell_tooltip := cell_tooltip c;
     cell_selectable := b; cell_icon1 := cell_icon1 c;
     cell_tooltip1 := cell_tooltip1 c; cell_button := cell_button c;
     meta_item := meta_item c; meta_handler := meta_handler c;
     meta_favorite := meta_favorite c; cell_selected := cell_selected c |}.

Definition set_icon1 (i : Texture) (c : Cell) : Cell :=
  {| cell_text := cell_text c; cell_icon := cell_icon c; cell_tooltip := cell_tooltip c;
     cell_selectable := cell_selectable c; cell_icon1 := Some i;
     cell_tooltip1 := cell_tooltip1 c; cell_button := cell_button c;
     meta_item := meta_item c; meta_handler := meta_handler c;
     meta_favorite := meta_favorite c; cell_selected := cell_selected c |}.

Definition set_tooltip_text1 (s : string) (c : Cell) : Cell :=
  {| cell_text := cell_text c; cell_icon := cell_icon c; cell_tooltip := cell_tooltip c;
     cell_selectable := cell_selectable c; cell_icon1 := cell_icon1 c;
     cell_tooltip1 := s; cell_button := cell_button c;
     meta_item := meta_item c; meta_handler := meta_handler c;
     meta_favorite := meta_favorite c; cell_selected := cell_selected c |}.

Definition add_button (i : Texture) (c : Cell) : Cell :=
  {| cell_text := cell_text c; cell_icon := cell_icon c; cell_tooltip := cell_tooltip c;
     cell_selectable := cell_selectable c; cell_icon1 := cell_icon1 c;
     cell_tooltip1 := cell_tooltip1 c; cell_button := Some i;
     meta_item := meta_item c; meta_handler := meta_handler c;
     meta_favorite := meta_favorite c; cell_selected := cell_selected c |}.

Definition set_meta_item (m : MenuItem) (c : Cell) : Cell :=
  {| cell_text := cell_text c; cell_icon := cell_icon c; cell_tooltip := cell_tooltip c;
     cell_selectable := cell_selectable c; cell_icon1 := cell_icon1 c;
     cell_tooltip1 := cell_tooltip1 c; cell_button := cell_button c;
     meta_item := Some m; meta_handler := meta_handler c;
     meta_favorite := meta_favorite c; cell_selected := cell_selected c |}.

Definition set_meta_handler (h : ActionHandler) (c : Cell) : Cell :=
  {| cell_text := cell_text c; cell_icon := cell_icon c; cell_tooltip := cell_tooltip c;
     cell_selectable := cell_selectable c; cell_icon1 := cell_icon1 c;
     cell_tooltip1 := cell_tooltip1 c; cell_button := cell_button c;
     meta_item := meta_item c; meta_handler := Some h;
     meta_favorite := meta_favorite c; cell_selected := cell_selected c |}.

Definition set_meta_favorite (b : bool) (c : Cell) : Cell :=
  {| cell_text := cell_text c; cell_icon := cell_icon c; cell_tooltip := cell_tooltip c;
     cell_selectable := cell_selectable c; cell_icon1 := cell_icon1 c;
     cell_tooltip1 := cell_tooltip1 c; cell_button := cell_button c;
     meta_item := meta_item c; meta_handler := meta_handler c;
     meta_favorite := Some b; cell_selected := cell_selected c |}.

Definition set_cell_selected (b : bool) (c : Cell) : Cell :=
  {| cell_text := cell_text c; cell_icon := cell_icon c; cell_tooltip := cell_tooltip c;
     cell_selectable := cell_selectable c; cell_icon1 := cell_icon1 c;
     cell_tooltip1 := cell_tooltip1 c; cell_button := cell_button c;
     meta_item := meta_item c; meta_handler := meta_handler c;
     meta_favorite := meta_favorite c; cell_selected := b |}.

(** *** Items addressed by their path from the root *)

Definition path := list nat.

Fixpoint get_item (t : TreeItem) (p : path) : option TreeItem :=
  match p with
  | [] => Some t
  | j :: q => match nth_error (children t) j with
              | Some k => get_item k q
              | None => None
              end
  end.

Fixpoint alter_nth {A} (g : A -> A) (j : nat) (l : list A) : list A :=
  match l, j with
  | [], _ => []
  | x :: r, 0 => g x :: r
  | x :: r, S j' => x :: alter_nth g j' r
  end.

(** Change the item at path [p] by [f]; the rest of the tree stays. *)
Fixpoint alter (f : TreeItem -> TreeItem) (t : TreeItem) (p : path) : TreeItem :=
  match p with
  | [] => f t
  | j :: q => Item (cell t) (alter_nth (fun k => alter f k q) j (children t))
  end.

Definition child_count_at (t : TreeItem) (p : path) : nat :=
  match get_item t p with Some n => get_child_count n | None => 0 end.

Definition text_at (t : TreeItem) (p : path) : string :=
  match get_item t p with Some n => get_text n | None => "" end.

(** [p_parent->create_child()] followed by the setters that give the new
    item the cell [c]: the item is appended below the item at [parent], and
    its path is returned. *)
Definition create_child (t : TreeItem) (parent : path) (c : Cell) : TreeItem * path :=
  (alter (fun n => Item (cell n) (children n ++ [Item c []])) t parent,
   parent ++ [child_count_at t parent]).

Definition update_cell (f : Cell -> Cell) (t : TreeItem) (p : path) : TreeItem :=
  alter (fun n => Item (f (cell n)) (children n)) t p.

Fixpoint map_cells (f : Cell -> Cell) (t : TreeItem) : TreeItem :=
  match t with Item c ks => Item (f c) (map (map_cells f) ks) end.

(** [Tree::set_selected] in the [SELECT_ROW] mode of the menu: the row
    becomes the selected one and every other row is deselected. *)
Definition set_selected (t : TreeItem) (p : path) : TreeItem :=
  update_cell (set_cell_selected true) (map_cells (set_cell_selected false) t) p.

(** *** Building the tree *)

Section Generate.

(** [SceneUtils::get_icon(this, name)]: the editor theme's icon of that
    name.  The theme answers an unknown name with its placeholder icon. *)
Variable get_icon : string -> Texture.

Context {lowercase : Lowercase}.

(** The icon kept in [broken]. *)
Definition broken : Texture := get_icon "_not_found_".

(** The icon given to a new category item (the body of the inner creation
    loop after [set_text]). *)
Definition category_icon (name : string) : Texture :=
  let icon := if String.eqb name "Integer" then get_icon "int" else get_icon name in
  if Nat.eqb icon broken then get_icon "Object" else icon.

(** The cell of a category item: text, icon, not selectable. *)
Definition category_cell (name : string) : Cell :=
  set_selectable false (set_icon (category_icon name) (set_text name new_cell)).

(** The cell of the "Favorites" item. *)
Definition favorites_cell : Cell :=
  set_selectable false (set_text "Favorites" new_cell).

(** The cell [_make_item] gives to the child it creates. *)
Definition make_item_cell (p_menu_item : MenuItem) (p_text : string) : Cell :=
  let spec := get_spec p_menu_item in
  let c := set_text p_text new_cell in
  let c := set_icon (get_icon (icon spec)) c in
  let c := set_tooltip_text (tooltip spec) c in
  let c := set_selectable (match get_handler p_menu_item with Some _ => true | None => false end) c in
  let c := set_icon1 (get_icon (type_icon spec)) c in
  let c := set_tooltip_text1
             (match get_handler p_menu_item with Some h => get_class h | None => "" end) c in
  let c := set_meta_item p_menu_item c in
  match get_handler p_menu_item with
  | Some h => set_meta_handler h c
  | None => c
  end.

(** [OrchestratorGraphActionMenu::_make_item]. *)
Definition _make_item (t : TreeItem) (p_parent : path) (p_menu_item : MenuItem)
  (p_text : string) : TreeItem * path :=
  create_child t p_parent (make_item_cell p_menu_item p_text).

(** The loop over [j] that looks among the children of the parent for one
    whose text is the category name, letter case apart; the index of the
    first such child. *)
Fixpoint find_child_from (j : nat) (kids : list TreeItem) (name : string) : option nat :=
  match kids with
  | [] => None
  | child :: rest =>
      if String.eqb (to_lower (get_text child)) (to_lower name) then Some j
      else find_child_from (S j) rest name
  end.

Definition find_child (kids : list TreeItem) (name : string) : option nat :=
  find_child_from 0 kids name.

Definition children_at (t : TreeItem) (p : path) : list TreeItem :=
  match get_item t p with Some n => children n | None => [] end.

(** The loop [for (int j = i; j < categories.size() - 1; ++j)] that creates
    the categories left, each below the one before. *)
Fixpoint create_categories (t : TreeItem) (parent : path) (names : list string)
  : TreeItem * path :=
  match names with
  | [] => (t, parent)
  | name :: rest =>
      let '(t', parent') := create_child t parent (category_cell name) in
      create_categories t' parent' rest
  end.

(** The loop [for (int i = 0; i < categories.size() - 1; i++)]: follow the
    categories that exist, create the rest at the first one that does not. *)
Fixpoint walk_categories (t : TreeItem) (parent : path) (names : list string)
  : TreeItem * path :=
  match names with
  | [] => (t, parent)
  | name :: rest =>
      match find_child (children_at t parent) name with
      | Some j => walk_categories t (parent ++ [j]) rest
      | None => create_categories t parent names
      end
  end.

(** The [while] loop of [_create_favorite_item_text]; the pointer
    [p_parent] is the path [rev up] and its parent is the path without the
    last index. *)
Fixpoint favorite_text_loop (t : TreeItem) (up : list nat) (favorite_text : string)
  : string :=
  match up with
  | [] => favorite_text
  | _ :: up' =>
      let parent_text := text_at t (rev up) in
      favorite_text_loop t up'
        (if negb (is_empty favorite_text)
         then (parent_text ++ "/" ++ favorite_text)%string
         else parent_text)
  end.

(** [OrchestratorGraphActionMenu::_create_favorite_item_text]. *)
Definition _create_favorite_item_text (t : TreeItem) (p_parent : path)
  (p_menu_item : MenuItem) : string :=
  ("<" ++ favorite_text_loop t (rev p_parent) "" ++ "> "
       ++ text (get_spec p_menu_item))%string.

(** The first [categories.size() - 1] pieces of the category. *)
Definition ancestor_categories (item : MenuItem) : list string :=
  removelast (split "/" (category (get_spec item))).

(** What the main loop does to the leaf it has just made: the favorite
    button, its tooltip and the "favorite" meta. *)
Definition decorate_leaf (is_favorite : bool) (c : Cell) : Cell :=
  set_meta_favorite is_favorite
    (set_tooltip_text1
       (if is_favorite then "Remove action from favorites."
        else "Add action to favorites.")
       (add_button (get_icon (if is_favorite then "Favorites" else "NonFavorite")) c)).

(** One round of the loop over the items of [_generate_filtered_actions].
    [favorites] is the "Favorites" item, [None] when the pointer is null. *)
Definition add_action (action_favorites : list string) (_selection : string)
  (favorites : option path) (t : TreeItem) (item : MenuItem) : TreeItem :=
  let '(t, parent) := walk_categories t [] (ancestor_categories item) in
  let '(t, node) := _make_item t parent item (text (get_spec item)) in
  let is_favorite := Settings.has action_favorites (category (get_spec item)) in
  let t := update_cell (decorate_leaf is_favorite) t node in
  let t := if String.eqb (category (get_spec item)) _selection
           then set_selected t node else t in
  if is_favorite
  then match favorites with
       | Some f => fst (_make_item t f item (_create_favorite_item_text t parent item))
       | None => t
       end
  else t.

(** The tree when the loop over the items starts: the root and, when there
    are favorites, the "Favorites" item below it. *)
Definition initial_tree (action_favorites : list string) : TreeItem * option path :=
  let root := Item new_cell [] in
  match action_favorites with
  | [] => (root, None)
  | _ :: _ => let '(t, f) := create_child root [] favorites_cell in (t, Some f)
  end.

(** [_generate_filtered_actions] up to the call that removes the empty
    items. *)
Definition build_tree (action_favorites : list string) (_selection : string)
  (items : list MenuItem) : TreeItem :=
  let '(t, favorites) := initial_tree action_favorites in
  fold_left (add_action action_favorites _selection favorites) items t.

(** [OrchestratorGraphActionMenu::_remove_empty_action_nodes]: the children
    are visited in order, each one after the items below it. *)
Fixpoint _remove_empty_action_nodes (p_parent : TreeItem) : TreeItem :=
  match p_parent with
  | Item c kids =>
      Item c
        ((fix loop (l : list TreeItem) : list TreeItem :=
            match l with
            | [] => []
            | child :: next =>
                let child' := _remove_empty_action_nodes child in
                if Nat.eqb (get_child_count child') 0 && negb (has_handler child')
                then loop next
                else child' :: loop next
            end) kids)
  end.

(** [OrchestratorGraphActionMenu::_generate_filtered_actions], given the
    favorites read from the settings, the selection and the items of the
    action database. *)
Definition _generate_filtered_actions (action_favorites : list string)
  (_selection : string) (items : list MenuItem) : TreeItem :=
  _remove_empty_action_nodes (build_tree action_favorites _selection items).

(** *** The search box and the favorite button *)

(** The local [filter_text] of [_on_filter_text_changed]. *)
Definition filter_text (p_new_text : string) : string :=
  trim_suffix (trim_prefix p_new_text " ") " ".

(** The keywords [_on_filter_text_changed] leaves in [_filter]. *)
Definition filter_keywords (p_new_text : string) : list string :=
  let filter_text := filter_text p_new_text in
  if negb (is_empty filter_text)
  then fold_left (fun kw element => kw ++ [to_lower element])
                 (split " " filter_text) []
  else [].

(** The keywords as the specification words them: the text with the spaces
    around it trimmed, cut at the spaces, each piece in lower case; none
    when the trimmed text is empty. *)
Fixpoint strip_left (s : string) : string :=
  match s with
  | EmptyString => EmptyString
  | String c r => if Ascii.eqb c " " then strip_left r else s
  end.

Fixpoint strip_right (s : string) : string :=
  match s with
  | EmptyString => EmptyString
  | String c r =>
      match strip_right r with
      | EmptyString => if Ascii.eqb c " " then EmptyString else String c EmptyString
      | r' => String c r'
      end
  end.

Definition strip_spaces (s : string) : string := strip_right (strip_left s).

Definition spec_filter_keywords (p_new_text : string) : list string :=
  let trimmed := strip_spaces p_new_text in
  if is_empty trimmed then [] else map to_lower (split " " trimmed).

(** The item [_on_filter_text_changed] selects when there are keywords:
    first children all the way down from the first child of the root. *)
Fixpoint first_leaf (t : TreeItem) : path :=
  match t with
  | Item _ [] => []
  | Item _ (child :: _) => 0 :: first_leaf child
  end.

(** [OrchestratorGraphActionDB::load] then [get_items]: the items of the
    registry the filter lets through. *)
Variable action_db_load : ActionFilter -> list MenuItem.

(** The fields of the menu the handlers read and write. *)
Record Menu := {
  _filter : ActionFilter;
  _selection : string;
  _tree_view : TreeItem
}.

(** [_on_tree_item_selected], run by the selection of the item at [p]. *)
Definition selection_after (t : TreeItem) (p : path) (old : string) : string :=
  match get_item t p with
  | Some n => match meta_item (cell n) with
              | Some menu_item => category (get_spec menu_item)
              | None => old
              end
  | None => old
  end.

(** [OrchestratorGraphActionMenu::_on_filter_text_changed]. *)
Definition _on_filter_text_changed (settings : Settings.ProjectSettings)
  (m : Menu) (p_new_text : string) : Menu :=
  let filter := {| keywords := filter_keywords p_new_text;
                   context_sensitive := context_sensitive (_filter m) |} in
  let tree := _generate_filtered_actions (Settings.get_action_favorites settings)
                (_selection m) (action_db_load filter) in
  match keywords filter, children tree with
  | _ :: _, _ :: _ =>
      let p := first_leaf tree in
      {| _filter := filter;
         _selection := selection_after tree p (_selection m);
         _tree_view := set_selected tree p |}
  | _, _ => {| _filter := filter; _selection := _selection m; _tree_view := tree |}
  end.

(** The settings after [_on_tree_button_clicked] on an item with cell [c]. *)
Definition _on_tree_button_clicked (c : Cell) (settings : Settings.ProjectSettings)
  : Settings.ProjectSettings :=
  if negb (match meta_favorite c with Some b => b | None => false end)
  then match meta_item c with
       | Some menu_item =>
           Settings.add_action_favorite (category (get_spec menu_item)) settings
       | None => settings
       end
  else match meta_item c with
       | Some menu_item =>
           Settings.remove_action_favorite (category (get_spec menu_item)) settings
       | None => settings
       end.

(** The cell of the leaf the main loop makes for [item]. *)
Definition leaf_cell (action_favorites : list string) (item : MenuItem) : Cell :=
  decorate_leaf (Settings.has action_favorites (category (get_spec item)))
    (make_item_cell item (text (get_spec item))).

(** A click on the favorite button of the leaf of [item], in a menu
    generated from the current settings. *)
Definition toggle_favorite (item : MenuItem) (settings : Settings.ProjectSettings)
  : Settings.ProjectSettings :=
  _on_tree_button_clicked
    (leaf_cell (Settings.get_action_favorites settings) item) settings.

End Generate.

End ActionMenu.

(* ================================================================== *)
(** ** Notions used to state the properties of the tree *)

Module TreeSpec.

Import GString ActionMenu.

Section Spec.

Context {lowercase : Lowercase}.

(** Induction on an item with the property known of the items below it. *)
Fixpoint TreeItem_ind (P : TreeItem -> Prop)
  (step : forall c kids, Forall P kids -> P (Item c kids)) (t : TreeItem) : P t :=
  match t with
  | Item c kids =>
      step c kids
        ((fix all (l : list TreeItem) : Forall P l :=
            match l with
            | [] => Forall_nil P
            | k :: r => Forall_cons k (TreeItem_ind P step k) (all r)
            end) kids)
  end.

(** [subitem n t]: the item [n] is [t] or lies somewhere below it. *)
Inductive subitem (n : TreeItem) : TreeItem -> Prop :=
| subitem_here : subitem n n
| subitem_child t k : In k (children t) -> subitem n k -> subitem n t.

(** [below n t]: [n] lies below [t] (the hidden root, say). *)
Definition below (n t : TreeItem) : Prop :=
  exists k, In k (children t) /\ subitem n k.

(** [extends R t t']: [t'] has every item of [t] at the same path, with a
    cell related by [R], and possibly more children appended here and
    there. *)
Local Unset Elimination Schemes.
Inductive extends (R : Cell -> Cell -> Prop) : TreeItem -> TreeItem -> Prop :=
| extends_item c c' kids kids' more :
    R c c' -> Forall2 (extends R) kids kids' ->
    extends R (Item c kids) (Item c' (kids' ++ more)).
Local Set Elimination Schemes.

(** Two cells that differ at most in being selected. *)
Definition same_but_selected (c c' : Cell) : Prop :=
  set_cell_selected false c = set_cell_selected false c'.

(** The walk of the main loop without the creation of categories: the path
    reached from [t] by taking, for each name, the first child with that
    text (letter case apart); [None] when some name has no such child. *)
Fixpoint resolve (t : TreeItem) (names : list string) : option path :=
  match names with
  | [] => Some []
  | name :: rest =>
      match find_child (children t) name with
      | Some j =>
          match nth_error (children t) j with
          | Some k => option_map (cons j) (resolve k rest)
          | None => None
          end
      | None => None
      end
  end.

(** The texts of the items met along a path, the root left out. *)
Fixpoint path_texts (t : TreeItem) (p : path) : list string :=
  match p with
  | [] => []
  | j :: q =>
      match nth_error (children t) j with
      | Some k => get_text k :: path_texts k q
      | None => []
      end
  end.

(** The texts joined the way [_create_favorite_item_text] joins them: from
    the last one up, a "/" being put only before a text that is not empty so
    far. *)
Definition favorite_join (names : list string) : string :=
  fold_right (fun name favorite_text =>
                if negb (is_empty favorite_text)
                then (name ++ "/" ++ favorite_text)%string
                else name)
             "" names.

(** What the two loops over the categories leave: the tree has only grown,
    no cell has changed, and the walk from the item at [parent] now finds
    every name and arrives at the path returned. *)
Definition walked (t : TreeItem) (parent : path) (names : list string)
  (result : TreeItem * path) : Prop :=
  exists rel n',
    snd result = parent ++ rel
    /\ extends eq t (fst result)
    /\ get_item (fst result) parent = Some n'
    /\ resolve n' names = Some rel.

(** The "Favorites" pointer is an item of the tree. *)
Definition favorites_valid (favorites : option path) (t : TreeItem) : Prop :=
  forall f, favorites = Some f -> exists fn, get_item t f = Some fn.

(** The test of [_remove_empty_action_nodes], negated: the child stays. *)
Definition stays (child : TreeItem) : bool :=
  negb (Nat.eqb (get_child_count child) 0 && negb (has_handler child)).

(** The item at [p] exists and its cell satisfies [P]. *)
Definition item_at (t : TreeItem) (p : path) (P : Cell -> Prop) : Prop :=
  exists n, get_item t p = Some n /\ P (cell n).

(** Every cell of the tree satisfies [P]. *)
Definition all_cells (P : Cell -> Prop) (t : TreeItem) : Prop :=
  forall n, subitem n t -> P (cell n).

(** An item made by the creation loop or the "Favorites" item: it carries no
    menu item. *)
Definition is_category (t : TreeItem) : bool :=
  match meta_item (cell t) with Some _ => false | None => true end.

(** The texts, in lower case, of the categories among some children. *)
Definition category_names (kids : list TreeItem) : list string :=
  map (fun k => to_lower (get_text k)) (filter is_category kids).

(** The function keeps the text of an item and whether it is a category. *)
Definition keeps_key (f : TreeItem -> TreeItem) : Prop :=
  forall n, get_text (f n) = get_text n /\ is_category (f n) = is_category n.

(** No item of the tree has two categories of the same name, letter case
    apart, among its children. *)
Definition categories_unique (t : TreeItem) : Prop :=
  forall n, subitem n t -> NoDup (category_names (children n)).

(** The leaf of a menu item: its text, the item and its handler. *)
Definition leaf_of (item : MenuItem) (c : Cell) : Prop :=
  cell_text c = text (get_spec item)
  /\ meta_item c = Some item
  /\ meta_handler c = get_handler item.

(** The leaf of a menu item, selected when the item is the selection. *)
Definition selected_leaf_of (_selection : string) (item : MenuItem) (c : Cell) : Prop :=
  leaf_of item c
  /\ (category (get_spec item) = _selection -> cell_selected c = true).

(** The leaf of a menu item below "Favorites", with the texts of the
    categories above the item. *)
Definition favorite_leaf_of (item : MenuItem) (names : list string) (c : Cell) : Prop :=
  cell_text c = ("<" ++ favorite_join names ++ "> " ++ text (get_spec item))%string
  /\ meta_item c = Some item
  /\ meta_handler c = get_handler item.

(** In the tree [X] the two actions share the items of the names their
    categories begin with: the walk along [shared] (or [shared'], the same
    names up to letter case) arrives at one item [p]; the walks along all
    the categories of each action go through [p] and on, as many items
    further as names remain; and the leaf of each action is a child of the
    item its walk arrives at. *)
Definition shares_prefix (X : TreeItem) (a b : MenuItem)
  (shared shared' rest rest' : list string) : Prop :=
  exists (p pa pb : path) (ka kb : nat),
    resolve X shared = Some p
    /\ resolve X shared' = Some p
    /\ List.length p = List.length shared
    /\ map to_lower (path_texts X p) = map to_lower shared
    /\ resolve X (ancestor_categories a) = Some (p ++ pa)
    /\ resolve X (ancestor_categories b) = Some (p ++ pb)
    /\ List.length pa = List.length rest
    /\ List.length pb = List.length rest'
    /\ item_at X (p ++ pa ++ [ka]) (leaf_of a)
    /\ item_at X (p ++ pb ++ [kb]) (leaf_of b)
    /\ (a <> b -> p ++ pa ++ [ka] <> p ++ pb ++ [kb]).

(** The item carries an action: a menu item with a valid handler, kept in
    the "handler" meta too. *)
Definition carries_action (c : Cell) : Prop :=
  exists item h,
    meta_item c = Some item /\ get_handler item = Some h /\ meta_handler c = Some h.

(** A handler in the cell is the handler of the menu item in the cell. *)
Definition handler_of_item (c : Cell) : Prop :=
  forall h, meta_handler c = Some h ->
    exists item, meta_item c = Some item /\ get_handler item = Some h.

End Spec.

End TreeSpec.

(* ================================================================== *)
(** ** A small registry to run the menu on *)

Module Sample.

Import GString ActionMenu.

(** The folding of the letters A-Z, which is [String::to_lower] on ASCII
    text. *)
Definition to_lower_char (c : ascii) : ascii :=
  let n := nat_of_ascii c in
  if Nat.leb 65 n && Nat.leb n 90 then ascii_of_nat (n + 32) else c.

Fixpoint ascii_to_lower (s : string) : string :=
  match s with
  | EmptyString => EmptyString
  | String c r => String (to_lower_char c) (ascii_to_lower r)
  end.

Definition ascii_lowercase : Lowercase := {| to_lower := ascii_to_lower |}.

(** A theme with an icon for "int", "Object" and "Math"; every other name
    gets the placeholder, texture 0. *)
Definition theme (name : string) : Texture :=
  if String.eqb name "int" then 1
  else if String.eqb name "Object" then 2
  else if String.eqb name "Math" then 3
  else 0.

Definition action (category text : string) (with_handler : bool) : MenuItem :=
  {| get_spec := {| category := category; text := text; tooltip := "";
                    icon := "MemberMethod"; type_icon := "" |};
     get_handler := if with_handler
                    then Some {| get_class := "OrchestratorGraphNodeSpawner" |}
                    else None |}.

Definition math_add : MenuItem := action "Math/Add" "Add" true.
Definition math_subtract : MenuItem := action "Math/Subtract" "Subtract" true.

(** Texts of the items of a tree in the order of display, each with the
    texts of its children. *)
Definition outline (t : TreeItem) : list (string * list string) :=
  map (fun k => (get_text k, map get_text (children k))) (children t).

End Sample.

(* ================================================================== *)
(** ** The action menu: applying the selection, counting rows *)

Module ActionMenuMore.

Import GString ActionMenu.

(** The test of [_apply_selection] on one item: it has the "item" meta and
    the category of the menu item is the selection. *)
Definition is_selection (_selection : string) (c : Cell) : bool :=
  match meta_item c with
  | Some menu_item => String.eqb (category (get_spec menu_item)) _selection
  | None => false
  end.

(** [OrchestratorGraphActionMenu::_apply_selection].  [p_item] is the item
    at the path [here] of [tree]; the answer is the tree after the call and
    the value returned. *)
Fixpoint _apply_selection (_selection : string) (p_item : TreeItem) (here : path)
  (tree : TreeItem) : TreeItem * bool :=
  match p_item with
  | Item c kids =>
      if is_selection _selection c then (set_selected tree here, true)
      else
        (fix loop (j : nat) (l : list TreeItem) (tree : TreeItem)
           : TreeItem * bool :=
           match l with
           | [] => (tree, false)
           | child :: next =>
               let '(tree', applied) :=
                 _apply_selection _selection child (here ++ [j]) tree in
               if applied then (tree', true) else loop (S j) next tree'
           end) 0 kids tree
  end.

(** What a call of [_apply_selection] on the item [n] at the path [here]
    leaves: either some item at or below [n] is the selection, the call
    answers true and has selected such an item; or none is, the call answers
    false and the tree is as it was. *)
Definition applied_to (_selection : string) (n : TreeItem) (here : path) (tree : TreeItem)
  (r : TreeItem * bool) : Prop :=
  (snd r = true
   /\ exists q x,
        get_item n q = Some x /\ is_selection _selection (cell x) = true
        /\ fst r = set_selected tree (here ++ q))
  \/ (snd r = false /\ fst r = tree
      /\ forall q x, get_item n q = Some x ->
                     is_selection _selection (cell x) = false).

(** The number of items of a tree whose cell passes a test. *)
Fixpoint count_cells (f : Cell -> bool) (t : TreeItem) : nat :=
  match t with
  | Item c kids =>
      (if f c then 1 else 0) + list_sum (map (count_cells f) kids)
  end.

(** The cell carries a menu item that passes the test [g]. *)
Definition item_passes (g : MenuItem -> bool) (c : Cell) : bool :=
  match meta_item c with Some menu_item => g menu_item | None => false end.

(** The number of occurrences of a character in a text. *)
Fixpoint count_char (c : ascii) (s : string) : nat :=
  match s with
  | EmptyString => 0
  | String a r => (if Ascii.eqb a c then 1 else 0) + count_char c r
  end.

End ActionMenuMore.

(* ================================================================== *)
(** ** Notions used to state what the rows of the menu show *)

Module RowSpec.

Import GString ActionMenu TreeSpec.

Section Rows.

Context {lowercase : Lowercase}.

(** Every cell below the root of the tree satisfies [P]. *)
Definition below_cells (P : Cell -> Prop) (t : TreeItem) : Prop :=
  forall n, below n t -> P (cell n).

(** The first column of a row is selectable, [set_selectable(0, true)],
    exactly when the row has a handler. *)
Definition selectable_iff_handler (c : Cell) : Prop :=
  cell_selectable c = match meta_handler c with Some _ => true | None => false end.

(** A row with a menu item shows the icons and the tooltip of its
    specification, and its favorite button, when it has one, tells whether
    the category of the item is in the list of favorites. *)
Definition shows_its_action (get_icon : string -> Texture)
  (action_favorites : list string) (c : Cell) : Prop :=
  forall menu_item, meta_item c = Some menu_item ->
    cell_icon c = Some (get_icon (icon (get_spec menu_item)))
    /\ cell_tooltip c = tooltip (get_spec menu_item)
    /\ cell_icon1 c = Some (get_icon (type_icon (get_spec menu_item)))
    /\ (cell_button c = None -> meta_favorite c = None)
    /\ (cell_button c <> None ->
        meta_favorite c
        = Some (Settings.has action_favorites (category (get_spec menu_item)))
        /\ cell_button c
           = Some (get_icon
                     (if Settings.has action_favorites
                           (category (get_spec menu_item))
                      then "Favorites" else "NonFavorite"))).

(** A row with a menu item has one of the items of the list. *)
Definition carries_listed_item (items : list MenuItem) (c : Cell) : Prop :=
  forall menu_item, meta_item c = Some menu_item -> In menu_item items.

(** [P] holds of the two cells the main loop makes for an action: the leaf
    below its categories and the leaf below "Favorites". *)
Definition holds_for (get_icon : string -> Texture) (action_favorites : list string)
  (P : Cell -> Prop) (item : MenuItem) : Prop :=
  P (leaf_cell get_icon action_favorites item)
  /\ forall text, P (make_item_cell get_icon item text).

(** The children of every item of the tree satisfy [Q]. *)
Definition all_children (Q : list TreeItem -> Prop) (t : TreeItem) : Prop :=
  forall n, subitem n t -> Q (children n).

(** The second item has the text of the first and is, like it, with or
    without a menu item. *)
Definition same_key (k k' : TreeItem) : Prop :=
  get_text k' = get_text k /\ is_category k' = is_category k.

(** Each child without a menu item is the first child of its text, letter
    case apart: it is the child the walk of the main loop finds for its
    text. *)
Definition found_first (kids : list TreeItem) : Prop :=
  forall j k,
    nth_error kids j = Some k -> is_category k = true ->
    find_child kids (get_text k) = Some j.

(** The child the walk of the main loop takes for a name: the first child
    of that text, letter case apart. *)
Definition found_child (kids : list TreeItem) (name : string) : option TreeItem :=
  match find_child kids name with
  | Some j => nth_error kids j
  | None => None
  end.

(** A category node, as the creation loop of the main loop makes it: an
    item without a menu item that has an icon.  ("Favorites" has none.) *)
Definition is_category_node (k : TreeItem) : bool :=
  is_category k
  && match cell_icon (cell k) with Some _ => true | None => false end.

(** The category nodes of a name, letter case apart, among some children. *)
Definition category_nodes (kids : list TreeItem) (name : string) : list TreeItem :=
  filter (fun k => is_category_node k
                   && String.eqb (to_lower (get_text k)) (to_lower name))
         kids.

(** An item without a menu item has the icon of its text. *)
Definition icon_resolved (get_icon : string -> Texture) (c : Cell) : Prop :=
  meta_item c = None ->
  cell_icon c = Some (category_icon get_icon (cell_text c)).

(** The "Favorites" item, made when there are favorites: its text, no icon,
    no menu item, and below it items with their icons. *)
Definition is_favorites (get_icon : string -> Texture)
  (action_favorites : list string) (k : TreeItem) : Prop :=
  action_favorites <> []
  /\ get_text k = "Favorites"
  /\ cell_icon (cell k) = None
  /\ meta_item (cell k) = None
  /\ below_cells (icon_resolved get_icon) k.

(** Below the root every item without a menu item has the icon of its
    text, but for "Favorites", which can only be the first child of the
    root. *)
Definition icons_resolved (get_icon : string -> Texture)
  (action_favorites : list string) (t : TreeItem) : Prop :=
  forall j k,
    nth_error (children t) j = Some k ->
    all_cells (icon_resolved get_icon) k
    \/ (j = 0 /\ is_favorites get_icon action_favorites k).

End Rows.

End RowSpec.

(* ================================================================== *)
(** ** Engine values: [Variant] *)

Module GVariant.

Import BinNums BinInt QArith_base.

(** [Rect2i]: position and size. *)
Record Rect2i := {
  position_x : Z;
  position_y : Z;
  size_x : Z;
  size_y : Z
}.

(** [Rect2i()]. *)
Definition Rect2i_default : Rect2i :=
  {| position_x := 0; position_y := 0; size_x := 0; size_y := 0 |}.

(** The values of the settings and of the editor layout.  An integer is the
    64-bit integer of the engine; the components of a color are kept as the
    decimal numbers written in the source. *)
Inductive Variant :=
| VNil
| VBool (b : bool)
| VInt (i : Z)
| VString (s : string)
| VColor (r g b : Q)
| VRect2i (r : Rect2i)
| VPackedStringArray (l : list string).

(** The value of a 32-bit [int] made from a 64-bit integer. *)
Definition to_int32 (i : Z) : Z :=
  ((i + 2147483648) mod 4294967296 - 2147483648)%Z.

(** [Variant::operator int()]: a string goes through [String::to_int], here
    [string_to_int]; a value that is no number and no string gives 0. *)
Definition to_int (string_to_int : string -> Z) (v : Variant) : Z :=
  match v with
  | VBool b => if b then 1 else 0
  | VInt i => to_int32 i
  | VString s => to_int32 (string_to_int s)
  | _ => 0
  end.

(** [Variant::operator Rect2i()]: a value that is not a rectangle gives
    [Rect2i()]. *)
Definition to_Rect2i (v : Variant) : Rect2i :=
  match v with
  | VRect2i r => r
  | _ => Rect2i_default
  end.

End GVariant.

(* ================================================================== *)
(** ** The registered settings (settings.cpp) *)

(** The project settings of the engine as the constructor of
    [OrchestratorSettings] uses them: every property, not only the
    favorites. *)
Module ProjectStore.

Import GVariant.

(** The [Variant::Type] of the settings. *)
Inductive VariantType := NIL | BOOL | INT | STRING | COLOR | PACKED_STRING_ARRAY.

Inductive PropertyHint :=
| PROPERTY_HINT_NONE
| PROPERTY_HINT_RANGE
| PROPERTY_HINT_ENUM
| PROPERTY_HINT_FILE
| PROPERTY_HINT_COLOR_NO_ALPHA
| PROPERTY_HINT_RESOURCE_TYPE.

(** [PropertyInfo(type, name, hint = PROPERTY_HINT_NONE, hint_string = "")]. *)
Record PropertyInfo := {
  type : VariantType;
  name : string;
  hint : PropertyHint;
  hint_string : string
}.

(** What the engine keeps for one property. *)
Record VariantContainer := {
  variant : Variant;
  initial : Variant;
  basic : bool
}.

Record ProjectSettings := {
  props : string -> option VariantContainer;
  custom_prop_info : string -> option PropertyInfo
}.

Definition update {A : Type} (m : string -> option A) (key : string) (v : option A)
  : string -> option A :=
  fun k => if String.eqb k key then v else m k.

Definition has_setting (ps : ProjectSettings) (key : string) : bool :=
  match props ps key with Some _ => true | None => false end.

(** [ProjectSettings::get_setting(name, default)]. *)
Definition get_setting (ps : ProjectSettings) (key : string) (p_default : Variant)
  : Variant :=
  match props ps key with Some c => variant c | None => p_default end.

(** [ProjectSettings::set_setting]: a nil value erases the property, another
    value replaces the value of the property or makes a new property. *)
Definition set_setting (key : string) (value : Variant) (ps : ProjectSettings)
  : ProjectSettings :=
  {| props :=
       update (props ps) key
         match value with
         | VNil => None
         | _ => match props ps key with
                | Some c => Some {| variant := value; initial := initial c;
                                    basic := basic c |}
                | None => Some {| variant := value; initial := VNil;
                                  basic := false |}
                end
         end;
     custom_prop_info := custom_prop_info ps |}.

(** [ProjectSettings::set_initial_value]: fails on a property that does not
    exist. *)
Definition set_initial_value (key : string) (value : Variant) (ps : ProjectSettings)
  : ProjectSettings :=
  match props ps key with
  | Some c =>
      {| props := update (props ps) key
                    (Some {| variant := variant c; initial := value;
                             basic := basic c |});
         custom_prop_info := custom_prop_info ps |}
  | None => ps
  end.

(** [ProjectSettings::set_as_basic]: fails on a property that does not
    exist. *)
Definition set_as_basic (key : string) (p_basic : bool) (ps : ProjectSettings)
  : ProjectSettings :=
  match props ps key with
  | Some c =>
      {| props := update (props ps) key
                    (Some {| variant := variant c; initial := initial c;
                             basic := p_basic |});
         custom_prop_info := custom_prop_info ps |}
  | None => ps
  end.

(** [ProjectSettings::add_property_info], given the dictionary made by
    [DictionaryUtils::from_property]. *)
Definition add_property_info (pi : PropertyInfo) (ps : ProjectSettings)
  : ProjectSettings :=
  {| props := props ps;
     custom_prop_info := update (custom_prop_info ps) (name pi) (Some pi) |}.

(** [ProjectSettings::clear]: fails on a property that does not exist. *)
Definition clear (key : string) (ps : ProjectSettings) : ProjectSettings :=
  match props ps key with
  | Some _ => {| props := update (props ps) key None;
                 custom_prop_info := custom_prop_info ps |}
  | None => ps
  end.

(** A project without any property. *)
Definition empty : ProjectSettings :=
  {| props := fun _ => None; custom_prop_info := fun _ => None |}.

End ProjectStore.

(** [OrchestratorSettings]: the two tables of settings and the constructor
    that registers them. *)
Module SettingsRegistry.

Import BinNums QArith_base GString GVariant ProjectStore.

(** [OrchestratorSettings::Setting]. *)
Record Setting := {
  info : PropertyInfo;
  value : Variant
}.

(** [Color(r, g, b)]. *)
Definition Color (r g b : QArith_base.Q) : Variant := VColor r g b.

Arguments Color (r g b)%_Q.
Arguments VInt i%_Z.

(** The helper setting layouts. *)
Definition BOOL_SETTING (n : string) (v : Variant) : Setting :=
  {| info := {| type := BOOL; name := n; hint := PROPERTY_HINT_NONE;
                hint_string := "" |};
     value := v |}.

Definition COLOR_NO_ALPHA_SETTING (n : string) (v : Variant) : Setting :=
  {| info := {| type := COLOR; name := n; hint := PROPERTY_HINT_COLOR_NO_ALPHA;
                hint_string := "" |};
     value := v |}.

Definition FILE_SETTING (n f : string) (v : Variant) : Setting :=
  {| info := {| type := STRING; name := n; hint := PROPERTY_HINT_FILE;
                hint_string := f |};
     value := v |}.

Definition INT_SETTING (n : string) (v : Variant) : Setting :=
  {| info := {| type := INT; name := n; hint := PROPERTY_HINT_NONE;
                hint_string := "" |};
     value := v |}.

Definition RANGE_SETTING (n r : string) (v : Variant) : Setting :=
  {| info := {| type := INT; name := n; hint := PROPERTY_HINT_RANGE;
                hint_string := r |};
     value := v |}.

Definition SENUM_SETTING (n r : string) (v : Variant) : Setting :=
  {| info := {| type := STRING; name := n; hint := PROPERTY_HINT_ENUM;
                hint_string := r |};
     value := v |}.

Definition RESOURCE_SETTING (n t : string) (v : Variant) : Setting :=
  {| info := {| type := STRING; name := n; hint := PROPERTY_HINT_RESOURCE_TYPE;
                hint_string := t |};
     value := v |}.

(** The members of [OrchestratorSettings]. *)
Record OrchestratorSettings := {
  _settings : list Setting;
  _removed : list Setting
}.

(** [OrchestratorSettings::_register_deprecated_settings]. *)
Definition _register_deprecated_settings (self : OrchestratorSettings)
  : OrchestratorSettings :=
  {| _settings := _settings self;
     _removed :=
       _removed self ++ [
         FILE_SETTING "run/test_scene" "*.tscn,*.scn" (VString "res://addons/test/test.tscn");
         COLOR_NO_ALPHA_SETTING "nodes/colors/background" (Color 0.12 0.15 0.19);
         COLOR_NO_ALPHA_SETTING "nodes/colors/data" (Color 0.1686 0.2824 0.7882);
         COLOR_NO_ALPHA_SETTING "nodes/colors/flow_control" (Color 0.2510 0.4549 0.2078);
         COLOR_NO_ALPHA_SETTING "nodes/colors/logic" (Color 0.6784 0.20 0.20);
         COLOR_NO_ALPHA_SETTING "nodes/colors/terminal" (Color 0.2706 0.3686 0.4314);
         COLOR_NO_ALPHA_SETTING "nodes/colors/utility" (Color 0.5765 0.1686 0.4275);
         COLOR_NO_ALPHA_SETTING "nodes/colors/custom" (Color 0.47 0.27 0.20)
       ] |}.

(** [OrchestratorSettings::_register_settings]. *)
Definition _register_settings (self : OrchestratorSettings) : OrchestratorSettings :=
  {| _settings :=
       _settings self ++ [
         RESOURCE_SETTING "settings/default_type" "Object" (VString "Node");
         SENUM_SETTING "settings/log_level" "FATAL,ERROR,WARN,INFO,DEBUG,TRACE" (VString "INFO");
         BOOL_SETTING "settings/save_copy_as_text_resource" (VBool false);
         RANGE_SETTING "settings/runtime/max_call_stack" "256,1024,256" (VInt 1024);
         INT_SETTING "settings/runtime/max_loop_iterations" (VInt 1000000);
         BOOL_SETTING "settings/runtime/tickable" (VBool true);
         BOOL_SETTING "ui/nodes/show_type_icons" (VBool true);
         BOOL_SETTING "ui/nodes/show_conversion_nodes" (VBool false);
         COLOR_NO_ALPHA_SETTING "ui/node_colors/constants_and_literals" (Color 0.271 0.392 0.2);
         COLOR_NO_ALPHA_SETTING "ui/node_colors/dialogue" (Color 0.318 0.435 0.839);
         COLOR_NO_ALPHA_SETTING "ui/node_colors/events" (Color 0.467 0.0 0.0);
         COLOR_NO_ALPHA_SETTING "ui/node_colors/flow_control" (Color 0.132 0.258 0.266);
         COLOR_NO_ALPHA_SETTING "ui/node_colors/function_call" (Color 0.0 0.2 0.396);
         COLOR_NO_ALPHA_SETTING "ui/node_colors/pure_function_call" (Color 0.133 0.302 0.114);
         COLOR_NO_ALPHA_SETTING "ui/node_colors/function_terminator" (Color 0.294 0.0 0.506);
         COLOR_NO_ALPHA_SETTING "ui/node_colors/function_result" (Color 1.0 0.65 0.4);
         COLOR_NO_ALPHA_SETTING "ui/node_colors/math_operations" (Color 0.259 0.408 0.384);
         COLOR_NO_ALPHA_SETTING "ui/node_colors/properties" (Color 0.467 0.28 0.175);
         COLOR_NO_ALPHA_SETTING "ui/node_colors/resources" (Color 0.263 0.275 0.359);
         COLOR_NO_ALPHA_SETTING "ui/node_colors/scene" (Color 0.208 0.141 0.282);
         COLOR_NO_ALPHA_SETTING "ui/node_colors/signals" (Color 0.353 0.0 0.0);
         COLOR_NO_ALPHA_SETTING "ui/node_colors/variable" (Color 0.259 0.177 0.249);
         COLOR_NO_ALPHA_SETTING "ui/node_colors/type_cast" (Color 0.009 0.221 0.203);
         COLOR_NO_ALPHA_SETTING "ui/node_colors/comment" (Color 0.4 0.4 0.4);
         COLOR_NO_ALPHA_SETTING "ui/connection_colors/execution" (Color 1.0 1.0 1.0);
         COLOR_NO_ALPHA_SETTING "ui/connection_colors/any" (Color 0.41 0.93 0.74);
         COLOR_NO_ALPHA_SETTING "ui/connection_colors/boolean" (Color 0.55 0.65 0.94);
         COLOR_NO_ALPHA_SETTING "ui/connection_colors/integer" (Color 0.59 0.78 0.94);
         COLOR_NO_ALPHA_SETTING "ui/connection_colors/float" (Color 0.38 0.85 0.96);
         COLOR_NO_ALPHA_SETTING "ui/connection_colors/string" (Color 0.42 0.65 0.93);
         COLOR_NO_ALPHA_SETTING "ui/connection_colors/string name" (Color 0.42 0.65 0.93);
         COLOR_NO_ALPHA_SETTING "ui/connection_colors/rect2" (Color 0.95 0.57 0.65);
         COLOR_NO_ALPHA_SETTING "ui/connection_colors/rect2i" (Color 0.95 0.57 0.65);
         COLOR_NO_ALPHA_SETTING "ui/connection_colors/vector2" (Color 0.74 0.57 0.95);
         COLOR_NO_ALPHA_SETTING "ui/connection_colors/vector2i" (Color 0.74 0.57 0.95);
         COLOR_NO_ALPHA_SETTING "ui/connection_colors/vector3" (Color 0.84 0.49 0.93);
         COLOR_NO_ALPHA_SETTING "ui/connection_colors/vector3i" (Color 0.84 0.49 0.93);
         COLOR_NO_ALPHA_SETTING "ui/connection_colors/vector4" (Color 0.84 0.49 0.94);
         COLOR_NO_ALPHA_SETTING "ui/connection_colors/vector4i" (Color 0.84 0.49 0.94);
         COLOR_NO_ALPHA_SETTING "ui/connection_colors/transform2d" (Color 0.77 0.93 0.41);
         COLOR_NO_ALPHA_SETTING "ui/connection_colors/transform3d" (Color 0.96 0.66 0.43);
         COLOR_NO_ALPHA_SETTING "ui/connection_colors/plane" (Color 0.97 0.44 0.44);
         COLOR_NO_ALPHA_SETTING "ui/connection_colors/quaternion" (Color 0.93 0.41 0.64);
         COLOR_NO_ALPHA_SETTING "ui/connection_colors/aabb" (Color 0.93 0.47 0.57);
         COLOR_NO_ALPHA_SETTING "ui/connection_colors/basis" (Color 0.89 0.93 0.41);
         COLOR_NO_ALPHA_SETTING "ui/connection_colors/projection" (Color 0.302 0.655 0.271);
         COLOR_NO_ALPHA_SETTING "ui/connection_colors/color" (Color 0.62 1.00 0.44);
         COLOR_NO_ALPHA_SETTING "ui/connection_colors/nodepath" (Color 0.51 0.58 0.93);
         COLOR_NO_ALPHA_SETTING "ui/connection_colors/rid" (Color 0.41 0.93 0.60);
         COLOR_NO_ALPHA_SETTING "ui/connection_colors/object" (Color 0.47 0.95 0.91);
         COLOR_NO_ALPHA_SETTING "ui/connection_colors/dictionary" (Color 0.47 0.93 0.69);
         COLOR_NO_ALPHA_SETTING "ui/connection_colors/array" (Color 0.88 0.88 0.88);
         COLOR_NO_ALPHA_SETTING "ui/connection_colors/callable" (Color 0.47 0.95 0.91)
       ];
     _removed := _removed self |}.

(** The key of the settings in [has_setting] and [get_setting]: the key
    itself when it begins with "orchestrator/", the key after
    "orchestrator/" otherwise. *)
Definition qualified (key : string) : string :=
  if negb (begins_with key "orchestrator/")
  then ("orchestrator/" ++ key)%string
  else key.

(** [OrchestratorSettings::has_setting]: the result and the lines printed. *)
Definition has_setting (ps : ProjectSettings) (key : string) : bool * list string :=
  let path := qualified key in
  let result := ProjectStore.has_setting ps path in
  (result, if negb result then [("Failed to find key " ++ path)%string] else []).

(** [OrchestratorSettings::get_setting]. *)
Definition get_setting (ps : ProjectSettings) (key : string) (p_default_value : Variant)
  : Variant :=
  ProjectStore.get_setting ps (qualified key) p_default_value.

Section Registry.

(** [_get_base_key()], of the header. *)
Variable _get_base_key : string.

(** [vformat("%s/%s", _get_base_key(), setting.info.name)]. *)
Definition key_of (setting : Setting) : string :=
  (_get_base_key ++ "/" ++ name (info setting))%string.

(** One round of the loop of [_initialize_settings]. *)
Definition initialize_setting (ps : ProjectSettings) (setting : Setting)
  : ProjectSettings :=
  let key := key_of setting in
  let pi := {| type := type (info setting); name := key;
               hint := hint (info setting);
               hint_string := hint_string (info setting) |} in
  let ps := if negb (ProjectStore.has_setting ps key)
            then set_setting key (value setting) ps
            else ps in
  let ps := set_initial_value key (value setting) ps in
  let ps := add_property_info pi ps in
  set_as_basic key true ps.

(** [OrchestratorSettings::_initialize_settings]. *)
Definition _initialize_settings (self : OrchestratorSettings) (ps : ProjectSettings)
  : OrchestratorSettings * ProjectSettings :=
  let self := _register_deprecated_settings self in
  let self := _register_settings self in
  (self, fold_left initialize_setting (_settings self) ps).

(** One round of the loop of [_update_default_settings]. *)
Definition remove_setting (ps : ProjectSettings) (setting : Setting)
  : ProjectSettings :=
  let key := key_of setting in
  if ProjectStore.has_setting ps key then clear key ps else ps.

(** [OrchestratorSettings::_update_default_settings]. *)
Definition _update_default_settings (self : OrchestratorSettings)
  (ps : ProjectSettings) : ProjectSettings :=
  fold_left remove_setting (_removed self) ps.

(** The constructor [OrchestratorSettings::OrchestratorSettings]: the two
    tables are empty at first. *)
Definition construct (ps : ProjectSettings) : OrchestratorSettings * ProjectSettings :=
  let '(self, ps) := _initialize_settings {| _settings := []; _removed := [] |} ps in
  (self, _update_default_settings self ps).

End Registry.

(** The names of the settings of a table. *)
Definition names (table : list Setting) : list string :=
  map (fun setting => name (info setting)) table.

(** No string occurs twice in the list. *)
Fixpoint no_duplicates (l : list string) : bool :=
  match l with
  | [] => true
  | x :: r => negb (existsb (String.eqb x) r) && no_duplicates r
  end.

(** The value of a setting is not nil. *)
Definition has_value (setting : Setting) : bool :=
  match value setting with VNil => false | _ => true end.

End SettingsRegistry.

(* ================================================================== *)
(** ** The layout of the floating window (plugin.cpp) *)

Module Plugin.

Import BinNums BinInt GVariant.

(** A [ConfigFile]: the value of a key of a section. *)
Definition ConfigFile := string -> string -> option Variant.

Definition has_section_key (cfg : ConfigFile) (section key : string) : bool :=
  match cfg section key with Some _ => true | None => false end.

(** [ConfigFile::get_value(section, key, default)]. *)
Definition get_value (cfg : ConfigFile) (section key : string) (p_default : Variant)
  : Variant :=
  match cfg section key with Some v => v | None => p_default end.

(** [ConfigFile::erase_section_key]. *)
Definition erase_section_key (section key : string) (cfg : ConfigFile) : ConfigFile :=
  fun s k => if String.eqb s section && String.eqb k key then None else cfg s k.

(** [ConfigFile::set_value]: a nil value erases the key. *)
Definition set_value (section key : string) (value : Variant) (cfg : ConfigFile)
  : ConfigFile :=
  match value with
  | VNil => erase_section_key section key cfg
  | _ => fun s k => if String.eqb s section && String.eqb k key then Some value
                    else cfg s k
  end.

(** [OrchestratorPlugin::restore_windows_on_load]; the editor settings are
    [None] when the reference is not valid. *)
Definition restore_windows_on_load (es : option (string -> bool)) : bool :=
  match es with
  | Some get_setting => get_setting "interface/multi_window/restore_windows_on_load"
  | None => false
  end.

Section Layout.

(** [OrchestratorMainView] and [OrchestratorWindowWrapper], with the methods
    the plugin calls.  The main view holds the window wrapper and is given
    the configuration: a call of it may change both. *)
Variable MainView : Type.
Variable WindowWrapper : Type.

Variable main_view_set_window_layout :
  MainView -> ConfigFile -> WindowWrapper -> MainView * ConfigFile * WindowWrapper.
Variable main_view_get_window_layout :
  MainView -> ConfigFile -> WindowWrapper -> MainView * ConfigFile * WindowWrapper.

Variable is_window_available : WindowWrapper -> bool.
Variable get_window_enabled : WindowWrapper -> bool.
Variable get_window_rect : WindowWrapper -> Rect2i.
Variable get_window_screen : WindowWrapper -> Z.
Variable restore_window_from_saved_position :
  Rect2i -> Z -> Rect2i -> WindowWrapper -> WindowWrapper.
Variable set_window_enabled : bool -> WindowWrapper -> WindowWrapper.

(** [DisplayServer::screen_get_usable_rect] and [String::to_int]. *)
Variable screen_get_usable_rect : Z -> Rect2i.
Variable string_to_int : string -> Z.

(** The members of [OrchestratorPlugin] the layout uses; [_main_view] is
    [None] for the null pointer. *)
Record OrchestratorPlugin := {
  _main_view : option MainView;
  _window_wrapper : WindowWrapper
}.

(** [if (_main_view) _main_view->f(p_configuration);] *)
Definition with_main_view
  (f : MainView -> ConfigFile -> WindowWrapper -> MainView * ConfigFile * WindowWrapper)
  (self : OrchestratorPlugin) (p_configuration : ConfigFile)
  : OrchestratorPlugin * ConfigFile :=
  match _main_view self with
  | Some main_view =>
      let '(main_view, p_configuration, window_wrapper) :=
        f main_view p_configuration (_window_wrapper self) in
      ({| _main_view := Some main_view; _window_wrapper := window_wrapper |},
       p_configuration)
  | None => (self, p_configuration)
  end.

(** [OrchestratorPlugin::_set_window_layout]. *)
Definition _set_window_layout (es : option (string -> bool))
  (self : OrchestratorPlugin) (p_configuration : ConfigFile)
  : OrchestratorPlugin * ConfigFile :=
  let '(self, p_configuration) :=
    with_main_view main_view_set_window_layout self p_configuration in
  if restore_windows_on_load es then
    if is_window_available (_window_wrapper self)
       && has_section_key p_configuration "Orchestrator" "window_rect"
    then
      ({| _main_view := _main_view self;
          _window_wrapper :=
            restore_window_from_saved_position
              (to_Rect2i (get_value p_configuration "Orchestrator" "window_rect"
                            (VRect2i Rect2i_default)))
              (to_int string_to_int
                 (get_value p_configuration "Orchestrator" "window_screen"
                    (VInt (-1))))
              (to_Rect2i (get_value p_configuration "Orchestrator"
                            "window_screen_rect" (VRect2i Rect2i_default)))
              (_window_wrapper self) |},
       p_configuration)
    else
      ({| _main_view := _main_view self;
          _window_wrapper := set_window_enabled false (_window_wrapper self) |},
       p_configuration)
  else (self, p_configuration).

(** [if (cfg->has_section_key(s, k)) cfg->erase_section_key(s, k);] *)
Definition erase_if_present (section key : string) (cfg : ConfigFile) : ConfigFile :=
  if has_section_key cfg section key then erase_section_key section key cfg else cfg.

(** [OrchestratorPlugin::_get_window_layout]. *)
Definition _get_window_layout (self : OrchestratorPlugin) (p_configuration : ConfigFile)
  : OrchestratorPlugin * ConfigFile :=
  let '(self, p_configuration) :=
    with_main_view main_view_get_window_layout self p_configuration in
  if get_window_enabled (_window_wrapper self) then
    let p_configuration :=
      set_value "Orchestrator" "window_rect"
        (VRect2i (get_window_rect (_window_wrapper self))) p_configuration in
    let screen := get_window_screen (_window_wrapper self) in
    let p_configuration :=
      set_value "Orchestrator" "window_screen" (VInt screen) p_configuration in
    let p_configuration :=
      set_value "Orchestrator" "window_screen_rect"
        (VRect2i (screen_get_usable_rect screen)) p_configuration in
    (self, p_configuration)
  else
    let p_configuration :=
      erase_if_present "Orchestrator" "window_rect" p_configuration in
    let p_configuration :=
      erase_if_present "Orchestrator" "window_screen" p_configuration in
    let p_configuration :=
      erase_if_present "Orchestrator" "window_screen_rect" p_configuration in
    (self, p_configuration).

End Layout.

(** The three keys of the section "Orchestrator" the plugin writes. *)
Definition layout_keys : list string :=
  ["window_rect"; "window_screen"; "window_screen_rect"].

(** The value fits a 32-bit [int]. *)
Definition is_int32 (i : Z) : Prop := (-2147483648 <= i < 2147483648)%Z.

End Plugin.

(** A sample for the layout: the window wrapper is what the layout reads of
    it, whether the window is enabled, its rectangle and its screen; the
    main view is [unit] and does nothing. *)
Module PluginSample.

Import BinNums BinInt GVariant Plugin.

Definition sample_window (enabled : bool) : bool * Rect2i * Z :=
  (enabled,
   {| position_x := 10; position_y := 20; size_x := 800; size_y := 600 |}%Z,
   1%Z).

Definition sample_usable_rect (screen : Z) : Rect2i :=
  {| position_x := 0; position_y := 0; size_x := 1920; size_y := 1080 |}%Z.

Definition sample_plugin (enabled : bool)
  : OrchestratorPlugin unit (bool * Rect2i * Z) :=
  {| _main_view := Some tt; _window_wrapper := sample_window enabled |}.

End PluginSample.

(* ================================================================== *)
(** * Properties *)

(** ** Engine strings *)

Section StringFacts.

Import GString.

Lemma to_lower_char_idem c :
  Sample.to_lower_char (Sample.to_lower_char c) = Sample.to_lower_char c.
Proof. destruct c as [[] [] [] [] [] [] [] []]; reflexivity. Qed.

(** The folding of the sample leaves a folded text as it is. *)
Lemma to_lower_idem s :
  Sample.ascii_to_lower (Sample.ascii_to_lower s) = Sample.ascii_to_lower s.
Proof.
  induction s as [|c r IH]; simpl; [reflexivity|].
  now rewrite to_lower_char_idem, IH.
Qed.

Lemma to_lower_char_space c :
  Ascii.eqb (Sample.to_lower_char c) " " = Ascii.eqb c " ".
Proof. destruct c as [[] [] [] [] [] [] [] []]; reflexivity. Qed.

(** The folding of the sample neither makes nor removes a space. *)
Lemma to_lower_contains_space s :
  contains_char " " (Sample.ascii_to_lower s) = contains_char " " s.
Proof.
  induction s as [|c r IH]; simpl; [reflexivity|].
  now rewrite to_lower_char_space, IH.
Qed.

Lemma split_not_nil sep s : split sep s <> [].
Proof.
  destruct s as [|c r]; simpl; [discriminate|].
  destruct (Ascii.eqb c sep); [discriminate|].
  destruct (split sep r); discriminate.
Qed.

Lemma join_cons sep x l :
  l <> [] -> join sep (x :: l) = (x ++ String sep (join sep l))%string.
Proof. destruct l; [congruence | reflexivity]. Qed.

Lemma join_split sep s : join sep (split sep s) = s.
Proof.
  induction s as [|c r IH]; simpl; [reflexivity|].
  destruct (Ascii.eqb_spec c sep) as [->|Hne].
  - rewrite join_cons by apply split_not_nil. simpl. now rewrite IH.
  - pose proof (split_not_nil sep r) as Hnil.
    destruct (split sep r) as [|h t] eqn:E; [congruence|].
    destruct t as [|h' t'].
    + simpl in *. now rewrite IH.
    + change (join sep (String c h :: h' :: t'))
        with (String c (h ++ String sep (join sep (h' :: t')))%string).
      change (join sep (h :: h' :: t'))
        with (h ++ String sep (join sep (h' :: t')))%string in IH.
      now rewrite IH.
Qed.

Lemma split_no_sep sep s :
  Forall (fun piece => contains_char sep piece = false) (split sep s).
Proof.
  induction s as [|c r IH]; simpl.
  - constructor; [reflexivity | constructor].
  - destruct (Ascii.eqb_spec c sep) as [->|Hne].
    + constructor; [reflexivity | exact IH].
    + pose proof (split_not_nil sep r) as Hnil.
      destruct (split sep r) as [|h t]; [congruence|].
      inversion IH as [|? ? Hh Ht]; subst.
      constructor; [|exact Ht]. simpl.
      destruct (Ascii.eqb_spec c sep); [contradiction | exact Hh].
Qed.

Lemma is_empty_true s : is_empty s = true <-> s = "".
Proof. destruct s; simpl; split; congruence. Qed.

End StringFacts.

(* ================================================================== *)
(** ** The favorites list *)

Section SettingsFacts.

Import Settings.

Lemma has_In l x : has l x = true <-> In x l.
Proof.
  unfold has. rewrite existsb_exists. split.
  - intros (y & Hy & E). apply String.eqb_eq in E. now subst.
  - intros H. exists x. split; [exact H | apply String.eqb_refl].
Qed.

Lemma has_not_In l x : has l x = false <-> ~ In x l.
Proof.
  rewrite <- has_In. destruct (has l x); split; congruence.
Qed.

Lemma find_In l x : In x l -> exists i, find l x = Some i.
Proof.
  induction l as [|y r IH]; simpl; [tauto|]. intros H.
  destruct (String.eqb_spec y x) as [->|Hne]; [now exists 0|].
  destruct H as [H|H]; [contradiction|].
  destruct (IH H) as (i & ->). now exists (S i).
Qed.

Lemma find_push_back l x :
  ~ In x l -> find (push_back l x) x = Some (List.length l).
Proof.
  unfold push_back. induction l as [|y r IH]; simpl; intros H.
  - now rewrite String.eqb_refl.
  - destruct (String.eqb_spec y x) as [->|Hne]; [tauto|].
    rewrite IH by tauto. reflexivity.
Qed.

Lemma remove_at_push_back l x : remove_at (List.length l) (push_back l x) = l.
Proof.
  unfold push_back. induction l as [|y r IH]; simpl; [reflexivity|].
  now rewrite IH.
Qed.

(** Removing at the index [find] gives leaves every other entry in place. *)
Lemma remove_at_find_In l x i y :
  find l x = Some i -> In y (remove_at i l) -> In y l.
Proof.
  revert i. induction l as [|z r IH]; simpl; intros i Hf Hy; [discriminate|].
  destruct (String.eqb_spec z x) as [->|Hne].
  - injection Hf as <-. now right.
  - destruct (find r x) as [i'|] eqn:E; [|discriminate].
    injection Hf as <-. simpl in Hy. destruct Hy as [Hy|Hy]; [now left|].
    right. now apply (IH i').
Qed.

Lemma remove_at_find_other l x i y :
  find l x = Some i -> y <> x -> In y l -> In y (remove_at i l).
Proof.
  revert i. induction l as [|z r IH]; simpl; intros i Hf Hne Hy; [tauto|].
  destruct (String.eqb_spec z x) as [->|Hzx].
  - injection Hf as <-. destruct Hy as [Hy|Hy]; [congruence | exact Hy].
  - destruct (find r x) as [i'|] eqn:E; [|discriminate].
    injection Hf as <-. simpl. destruct Hy as [Hy|Hy]; [now left|].
    right. now apply IH.
Qed.

Lemma remove_at_find_NoDup l x i :
  find l x = Some i -> NoDup l -> NoDup (remove_at i l) /\ ~ In x (remove_at i l).
Proof.
  revert i. induction l as [|z r IH]; simpl; intros i Hf Hnd; [discriminate|].
  inversion Hnd as [|? ? Hz Hr]; subst.
  destruct (String.eqb_spec z x) as [->|Hzx].
  - injection Hf as <-. now split.
  - destruct (find r x) as [i'|] eqn:E; [|discriminate].
    injection Hf as <-. destruct (IH i' eq_refl Hr) as [IH1 IH2].
    simpl. split.
    + constructor; [|exact IH1]. intros Hin. apply Hz.
      now apply (remove_at_find_In r x i').
    + intros [H|H]; [congruence | tauto].
Qed.

Lemma remove_at_find_Permutation l x i :
  find l x = Some i -> Permutation l (x :: remove_at i l).
Proof.
  revert i. induction l as [|z r IH]; simpl; intros i Hf; [discriminate|].
  destruct (String.eqb_spec z x) as [->|Hzx].
  - injection Hf as <-. apply Permutation_refl.
  - destruct (find r x) as [i'|] eqn:E; [|discriminate].
    injection Hf as <-. simpl.
    eapply Permutation_trans; [apply perm_skip, (IH i' eq_refl)|].
    apply perm_swap.
Qed.

(** The list read back after [add_action_favorite]. *)
Lemma get_add p ps :
  get_action_favorites (add_action_favorite p ps)
  = if has (get_action_favorites ps) p then get_action_favorites ps
    else push_back (get_action_favorites ps) p.
Proof.
  unfold add_action_favorite, get_action_favorites, has_setting.
  destruct ps as [[l|] jr]; simpl.
  - destruct (has l p); reflexivity.
  - reflexivity.
Qed.

(** The list read back after [remove_action_favorite]. *)
Lemma get_remove p ps :
  get_action_favorites (remove_action_favorite p ps)
  = match find (get_action_favorites ps) p with
    | Some i => remove_at i (get_action_favorites ps)
    | None => get_action_favorites ps
    end.
Proof.
  unfold remove_action_favorite, get_action_favorites, has_setting.
  destruct ps as [[l|] jr]; simpl; [|reflexivity].
  destruct (has l p) eqn:Hh.
  - apply has_In, find_In in Hh. destruct Hh as (i & ->). reflexivity.
  - destruct (find l p) as [i|] eqn:Hf; [|reflexivity].
    apply has_not_In in Hh. exfalso. apply Hh.
    clear Hh. revert i Hf. induction l as [|z r IH]; simpl; [discriminate|].
    intros i. destruct (String.eqb_spec z p) as [->|Hne]; [now left|].
    destruct (find r p) as [i'|]; [|discriminate]. intros _. right. now apply (IH i').
Qed.

Lemma add_present_unchanged p ps :
  In p (get_action_favorites ps) -> add_action_favorite p ps = ps.
Proof.
  unfold add_action_favorite, get_action_favorites, has_setting.
  destruct ps as [[l|] jr]; simpl; [|tauto].
  intros H. apply has_In in H. now rewrite H.
Qed.

Lemma remove_absent_unchanged p ps :
  ~ In p (get_action_favorites ps) -> remove_action_favorite p ps = ps.
Proof.
  unfold remove_action_favorite, get_action_favorites, has_setting.
  destruct ps as [[l|] jr]; simpl; [|reflexivity].
  intros H. apply has_not_In in H. now rewrite H.
Qed.

Lemma add_NoDup p ps :
  NoDup (get_action_favorites ps) ->
  NoDup (get_action_favorites (add_action_favorite p ps)).
Proof.
  intros H. rewrite get_add. destruct (has _ p) eqn:Hh; [exact H|].
  apply has_not_In in Hh. unfold push_back.
  apply NoDup_app; [exact H | repeat constructor; simpl; tauto |].
  intros a Ha [<-|[]]. contradiction.
Qed.

Lemma remove_NoDup p ps :
  NoDup (get_action_favorites ps) ->
  NoDup (get_action_favorites (remove_action_favorite p ps)).
Proof.
  intros H. rewrite get_remove.
  destruct (find _ p) as [i|] eqn:Hf; [|exact H].
  now apply (remove_at_find_NoDup _ p i).
Qed.

Lemma run_ops_NoDup ops ps :
  NoDup (get_action_favorites ps) ->
  NoDup (get_action_favorites (run_ops ops ps)).
Proof.
  unfold run_ops. revert ps. induction ops as [|op ops IH]; simpl; intros ps H.
  - exact H.
  - apply IH. destruct op; [now apply add_NoDup | now apply remove_NoDup].
Qed.

Lemma remove_after_add p ps :
  ~ In p (get_action_favorites ps) ->
  get_action_favorites (remove_action_favorite p (add_action_favorite p ps))
  = get_action_favorites ps.
Proof.
  intros H. rewrite get_remove, get_add.
  apply has_not_In in H as Hh. rewrite Hh.
  rewrite find_push_back by exact H. apply remove_at_push_back.
Qed.

Lemma add_after_remove_In p ps x :
  In p (get_action_favorites ps) ->
  In x (get_action_favorites (add_action_favorite p (remove_action_favorite p ps)))
  <-> In x (get_action_favorites ps).
Proof.
  intros H. rewrite get_add, get_remove.
  destruct (find_In _ _ H) as (i & Hf). rewrite Hf.
  destruct (has (remove_at i _) p) eqn:Hh.
  - split; [now apply (remove_at_find_In _ p i)|].
    intros Hx. destruct (String.eqb_spec x p) as [->|Hne].
    + now apply has_In.
    + now apply (remove_at_find_other _ p i).
  - unfold push_back. rewrite in_app_iff. simpl. split.
    + intros [Hx|[<-|[]]]; [now apply (remove_at_find_In _ p i) | exact H].
    + intros Hx. destruct (String.eqb_spec x p) as [->|Hne]; [tauto|].
      left. now apply (remove_at_find_other _ p i).
Qed.

Lemma add_after_remove_Permutation p ps :
  In p (get_action_favorites ps) -> NoDup (get_action_favorites ps) ->
  Permutation (get_action_favorites ps)
    (get_action_favorites (add_action_favorite p (remove_action_favorite p ps))).
Proof.
  intros H Hnd. rewrite get_add, get_remove.
  destruct (find_In _ _ H) as (i & Hf). rewrite Hf.
  destruct (remove_at_find_NoDup _ p i Hf Hnd) as [_ Hnot].
  apply has_not_In in Hnot. rewrite Hnot. unfold push_back.
  eapply Permutation_trans; [apply (remove_at_find_Permutation _ p i Hf)|].
  apply Permutation_cons_append.
Qed.

Lemma toggle_favorite_eq get_icon item ps :
  ActionMenu.toggle_favorite get_icon item ps
  = if has (get_action_favorites ps) (ActionMenu.category (ActionMenu.get_spec item))
    then remove_action_favorite (ActionMenu.category (ActionMenu.get_spec item)) ps
    else add_action_favorite (ActionMenu.category (ActionMenu.get_spec item)) ps.
Proof.
  unfold ActionMenu.toggle_favorite, ActionMenu._on_tree_button_clicked,
    ActionMenu.leaf_cell, ActionMenu.make_item_cell.
  destruct (ActionMenu.get_handler item);
    destruct (has (get_action_favorites ps) _); reflexivity.
Qed.

(** C4. Toggling a favorite twice brings the stored favorites back to the
    entries they had.  For a path [p] that was not a favorite, adding then
    removing gives back the stored list itself.  For a path that was a
    favorite, removing then adding gives a list with the same entries (and,
    the list being duplicate free, each of them once: [p] has moved to the
    end).  Two clicks on the favorite button of an action's leaf, the menu
    being generated again in between, do the one or the other. *)
Theorem favorite_toggled_twice_restores_contents :
  forall (p : string) (ps : ProjectSettings),
    (~ In p (get_action_favorites ps) ->
     get_action_favorites (remove_action_favorite p (add_action_favorite p ps))
     = get_action_favorites ps)
    /\ (In p (get_action_favorites ps) ->
        forall x,
          In x (get_action_favorites
                  (add_action_favorite p (remove_action_favorite p ps)))
          <-> In x (get_action_favorites ps))
    /\ (In p (get_action_favorites ps) -> NoDup (get_action_favorites ps) ->
        Permutation (get_action_favorites ps)
          (get_action_favorites
             (add_action_favorite p (remove_action_favorite p ps))))
    /\ (forall get_icon item,
          ActionMenu.category (ActionMenu.get_spec item) = p ->
          NoDup (get_action_favorites ps) ->
          Permutation (get_action_favorites ps)
            (get_action_favorites
               (ActionMenu.toggle_favorite get_icon item
                  (ActionMenu.toggle_favorite get_icon item ps)))).
Proof.
  intros p ps. split; [apply remove_after_add|].
  split; [intros H x; now apply add_after_remove_In|].
  split; [apply add_after_remove_Permutation|].
  intros gi item <- Hnd.
  set (p := ActionMenu.category (ActionMenu.get_spec item)).
  rewrite !toggle_favorite_eq. fold p.
  destruct (has (get_action_favorites ps) p) eqn:Hh.
  - apply has_In in Hh as Hin.
    assert (Hgone : has (get_action_favorites (remove_action_favorite p ps)) p = false).
    { apply has_not_In. rewrite get_remove.
      destruct (find_In _ _ Hin) as (i & Hf). rewrite Hf.
      now apply (remove_at_find_NoDup _ p i). }
    rewrite Hgone. now apply add_after_remove_Permutation.
  - apply has_not_In in Hh as Hnot.
    assert (Hnow : has (get_action_favorites (add_action_favorite p ps)) p = true).
    { apply has_In. rewrite get_add, Hh. unfold push_back.
      apply in_or_app. right. now left. }
    rewrite Hnow, remove_after_add by exact Hnot. apply Permutation_refl.
Qed.

(** The round trip on a stored list of two favorites. *)
Lemma favorite_toggled_twice_witness :
  get_action_favorites
    (remove_action_favorite "Math/Add"
       (add_action_favorite "Math/Add"
          {| action_favorites := Some ["Math/Subtract"]; journal := [] |}))
  = ["Math/Subtract"]
  /\ Permutation ["Math/Add"; "Math/Subtract"]
       (get_action_favorites
          (add_action_favorite "Math/Add"
             (remove_action_favorite "Math/Add"
                {| action_favorites := Some ["Math/Add"; "Math/Subtract"];
                   journal := [] |}))).
Proof.
  split.
  - apply (proj1 (favorite_toggled_twice_restores_contents "Math/Add"
                    {| action_favorites := Some ["Math/Subtract"]; journal := [] |})).
    simpl. intros [H|[]]. discriminate H.
  - apply (proj1 (proj2 (proj2 (favorite_toggled_twice_restores_contents "Math/Add"
                    {| action_favorites := Some ["Math/Add"; "Math/Subtract"];
                       journal := [] |})))).
    + simpl. now left.
    + simpl. repeat constructor; simpl; intuition discriminate.
Defined.

(** C10. Adding a favorite that is stored already, and removing one that is
    not stored (or when the setting does not exist), leave the settings as
    they are, journal of calls included: nothing is written.  Hence no
    sequence of additions and removals puts a duplicate in a list that had
    none, and none in a project where the setting was never written. *)
Theorem favorites_unchanged_and_duplicate_free :
  forall (p : string) (ps : ProjectSettings),
    (In p (get_action_favorites ps) -> add_action_favorite p ps = ps)
    /\ (~ In p (get_action_favorites ps) -> remove_action_favorite p ps = ps)
    /\ (has_setting ps = false -> remove_action_favorite p ps = ps)
    /\ (forall ops, NoDup (get_action_favorites ps) ->
                    NoDup (get_action_favorites (run_ops ops ps)))
    /\ (forall ops, NoDup (get_action_favorites (run_ops ops fresh))).
Proof.
  intros p ps. split; [apply add_present_unchanged|].
  split; [apply remove_absent_unchanged|].
  split.
  - intros H. unfold remove_action_favorite. now rewrite H.
  - split; [intros ops; apply run_ops_NoDup|].
    intros ops. apply run_ops_NoDup. constructor.
Qed.

(** Adding a stored favorite again writes nothing. *)
Lemma favorites_unchanged_witness :
  add_action_favorite "Math/Add"
    {| action_favorites := Some ["Math/Add"]; journal := [] |}
  = {| action_favorites := Some ["Math/Add"]; journal := [] |}.
Proof.
  apply (proj1 (favorites_unchanged_and_duplicate_free "Math/Add"
                  {| action_favorites := Some ["Math/Add"]; journal := [] |})).
  simpl. now left.
Defined.

End SettingsFacts.

(* ================================================================== *)
(** ** Counting pins by opacity *)

Section GraphNodeFacts.

Import GraphNode.

Lemma count_loop_from (hit : nat -> bool) (l : list nat) (count : nat) :
  fold_left (fun count i => if hit i then S count else count) l count
  = count + List.length (filter hit l).
Proof.
  revert count. induction l as [|i l IH]; simpl; intros count; [lia|].
  rewrite IH. destruct (hit i); simpl; lia.
Qed.

Lemma count_loop_filter bound hit :
  count_loop bound hit = List.length (filter hit (seq 0 bound)).
Proof. unfold count_loop. now rewrite count_loop_from. Qed.

Lemma count_loop_ext bound hit hit' :
  (forall i, i < bound -> hit i = hit' i) ->
  count_loop bound hit = count_loop bound hit'.
Proof.
  intros H. rewrite !count_loop_filter. f_equal.
  apply filter_ext_in. intros i Hi. apply in_seq in Hi. apply H. lia.
Qed.

Lemma count_loop_le bound hit : count_loop bound hit <= bound.
Proof.
  rewrite count_loop_filter.
  etransitivity; [apply filter_length_le|]. now rewrite length_seq.
Qed.

(** C9. [get_outputs_with_opacity] looks at the slots [0 <= i < input port
    count] only: it counts, among these indices, the right-enabled ones
    whose output colour has the opacity; the number of output ports plays no
    part, and two nodes that agree below the input port count give the same
    number whatever their output ports beyond it are.
    [get_inputs_with_opacity] counts the left-enabled slots over the same
    range. *)
Theorem outputs_with_opacity_bounded_by_input_ports :
  forall (Alpha : Type) (is_equal_approx : Alpha -> Alpha -> bool)
         (g : Ports Alpha) (a : Alpha),
    get_outputs_with_opacity is_equal_approx g a
    = List.length
        (filter (fun i => is_slot_enabled_right g i
                          && is_equal_approx (get_output_port_alpha g i) a)
                (seq 0 (get_input_port_count g)))
    /\ get_inputs_with_opacity is_equal_approx g a
       = List.length
           (filter (fun i => is_slot_enabled_left g i
                             && is_equal_approx (get_input_port_alpha g i) a)
                   (seq 0 (get_input_port_count g)))
    /\ get_outputs_with_opacity is_equal_approx g a <= get_input_port_count g
    /\ (forall g' : Ports Alpha,
          get_input_port_count g' = get_input_port_count g ->
          (forall i, i < get_input_port_count g ->
                     is_slot_enabled_right g' i = is_slot_enabled_right g i
                     /\ get_output_port_alpha g' i = get_output_port_alpha g i) ->
          get_outputs_with_opacity is_equal_approx g' a
          = get_outputs_with_opacity is_equal_approx g a).
Proof.
  intros Alpha approx g a.
  split; [apply count_loop_filter|].
  split; [apply count_loop_filter|].
  split; [apply count_loop_le|].
  intros g' Hn Hagree. unfold get_outputs_with_opacity. rewrite Hn.
  apply count_loop_ext. intros i Hi.
  destruct (Hagree i Hi) as [-> ->]. reflexivity.
Qed.

(** A node with no input port and two output ports of opacity 1: none of
    the outputs is counted, and a node with no output port at all gives the
    same answer. *)
Lemma outputs_with_opacity_witness :
  get_outputs_with_opacity Nat.eqb
    {| get_input_port_count := 0; get_output_port_count := 2;
       is_slot_enabled_left := fun _ => false;
       is_slot_enabled_right := fun i => Nat.ltb i 2;
       get_input_port_alpha := fun _ => 1;
       get_output_port_alpha := fun _ => 1 |} 1
  = get_outputs_with_opacity Nat.eqb
      {| get_input_port_count := 0; get_output_port_count := 0;
         is_slot_enabled_left := fun _ => false;
         is_slot_enabled_right := fun _ => false;
         get_input_port_alpha := fun _ => 1;
         get_output_port_alpha := fun _ => 0 |} 1.
Proof.
  apply (proj2 (proj2 (proj2
           (outputs_with_opacity_bounded_by_input_ports nat Nat.eqb
              {| get_input_port_count := 0; get_output_port_count := 0;
                 is_slot_enabled_left := fun _ => false;
                 is_slot_enabled_right := fun _ => false;
                 get_input_port_alpha := fun _ => 1;
                 get_output_port_alpha := fun _ => 0 |} 1)))).
  - reflexivity.
  - simpl. intros i Hi. lia.
Defined.

End GraphNodeFacts.

(* ================================================================== *)
(** ** The keywords of the search box *)

Section KeywordFacts.

Import GString ActionMenu.

Context {lowercase : Lowercase}.

Lemma substring_all s : String.substring 0 (String.length s) s = s.
Proof. induction s as [|c r IH]; simpl; [reflexivity | now rewrite IH]. Qed.

Lemma substring_app_left a b :
  String.substring 0 (String.length a) (a ++ b)%string = a.
Proof.
  induction a as [|c r IH]; simpl.
  - now destruct b.
  - now rewrite IH.
Qed.

Lemma substring_cut s n :
  n <= String.length s ->
  (String.substring 0 n s ++ String.substring n (String.length s - n) s)%string = s.
Proof.
  revert n. induction s as [|c r IH]; intros [|n] H; simpl in *; try lia.
  - reflexivity.
  - now rewrite substring_all.
  - rewrite IH by lia. reflexivity.
Qed.

Lemma length_app_string a b :
  String.length (a ++ b)%string = String.length a + String.length b.
Proof. induction a as [|c r IH]; simpl; [reflexivity | now rewrite IH]. Qed.

Lemma substring_app_right a b :
  String.substring (String.length a) (String.length b) (a ++ b)%string = b.
Proof.
  induction a as [|c r IH]; simpl; [apply substring_all | exact IH].
Qed.

(** [begins_with _ " "] and [trim_prefix _ " "] by cases on the text. *)
Lemma begins_with_space s :
  begins_with s " " = match s with
                      | String c _ => Ascii.eqb c " "
                      | EmptyString => false
                      end.
Proof.
  destruct s as [|c r]; [reflexivity|]. simpl.
  destruct r; apply andb_true_r.
Qed.

Lemma trim_prefix_space s :
  trim_prefix s " " = match s with
                      | String c r => if Ascii.eqb c " " then r else s
                      | EmptyString => EmptyString
                      end.
Proof.
  unfold trim_prefix. rewrite begins_with_space.
  destruct s as [|c r]; [reflexivity|].
  destruct (Ascii.eqb c " "); [|reflexivity].
  simpl. rewrite Nat.sub_0_r. apply substring_all.
Qed.

(** [ends_with _ " "] says that the text is some text followed by a space. *)
Lemma ends_with_space s :
  ends_with s " " = true <-> exists s', s = (s' ++ " ")%string.
Proof.
  unfold ends_with. rewrite andb_true_iff, Nat.leb_le, String.eqb_eq. split.
  - intros [Hlen Hsub]. exists (String.substring 0 (String.length s - 1) s).
    simpl in Hlen, Hsub.
    rewrite <- (substring_cut s (String.length s - 1)) at 1 by lia.
    f_equal. replace (String.length s - (String.length s - 1)) with 1 by lia.
    exact Hsub.
  - intros (s' & ->). rewrite length_app_string. simpl. split; [lia|].
    replace (String.length s' + 1 - 1) with (String.length s') by lia.
    apply (substring_app_right s' " ").
Qed.

Lemma trim_suffix_app_space s : trim_suffix (s ++ " ")%string " " = s.
Proof.
  unfold trim_suffix.
  assert (H : ends_with (s ++ " ")%string " " = true)
    by (apply ends_with_space; now exists s).
  rewrite H, length_app_string. simpl.
  replace (String.length s + 1 - 1) with (String.length s) by lia.
  apply substring_app_left.
Qed.

Lemma trim_suffix_cases s :
  (exists s', s = (s' ++ " ")%string /\ trim_suffix s " " = s')
  \/ (ends_with s " " = false /\ trim_suffix s " " = s).
Proof.
  destruct (ends_with s " ") eqn:E.
  - left. apply ends_with_space in E. destruct E as (s' & ->).
    exists s'. split; [reflexivity | apply trim_suffix_app_space].
  - right. split; [reflexivity|]. unfold trim_suffix. now rewrite E.
Qed.

Lemma keywords_loop (f : string -> string) l acc :
  fold_left (fun kw element => kw ++ [f element]) l acc = acc ++ map f l.
Proof.
  revert acc. induction l as [|x l IH]; simpl; intros acc.
  - now rewrite app_nil_r.
  - rewrite IH, <- app_assoc. reflexivity.
Qed.

Lemma filter_keywords_eq t :
  filter_keywords t
  = if is_empty (filter_text t) then []
    else map to_lower (split " " (filter_text t)).
Proof.
  unfold filter_keywords. destruct (is_empty (filter_text t)); simpl;
    [reflexivity | apply keywords_loop].
Qed.

(** The pieces of the specification's wording. *)
Lemma strip_left_id s : begins_with s " " = false -> strip_left s = s.
Proof.
  rewrite begins_with_space. destruct s as [|c r]; simpl; [reflexivity|].
  now intros ->.
Qed.

Lemma strip_right_app_space s : strip_right (s ++ " ")%string = strip_right s.
Proof.
  induction s as [|c r IH]; simpl; [reflexivity | now rewrite IH].
Qed.

Lemma strip_right_id s : ends_with s " " = false -> strip_right s = s.
Proof.
  induction s as [|c r IH]; intros H; [reflexivity|].
  assert (Hr : ends_with r " " = false).
  { destruct (ends_with r " ") eqn:E; [|reflexivity].
    apply ends_with_space in E. destruct E as (r' & ->).
    assert (ends_with (String c (r' ++ " ")) " " = true) as E'
      by (apply ends_with_space; now exists (String c r')).
    congruence. }
  simpl. rewrite (IH Hr). destruct r as [|c' r']; [|reflexivity].
  destruct (Ascii.eqb_spec c " ") as [->|Hne]; [|reflexivity].
  discriminate H.
Qed.

Lemma strip_spaces_filter_text t :
  begins_with (filter_text t) " " = false ->
  ends_with (filter_text t) " " = false ->
  strip_spaces t = filter_text t.
Proof.
  unfold filter_text, strip_spaces. intros Hb He.
  assert (Hl : strip_left t = strip_left (trim_prefix t " ")).
  { rewrite trim_prefix_space. destruct t as [|c r]; [reflexivity|].
    simpl. destruct (Ascii.eqb c " ") eqn:E; [reflexivity|].
    simpl. now rewrite E. }
  rewrite Hl. set (u := trim_prefix t " ") in *.
  destruct (trim_suffix_cases u) as [(s' & Hu & Hs')|[Hends Hs']];
    rewrite Hs' in *.
  - rewrite Hu. destruct s' as [|c r]; [reflexivity|].
    rewrite begins_with_space in Hb. simpl. rewrite Hb.
    change (String c (r ++ " "))%string with (String c r ++ " ")%string.
    rewrite strip_right_app_space. now apply strip_right_id.
  - rewrite strip_left_id by exact Hb. now apply strip_right_id.
Qed.

Lemma filter_text_cut t :
  t = ((if begins_with t " " then " " else "")
       ++ filter_text t
       ++ (if ends_with (trim_prefix t " ") " " then " " else ""))%string.
Proof.
  unfold filter_text.
  assert (Hp : t = ((if begins_with t " " then " " else "")
                    ++ trim_prefix t " ")%string).
  { rewrite trim_prefix_space, begins_with_space. destruct t as [|c r]; [reflexivity|].
    destruct (Ascii.eqb_spec c " ") as [->|Hne]; reflexivity. }
  rewrite Hp at 1. f_equal.
  destruct (trim_suffix_cases (trim_prefix t " ")) as [(s' & Hu & Hs')|[Hends Hs']].
  - rewrite Hs'. assert (E : ends_with (trim_prefix t " ") " " = true)
      by (apply ends_with_space; now exists s').
    now rewrite E.
  - rewrite Hs', Hends. clear. induction (trim_prefix t " ") as [|c r IH];
      simpl; [reflexivity | now rewrite <- IH].
Qed.

(** C8, amended.  After a change of the search text [t] the keywords are
    the pieces between the spaces (empty pieces kept) of [t] without one
    leading space and without one trailing space, when it has them, each
    put in lower case by [String::to_lower]; there is none exactly when
    nothing is left of [t].  Every keyword is the lower case of a piece
    without a space: it is in lower case itself, a text that [to_lower]
    leaves as it is, when [to_lower] leaves a text in lower case as it is,
    and it holds no space when [to_lower] neither makes nor removes a
    space.  When what is left neither begins nor ends with a space, the
    keywords are those of the text with all the spaces around it
    trimmed. *)
Theorem filter_keywords_of_once_trimmed_text :
  forall t : string,
    t = ((if begins_with t " " then " " else "")
         ++ filter_text t
         ++ (if ends_with (trim_prefix t " ") " " then " " else ""))%string
    /\ (forall get_icon action_db_load settings m,
          keywords (_filter (_on_filter_text_changed get_icon action_db_load
                               settings m t))
          = filter_keywords t)
    /\ filter_keywords t
       = (if is_empty (filter_text t) then []
          else map to_lower (split " " (filter_text t)))
    /\ (filter_keywords t = [] <-> filter_text t = "")
    /\ Forall (fun k => exists piece,
                          k = to_lower piece /\ contains_char " " piece = false)
              (filter_keywords t)
    /\ ((forall s, to_lower (to_lower s) = to_lower s) ->
        Forall (fun k => to_lower k = k) (filter_keywords t))
    /\ ((forall s, contains_char " " (to_lower s) = contains_char " " s) ->
        Forall (fun k => contains_char " " k = false) (filter_keywords t))
    /\ (begins_with (filter_text t) " " = false ->
        ends_with (filter_text t) " " = false ->
        filter_keywords t = spec_filter_keywords t).
Proof.
  intros t. split; [apply filter_text_cut|].
  split.
  { intros gi load settings m. unfold _on_filter_text_changed. simpl.
    destruct (filter_keywords t); [reflexivity|].
    destruct (children _); reflexivity. }
  split; [apply filter_keywords_eq|].
  split.
  { rewrite filter_keywords_eq. destruct (filter_text t) as [|c r] eqn:E; simpl.
    - tauto.
    - split; [|discriminate]. intros H. apply map_eq_nil in H.
      exfalso. revert H. apply (split_not_nil " " (String c r)). }
  assert (Hpieces : Forall (fun k => exists piece,
                              k = to_lower piece
                              /\ contains_char " " piece = false)
                      (filter_keywords t)).
  { rewrite filter_keywords_eq. destruct (is_empty (filter_text t)); [constructor|].
    apply Forall_forall. intros k Hk. apply in_map_iff in Hk.
    destruct Hk as (piece & <- & Hpiece). exists piece. split; [reflexivity|].
    pose proof (split_no_sep " " (filter_text t)) as Hall.
    rewrite Forall_forall in Hall. now apply Hall. }
  split; [exact Hpieces|].
  split.
  { intros Hidem. apply (Forall_impl _ (P := fun k => exists piece,
                              k = to_lower piece
                              /\ contains_char " " piece = false));
      [|exact Hpieces].
    intros k (piece & -> & _). apply Hidem. }
  split.
  { intros Hspace. apply (Forall_impl _ (P := fun k => exists piece,
                              k = to_lower piece
                              /\ contains_char " " piece = false));
      [|exact Hpieces].
    intros k (piece & -> & Hp). now rewrite Hspace. }
  intros Hb He. rewrite filter_keywords_eq. unfold spec_filter_keywords.
  now rewrite strip_spaces_filter_text.
Qed.

End KeywordFacts.

Section KeywordSamples.

Import GString ActionMenu.

Local Existing Instance Sample.ascii_lowercase.

(** C8 does not hold as stated: of two leading spaces the handler
    removes one, and the second gives an empty keyword; a text of three
    spaces gives two empty keywords although nothing is left of it once the
    spaces around it are trimmed. *)
Lemma filter_keywords_differs_from_trimmed_tokens :
  filter_keywords "  a" = [""; "a"]
  /\ spec_filter_keywords "  a" = ["a"]
  /\ filter_keywords "  a" <> spec_filter_keywords "  a"
  /\ filter_keywords "   " = [""; ""]
  /\ spec_filter_keywords "   " = [].
Proof. repeat split; try reflexivity. discriminate. Qed.

(** The keywords of "Get  Node": the double space gives an empty one; each
    is in lower case and without a space. *)
Lemma filter_keywords_witness :
  filter_keywords " Get  Node " = ["get"; ""; "node"]
  /\ filter_keywords " Get  Node " = spec_filter_keywords " Get  Node "
  /\ Forall (fun k => to_lower k = k) (filter_keywords " Get  Node ")
  /\ Forall (fun k => contains_char " " k = false) (filter_keywords " Get  Node ").
Proof.
  destruct (filter_keywords_of_once_trimmed_text " Get  Node ")
    as (_ & _ & _ & _ & _ & Hlower & Hspace & Hspec).
  split; [reflexivity|].
  split; [apply Hspec; reflexivity|].
  split; [apply Hlower; exact to_lower_idem|].
  apply Hspace. exact to_lower_contains_space.
Defined.

End KeywordSamples.

(* ================================================================== *)
(** ** Items and paths *)

Section PathFacts.

Import GString ActionMenu TreeSpec.

Context {lowercase : Lowercase}.

Lemma item_eta t : Item (cell t) (children t) = t.
Proof. now destruct t. Qed.

Lemma get_item_app t p q :
  get_item t (p ++ q)
  = match get_item t p with Some n => get_item n q | None => None end.
Proof.
  revert t. induction p as [|j p IH]; intros t; simpl; [reflexivity|].
  destruct (nth_error (children t) j); [apply IH | reflexivity].
Qed.

Lemma nth_error_alter_nth {A} (g : A -> A) j l :
  nth_error (alter_nth g j l) j = option_map g (nth_error l j).
Proof.
  revert j. induction l as [|x l IH]; intros [|j]; simpl; try reflexivity.
  apply IH.
Qed.

Lemma alter_nth_ext {A} (g g' : A -> A) j l :
  (forall x, nth_error l j = Some x -> g x = g' x) ->
  alter_nth g j l = alter_nth g' j l.
Proof.
  revert j. induction l as [|x l IH]; intros [|j] H; simpl; try reflexivity.
  - f_equal. now apply H.
  - f_equal. apply IH. exact H.
Qed.

Lemma alter_nth_twice {A} (g g' : A -> A) j l :
  alter_nth g' j (alter_nth g j l) = alter_nth (fun x => g' (g x)) j l.
Proof.
  revert j. induction l as [|x l IH]; intros [|j]; simpl; try reflexivity.
  f_equal. apply IH.
Qed.

Lemma alter_nth_length_app {A} (g : A -> A) l x :
  alter_nth g (List.length l) (l ++ [x]) = l ++ [g x].
Proof. induction l as [|y l IH]; simpl; [reflexivity | now rewrite IH]. Qed.

Lemma get_item_alter f t p n :
  get_item t p = Some n -> get_item (alter f t p) p = Some (f n).
Proof.
  revert t. induction p as [|j p IH]; intros t; simpl.
  - now intros [= ->].
  - rewrite nth_error_alter_nth.
    destruct (nth_error (children t) j) as [k|]; [|discriminate].
    simpl. apply IH.
Qed.

Lemma alter_ext f f' t p :
  (forall n, get_item t p = Some n -> f n = f' n) ->
  alter f t p = alter f' t p.
Proof.
  revert t. induction p as [|j p IH]; intros t H; simpl.
  - now apply H.
  - f_equal. apply alter_nth_ext. intros k Hk. apply IH.
    intros n Hn. apply H. simpl. now rewrite Hk.
Qed.

Lemma alter_twice f g t p q :
  alter g (alter f t p) (p ++ q) = alter (fun n => alter g (f n) q) t p.
Proof.
  revert t. induction p as [|j p IH]; intros t; simpl; [reflexivity|].
  f_equal. rewrite alter_nth_twice. apply alter_nth_ext.
  intros k _. apply IH.
Qed.

(** Creating a child and then setting fields of it is creating the child
    with these fields set. *)
Lemma update_created_child f t parent c n :
  get_item t parent = Some n ->
  update_cell f (fst (create_child t parent c)) (snd (create_child t parent c))
  = fst (create_child t parent (f c)).
Proof.
  intros Hn. unfold update_cell, create_child, child_count_at. simpl.
  rewrite Hn, alter_twice. apply alter_ext. intros n' Hn'.
  assert (n' = n) as -> by congruence.
  simpl. unfold get_child_count. rewrite alter_nth_length_app. reflexivity.
Qed.

Lemma get_created_child t parent c n :
  get_item t parent = Some n ->
  get_item (fst (create_child t parent c)) parent
  = Some (Item (cell n) (children n ++ [Item c []]))
  /\ snd (create_child t parent c) = parent ++ [List.length (children n)]
  /\ get_item (fst (create_child t parent c)) (snd (create_child t parent c))
     = Some (Item c []).
Proof.
  intros Hn. unfold create_child, child_count_at. simpl. rewrite Hn.
  pose proof (get_item_alter
                (fun n => Item (cell n) (children n ++ [Item c []])) t parent n Hn) as H.
  split; [exact H|]. split; [reflexivity|].
  rewrite get_item_app, H. simpl. unfold get_child_count.
  rewrite nth_error_app2 by lia. now rewrite Nat.sub_diag.
Qed.

(** *** Items below an item *)

Lemma subitem_Item n c kids :
  subitem n (Item c kids) <-> n = Item c kids \/ exists k, In k kids /\ subitem n k.
Proof.
  split.
  - intros H. inversion H as [|t k Hk Hsub]; subst; [now left|].
    right. now exists k.
  - intros [->|(k & Hk & Hsub)]; [constructor|].
    now apply (subitem_child n (Item c kids) k).
Qed.

Lemma subitem_trans n k t : subitem n k -> subitem k t -> subitem n t.
Proof.
  intros Hn Hk. induction Hk as [|t k' Hin Hk IH]; [exact Hn|].
  apply (subitem_child n t k' Hin). now apply IH.
Qed.

Lemma get_item_subitem t p n : get_item t p = Some n -> subitem n t.
Proof.
  revert t. induction p as [|j p IH]; intros t; simpl.
  - intros [= ->]. constructor.
  - destruct (nth_error (children t) j) as [k|] eqn:E; [|discriminate].
    intros H. apply (subitem_child n t k); [now apply nth_error_In in E | now apply IH].
Qed.

Lemma subitem_get_item n t : subitem n t -> exists p, get_item t p = Some n.
Proof.
  intros H. induction H as [|t k Hin Hsub (p & Hp)].
  - now exists [].
  - apply In_nth_error in Hin. destruct Hin as (j & Hj).
    exists (j :: p). simpl. now rewrite Hj.
Qed.

End PathFacts.

(* ================================================================== *)
(** ** Trees that only grow *)

Section ExtendsFacts.

Import GString ActionMenu TreeSpec.

Context {lowercase : Lowercase}.

Variable R : Cell -> Cell -> Prop.

Lemma extends_inv t t' :
  extends R t t' ->
  exists kids' more,
    R (cell t) (cell t')
    /\ children t' = kids' ++ more
    /\ Forall2 (extends R) (children t) kids'.
Proof.
  intros H. inversion H as [c c' kids kids' more Hc Hk]; subst.
  now exists kids', more.
Qed.

Lemma extends_cell t t' : extends R t t' -> R (cell t) (cell t').
Proof. intros H. now destruct (extends_inv t t' H) as (? & ? & ? & _). Qed.

Lemma Forall2_refl_In {A} (Q : A -> A -> Prop) l :
  Forall (fun x => Q x x) l -> Forall2 Q l l.
Proof. induction 1; constructor; assumption. Qed.

Lemma extends_refl :
  (forall c, R c c) -> forall t, extends R t t.
Proof.
  intros Hrefl t. induction t as [c kids IH] using TreeItem_ind.
  rewrite <- (app_nil_r kids) at 2. constructor; [apply Hrefl|].
  now apply Forall2_refl_In.
Qed.

Lemma extends_trans :
  (forall a b c, R a b -> R b c -> R a c) ->
  forall t t' t'', extends R t t' -> extends R t' t'' -> extends R t t''.
Proof.
  intros Htrans t. induction t as [c kids IH] using TreeItem_ind.
  intros t' t'' H1 H2.
  inversion H1 as [c1 c1' k1 kids1 more1 Hc1 Hk1]; subst.
  inversion H2 as [c2 c2' k2 kids2 more2 Hc2 Hk2]; subst.
  apply Forall2_app_inv_l in Hk2.
  destruct Hk2 as (kids2a & kids2b & Ha & Hb & ->).
  rewrite <- app_assoc. constructor; [now apply (Htrans _ c1')|].
  clear - IH Hk1 Ha. revert kids2a Ha.
  induction Hk1 as [|k k' kids kids' Hk Hks IHks]; intros kids2a Ha.
  - inversion Ha; subst. constructor.
  - inversion Ha as [|? k'' ? kids'' Hk' Hks']; subst.
    inversion IH as [|? ? IHk IHrest]; subst.
    constructor; [now apply (IHk k') | now apply IHks].
Qed.

Lemma extends_append :
  (forall c, R c c) ->
  forall t more, extends R t (Item (cell t) (children t ++ more)).
Proof.
  intros Hrefl [c kids] more. simpl. constructor; [apply Hrefl|].
  apply Forall2_refl_In. apply Forall_forall. intros k _. now apply extends_refl.
Qed.

Lemma Forall2_alter_nth (g : TreeItem -> TreeItem) j kids :
  (forall c, R c c) ->
  (forall k, nth_error kids j = Some k -> extends R k (g k)) ->
  Forall2 (extends R) kids (alter_nth g j kids).
Proof.
  intros Hrefl. revert j. induction kids as [|k kids IH]; intros [|j] H; simpl.
  - constructor.
  - constructor.
  - constructor; [now apply H|].
    apply Forall2_refl_In. apply Forall_forall. intros k' _. now apply extends_refl.
  - constructor; [now apply extends_refl|]. apply IH. exact H.
Qed.

(** Changing one item into an extension of it extends the whole tree. *)
Lemma extends_alter f :
  (forall c, R c c) ->
  forall p t,
    (forall n, get_item t p = Some n -> extends R n (f n)) ->
    extends R t (alter f t p).
Proof.
  intros Hrefl p. induction p as [|j p IH]; intros t H; simpl.
  - now apply H.
  - rewrite <- (item_eta t) at 1.
    rewrite <- (app_nil_r (alter_nth _ j (children t))).
    constructor; [apply Hrefl|].
    apply Forall2_alter_nth; [exact Hrefl|].
    intros k Hk. apply IH. intros n Hn. apply H. simpl. now rewrite Hk.
Qed.

Lemma Forall2_nth_error {A B} (Q : A -> B -> Prop) l l' j x :
  Forall2 Q l l' -> nth_error l j = Some x ->
  exists y, nth_error l' j = Some y /\ Q x y.
Proof.
  intros H. revert j. induction H as [|a b l l' Hab Hl IH]; intros [|j]; simpl;
    try discriminate.
  - intros [= ->]. now exists b.
  - apply IH.
Qed.

(** An item of the smaller tree is found at the same path in the larger. *)
Lemma extends_get_item t t' p n :
  extends R t t' -> get_item t p = Some n ->
  exists n', get_item t' p = Some n' /\ extends R n n'.
Proof.
  revert t t'. induction p as [|j p IH]; intros t t' H; simpl.
  - intros [= ->]. now exists t'.
  - destruct (nth_error (children t) j) as [k|] eqn:E; [|discriminate].
    intros Hn. destruct (extends_inv t t' H) as (kids' & more & _ & Hch & Hk).
    destruct (Forall2_nth_error _ _ _ _ _ Hk E) as (k' & Hk' & Hext).
    rewrite Hch, nth_error_app1 by (apply nth_error_Some; congruence).
    rewrite Hk'. now apply (IH k k').
Qed.

Lemma extends_item_at t t' p (P : Cell -> Prop) :
  extends R t t' -> (forall c c', R c c' -> P c -> P c') ->
  item_at t p P -> item_at t' p P.
Proof.
  intros H HP (n & Hn & Hc).
  destruct (extends_get_item t t' p n H Hn) as (n' & Hn' & Hext).
  exists n'. split; [exact Hn'|]. apply (HP (cell n)); [|exact Hc].
  now apply extends_cell.
Qed.

Hypothesis R_text : forall c c', R c c' -> cell_text c = cell_text c'.

Lemma extends_find_child_from i kids kids' more name j :
  Forall2 (extends R) kids kids' ->
  find_child_from i kids name = Some j ->
  find_child_from i (kids' ++ more) name = Some j.
Proof.
  intros H. revert i. induction H as [|k k' kids kids' Hk Hks IH]; intros i; simpl.
  - discriminate.
  - unfold get_text. rewrite <- (R_text _ _ (extends_cell _ _ Hk)).
    destruct (String.eqb _ _); [trivial | apply IH].
Qed.

(** A walk that succeeds in the smaller tree gives the same path in the
    larger one. *)
Lemma extends_resolve t t' names p :
  extends R t t' -> resolve t names = Some p -> resolve t' names = Some p.
Proof.
  revert t t' p. induction names as [|name rest IH]; intros t t' p H; simpl.
  - trivial.
  - destruct (find_child (children t) name) as [j|] eqn:Ef; [|discriminate].
    destruct (nth_error (children t) j) as [k|] eqn:Ek; [|discriminate].
    destruct (resolve k rest) as [q|] eqn:Eq; [|discriminate].
    simpl. intros [= <-].
    destruct (extends_inv t t' H) as (kids' & more & _ & Hch & Hk).
    destruct (Forall2_nth_error _ _ _ _ _ Hk Ek) as (k' & Hk' & Hext).
    rewrite Hch. unfold find_child in *.
    rewrite (extends_find_child_from 0 _ kids' more name j Hk Ef).
    rewrite nth_error_app1 by (apply nth_error_Some; congruence).
    rewrite Hk', (IH k k' q Hext Eq). reflexivity.
Qed.

Lemma extends_path_texts t t' p n :
  extends R t t' -> get_item t p = Some n -> path_texts t' p = path_texts t p.
Proof.
  revert t t'. induction p as [|j p IH]; intros t t' H; simpl; [reflexivity|].
  destruct (nth_error (children t) j) as [k|] eqn:Ek; [|discriminate].
  intros Hn. destruct (extends_inv t t' H) as (kids' & more & _ & Hch & Hk).
  destruct (Forall2_nth_error _ _ _ _ _ Hk Ek) as (k' & Hk' & Hext).
  rewrite Hch, nth_error_app1 by (apply nth_error_Some; congruence).
  rewrite Hk'. unfold get_text.
  rewrite <- (R_text _ _ (extends_cell _ _ Hext)). f_equal. now apply (IH k k').
Qed.

End ExtendsFacts.

(* ================================================================== *)
(** ** The walk along the categories *)

Section WalkFacts.

Import GString ActionMenu TreeSpec.

Context {lowercase : Lowercase}.

Variable get_icon : string -> Texture.

Lemma find_child_from_nth i kids name j :
  find_child_from i kids name = Some j ->
  exists k, i <= j /\ nth_error kids (j - i) = Some k
            /\ to_lower (get_text k) = to_lower name.
Proof.
  revert i. induction kids as [|k kids IH]; intros i; simpl; [discriminate|].
  destruct (String.eqb_spec (to_lower (get_text k)) (to_lower name)) as [E|E].
  - intros [= <-]. exists k. rewrite Nat.sub_diag. now repeat split.
  - intros H. destruct (IH (S i) H) as (k' & Hle & Hnth & Ht).
    exists k'. split; [lia|]. split; [|exact Ht].
    replace (j - i) with (S (j - S i)) by lia. exact Hnth.
Qed.

Lemma find_child_nth kids name j :
  find_child kids name = Some j ->
  exists k, nth_error kids j = Some k /\ to_lower (get_text k) = to_lower name.
Proof.
  intros H. destruct (find_child_from_nth 0 kids name j H) as (k & _ & Hk & Ht).
  rewrite Nat.sub_0_r in Hk. now exists k.
Qed.

Lemma find_child_from_None i kids name :
  find_child_from i kids name = None ->
  forall k, In k kids -> to_lower (get_text k) <> to_lower name.
Proof.
  revert i. induction kids as [|k kids IH]; intros i; simpl; [intros _ k []|].
  destruct (String.eqb_spec (to_lower (get_text k)) (to_lower name)) as [E|E];
    [discriminate|].
  intros H k' [<-|Hk']; [exact E | now apply (IH (S i))].
Qed.

Lemma find_child_from_new i kids name new :
  find_child_from i kids name = None ->
  to_lower (get_text new) = to_lower name ->
  find_child_from i (kids ++ [new]) name = Some (i + List.length kids).
Proof.
  revert i. induction kids as [|k kids IH]; intros i; simpl.
  - intros _ ->. rewrite String.eqb_refl. f_equal. lia.
  - destruct (String.eqb (to_lower (get_text k)) (to_lower name)); [discriminate|].
    intros H E. rewrite (IH (S i) H E). f_equal. lia.
Qed.

Lemma find_child_from_lower i kids name name' :
  to_lower name = to_lower name' ->
  find_child_from i kids name = find_child_from i kids name'.
Proof.
  intros E. revert i. induction kids as [|k kids IH]; intros i; simpl; [reflexivity|].
  now rewrite E, IH.
Qed.

(** The walk looks at the names in lower case only. *)
Lemma resolve_lower t names names' :
  map to_lower names = map to_lower names' -> resolve t names = resolve t names'.
Proof.
  revert t names'. induction names as [|name rest IH]; intros t [|name' rest'];
    simpl; try discriminate; [reflexivity|].
  intros [= E Erest]. unfold find_child.
  rewrite (find_child_from_lower 0 _ name name' E).
  destruct (find_child_from 0 (children t) name') as [j|]; [|reflexivity].
  destruct (nth_error (children t) j) as [k|]; [|reflexivity].
  now rewrite (IH k rest' Erest).
Qed.

(** Where a walk arrives: an item, as deep as there are names, below items
    whose texts are the names, letter case apart. *)
Lemma resolve_texts t names p :
  resolve t names = Some p ->
  List.length p = List.length names
  /\ map to_lower (path_texts t p) = map to_lower names
  /\ exists n, get_item t p = Some n.
Proof.
  revert t p. induction names as [|name rest IH]; intros t p; simpl.
  - intros [= <-]. simpl. repeat split. now exists t.
  - destruct (find_child (children t) name) as [j|] eqn:Ef; [|discriminate].
    destruct (nth_error (children t) j) as [k|] eqn:Ek; [|discriminate].
    destruct (resolve k rest) as [q|] eqn:Eq; [|discriminate].
    simpl. intros [= <-]. destruct (IH k q Eq) as (Hlen & Htexts & n & Hn).
    destruct (find_child_nth _ _ _ Ef) as (k' & Hk' & Ht).
    assert (k' = k) as -> by congruence.
    simpl. rewrite Ek. simpl. rewrite Hlen, Htexts, Ht. repeat split.
    now exists n.
Qed.

(** A walk over a prefix of the names arrives on the way of the walk over
    all of them. *)
Lemma resolve_app t names rest p :
  resolve t (names ++ rest) = Some p ->
  exists q r n,
    resolve t names = Some q /\ p = q ++ r
    /\ get_item t q = Some n /\ resolve n rest = Some r.
Proof.
  revert t p. induction names as [|name names IH]; intros t p; simpl.
  - intros H. exists [], p, t. now repeat split.
  - destruct (find_child (children t) name) as [j|] eqn:Ef; [|discriminate].
    destruct (nth_error (children t) j) as [k|] eqn:Ek; [|discriminate].
    destruct (resolve k (names ++ rest)) as [p'|] eqn:Ep; [|discriminate].
    simpl. intros [= <-].
    destruct (IH k p' Ep) as (q & r & n & Hq & -> & Hn & Hr).
    exists (j :: q), r, n. rewrite Hq. simpl. rewrite Ek. now repeat split.
Qed.

Lemma eq_cell_trans : forall a b c : Cell, a = b -> b = c -> a = c.
Proof. intros; congruence. Qed.

Lemma extends_create_child t parent c :
  extends eq t (fst (create_child t parent c)).
Proof.
  unfold create_child. simpl. apply extends_alter; [reflexivity|].
  intros n _. now apply extends_append.
Qed.

Lemma create_categories_walked names :
  forall t parent n,
    get_item t parent = Some n ->
    match names with
    | [] => True
    | name :: _ => find_child (children n) name = None
    end ->
    walked t parent names (create_categories get_icon t parent names).
Proof.
  induction names as [|name rest IH]; intros t parent n Hn Hnone.
  - exists [], n. simpl. rewrite app_nil_r.
    repeat split; [now apply extends_refl | exact Hn].
  - cbn [create_categories].
    destruct (create_child t parent (category_cell get_icon name)) as [t1 parent1] eqn:Ec.
    destruct (get_created_child t parent (category_cell get_icon name) n Hn)
      as (Hparent & Hpath & Hnew).
    rewrite Ec in Hparent, Hpath, Hnew. simpl in Hparent, Hpath, Hnew.
    subst parent1.
    destruct (IH t1 _ _ Hnew) as (rel & n1 & Hsnd & Hext & Hn1 & Hres).
    { destruct rest; [exact I | reflexivity]. }
    pose proof (extends_create_child t parent (category_cell get_icon name)) as Hext1.
    rewrite Ec in Hext1. simpl in Hext1.
    destruct (extends_get_item eq t1 _ parent _ Hext Hparent) as (n' & Hn' & Hextn).
    exists (List.length (children n) :: rel), n'.
    split; [rewrite Hsnd, <- app_assoc; reflexivity|].
    split; [now apply (extends_trans eq eq_cell_trans t t1)|].
    split; [exact Hn'|].
    destruct (extends_inv eq _ _ Hextn) as (kids' & more & _ & Hch & Hk).
    simpl in Hk. simpl. rewrite Hch. unfold find_child.
    rewrite (extends_find_child_from eq (fun c c' E => f_equal cell_text E)
               0 _ kids' more name (List.length (children n)) Hk).
    2:{ apply (find_child_from_new 0); [exact Hnone | reflexivity]. }
    assert (Hk1 : get_item n' [List.length (children n)] = Some n1).
    { rewrite get_item_app, Hn' in Hn1. exact Hn1. }
    simpl in Hk1. rewrite Hch in Hk1.
    destruct (nth_error (kids' ++ more) (List.length (children n))) as [k|];
      [|discriminate].
    injection Hk1 as ->. now rewrite Hres.
Qed.

Lemma walk_categories_walked names :
  forall t parent n,
    get_item t parent = Some n ->
    walked t parent names (walk_categories get_icon t parent names).
Proof.
  induction names as [|name rest IH]; intros t parent n Hn.
  - exists [], n. simpl. rewrite app_nil_r.
    repeat split; [now apply extends_refl | exact Hn].
  - cbn [walk_categories]. unfold children_at. rewrite Hn.
    destruct (find_child (children n) name) as [j|] eqn:Ef.
    + destruct (find_child_nth _ _ _ Ef) as (k & Hk & _).
      assert (Hj : get_item t (parent ++ [j]) = Some k).
      { rewrite get_item_app, Hn. simpl. now rewrite Hk. }
      destruct (IH t (parent ++ [j]) k Hj) as (rel & k' & Hsnd & Hext & Hk' & Hres).
      destruct (extends_get_item eq t _ parent n Hext Hn) as (n' & Hn' & Hextn).
      exists (j :: rel), n'.
      split; [rewrite Hsnd, <- app_assoc; reflexivity|].
      split; [exact Hext|]. split; [exact Hn'|].
      destruct (extends_inv eq _ _ Hextn) as (kids' & more & _ & Hch & Hkids).
      simpl. rewrite Hch. unfold find_child in *.
      rewrite (extends_find_child_from eq (fun c c' E => f_equal cell_text E)
                 0 _ kids' more name j Hkids Ef).
      rewrite get_item_app, Hn' in Hk'. simpl in Hk'. rewrite Hch in Hk'.
      destruct (nth_error (kids' ++ more) j) as [k''|]; [|discriminate].
      injection Hk' as ->. now rewrite Hres.
    + apply (create_categories_walked (name :: rest) t parent n Hn Ef).
Qed.

(** *** The text of a favorite *)

Lemma path_texts_snoc t p j n :
  get_item t (p ++ [j]) = Some n ->
  path_texts t (p ++ [j]) = path_texts t p ++ [get_text n].
Proof.
  revert t. induction p as [|i p IH]; intros t; simpl.
  - destruct (nth_error (children t) j) as [k|]; [|discriminate].
    now intros [= ->].
  - destruct (nth_error (children t) i) as [k|]; [|discriminate].
    intros H. simpl. now rewrite (IH k H).
Qed.

Lemma favorite_text_loop_join t up favorite_text :
  (exists n, get_item t (rev up) = Some n) ->
  favorite_text_loop t up favorite_text
  = fold_right (fun name favorite_text =>
                  if negb (is_empty favorite_text)
                  then (name ++ "/" ++ favorite_text)%string
                  else name)
               favorite_text (path_texts t (rev up)).
Proof.
  revert favorite_text. induction up as [|j up IH]; intros favorite_text (n & Hn).
  - reflexivity.
  - cbn [favorite_text_loop]. simpl rev in *.
    rewrite (path_texts_snoc t (rev up) j n Hn), fold_right_app. simpl.
    unfold text_at. rewrite Hn. apply IH.
    rewrite get_item_app in Hn. destruct (get_item t (rev up)) as [m|]; [|discriminate].
    now exists m.
Qed.

Lemma create_favorite_item_text_join t p_parent item n :
  get_item t p_parent = Some n ->
  _create_favorite_item_text t p_parent item
  = ("<" ++ favorite_join (path_texts t p_parent) ++ "> "
         ++ text (get_spec item))%string.
Proof.
  intros Hn. unfold _create_favorite_item_text, favorite_join.
  rewrite favorite_text_loop_join, rev_involutive; [reflexivity|].
  rewrite rev_involutive. now exists n.
Qed.

End WalkFacts.

(* ================================================================== *)
(** ** One round of the main loop *)

Section AddActionFacts.

Import GString ActionMenu TreeSpec.

Context {lowercase : Lowercase}.

Variable get_icon : string -> Texture.

Lemma same_but_selected_refl c : same_but_selected c c.
Proof. reflexivity. Qed.

Lemma same_but_selected_trans a b c :
  same_but_selected a b -> same_but_selected b c -> same_but_selected a c.
Proof. unfold same_but_selected. congruence. Qed.

Lemma same_but_selected_text c c' :
  same_but_selected c c' -> cell_text c = cell_text c'.
Proof. intros H. apply (f_equal cell_text) in H. exact H. Qed.

Lemma same_but_selected_item c c' :
  same_but_selected c c' -> meta_item c = meta_item c'.
Proof. intros H. apply (f_equal meta_item) in H. exact H. Qed.

Lemma same_but_selected_handler c c' :
  same_but_selected c c' -> meta_handler c = meta_handler c'.
Proof. intros H. apply (f_equal meta_handler) in H. exact H. Qed.

Lemma same_but_selected_icon c c' :
  same_but_selected c c' -> cell_icon c = cell_icon c'.
Proof. intros H. apply (f_equal cell_icon) in H. exact H. Qed.

Lemma same_but_selected_set b c : same_but_selected c (set_cell_selected b c).
Proof. reflexivity. Qed.

Lemma extends_mono (R R' : Cell -> Cell -> Prop) :
  (forall c c', R c c' -> R' c c') ->
  forall t t', extends R t t' -> extends R' t t'.
Proof.
  intros Hincl t. induction t as [c kids IH] using TreeItem_ind. intros t' H.
  inversion H as [c1 c1' k1 kids' more Hc Hk]; subst.
  constructor; [now apply Hincl|].
  clear - IH Hk. induction Hk as [|k k' kids kids' Hk Hks IHks]; constructor.
  - inversion IH; subst. auto.
  - apply IHks. now inversion IH.
Qed.

Lemma extends_eq_same_but_selected t t' :
  extends eq t t' -> extends same_but_selected t t'.
Proof. apply extends_mono. intros c c' ->. reflexivity. Qed.

Lemma extends_map_cells (R : Cell -> Cell -> Prop) f :
  (forall c, R c (f c)) -> forall t, extends R t (map_cells f t).
Proof.
  intros Hf t. induction t as [c kids IH] using TreeItem_ind. simpl.
  rewrite <- (app_nil_r (map _ kids)). constructor; [apply Hf|].
  induction IH; simpl; constructor; assumption.
Qed.

Lemma get_item_map_cells f t p :
  get_item (map_cells f t) p = option_map (map_cells f) (get_item t p).
Proof.
  revert t. induction p as [|j p IH]; intros [c kids]; simpl; [reflexivity|].
  rewrite nth_error_map. destruct (nth_error kids j) as [k|]; simpl;
    [apply IH | reflexivity].
Qed.

Lemma extends_update_cell (R : Cell -> Cell -> Prop) f t p :
  (forall c, R c c) -> (forall c, R c (f c)) ->
  extends R t (update_cell f t p).
Proof.
  intros Hrefl Hf. unfold update_cell. apply extends_alter; [exact Hrefl|].
  intros [c kids] _. simpl. rewrite <- (app_nil_r kids) at 2.
  constructor; [apply Hf|].
  apply Forall2_refl_In, Forall_forall. intros k _. now apply extends_refl.
Qed.

(** The leaf made and decorated by the main loop. *)
Lemma make_leaf_spec t parent item is_favorite m :
  get_item t parent = Some m ->
  let made := _make_item get_icon t parent item (text (get_spec item)) in
  let t' := update_cell (decorate_leaf get_icon is_favorite) (fst made) (snd made) in
  snd made = parent ++ [List.length (children m)]
  /\ extends eq t t'
  /\ get_item t' (snd made)
     = Some (Item (decorate_leaf get_icon is_favorite
                     (make_item_cell get_icon item (text (get_spec item)))) []).
Proof.
  intros Hm made t'. subst t' made. unfold _make_item.
  rewrite (update_created_child _ t parent _ m Hm).
  destruct (get_created_child t parent
              (make_item_cell get_icon item (text (get_spec item))) m Hm)
    as (_ & Hpath & _).
  destruct (get_created_child t parent
              (decorate_leaf get_icon is_favorite
                 (make_item_cell get_icon item (text (get_spec item)))) m Hm)
    as (_ & Hpath' & Hnew).
  split; [exact Hpath|]. split; [apply extends_create_child|].
  rewrite Hpath. rewrite Hpath' in Hnew. exact Hnew.
Qed.

(** The selection of an item. *)
Lemma set_selected_spec t p n :
  get_item t p = Some n ->
  extends same_but_selected t (set_selected t p)
  /\ item_at (set_selected t p) p
       (fun c => c = set_cell_selected true (cell n)).
Proof.
  intros Hn. unfold set_selected. split.
  - apply (extends_trans same_but_selected same_but_selected_trans _
             (map_cells (set_cell_selected false) t)).
    + apply extends_map_cells. intros c. apply same_but_selected_set.
    + apply extends_update_cell; [apply same_but_selected_refl|].
      intros c. apply same_but_selected_set.
  - unfold update_cell, item_at.
    assert (H : get_item (map_cells (set_cell_selected false) t) p
                = Some (map_cells (set_cell_selected false) n))
      by (rewrite get_item_map_cells, Hn; reflexivity).
    eexists. split; [apply (get_item_alter _ _ _ _ H)|].
    destruct n as [c kids]. reflexivity.
Qed.

(** The leaf made below "Favorites". *)
Lemma make_favorite_spec t f parent item fn m :
  get_item t f = Some fn -> get_item t parent = Some m ->
  let t' := fst (_make_item get_icon t f item
                   (_create_favorite_item_text t parent item)) in
  extends eq t t'
  /\ item_at t' (f ++ [List.length (children fn)])
       (favorite_leaf_of item (path_texts t' parent)).
Proof.
  intros Hf Hm t'. subst t'. unfold _make_item.
  pose proof (extends_create_child t f
                (make_item_cell get_icon item
                   (_create_favorite_item_text t parent item))) as Hext.
  split; [exact Hext|].
  destruct (get_created_child t f
              (make_item_cell get_icon item
                 (_create_favorite_item_text t parent item)) fn Hf)
    as (_ & Hpath & Hnew).
  rewrite Hpath in Hnew. eexists. split; [exact Hnew|].
  rewrite (extends_path_texts eq (fun c c' E => f_equal cell_text E)
             _ _ parent m Hext Hm).
  rewrite (create_favorite_item_text_join t parent item m Hm).
  unfold favorite_leaf_of, make_item_cell. simpl.
  destruct (get_handler item); simpl; repeat split.
Qed.

Lemma leaf_of_decorated item is_favorite :
  leaf_of item (decorate_leaf get_icon is_favorite
                  (make_item_cell get_icon item (text (get_spec item)))).
Proof.
  unfold leaf_of, decorate_leaf, make_item_cell.
  destruct (get_handler item); simpl; repeat split.
Qed.

End AddActionFacts.

Section MainLoopFacts.

Import GString ActionMenu TreeSpec.

Context {lowercase : Lowercase}.

Variable get_icon : string -> Texture.
Variable action_favorites : list string.
Variable _selection : string.

Lemma extends_same_trans t t' t'' :
  extends same_but_selected t t' -> extends same_but_selected t' t'' ->
  extends same_but_selected t t''.
Proof. apply extends_trans. exact same_but_selected_trans. Qed.

Lemma extends_eq_trans t t' t'' :
  extends eq t t' -> extends eq t' t'' -> extends eq t t''.
Proof. apply extends_trans. exact eq_cell_trans. Qed.

Lemma leaf_of_same c c' item :
  same_but_selected c c' -> leaf_of item c -> leaf_of item c'.
Proof.
  intros H (Ht & Hi & Hh). unfold leaf_of.
  rewrite <- (same_but_selected_text _ _ H), <- (same_but_selected_item _ _ H),
    <- (same_but_selected_handler _ _ H). now repeat split.
Qed.

Lemma favorite_leaf_of_same c c' item names :
  same_but_selected c c' -> favorite_leaf_of item names c ->
  favorite_leaf_of item names c'.
Proof.
  intros H (Ht & Hi & Hh). unfold favorite_leaf_of.
  rewrite <- (same_but_selected_text _ _ H), <- (same_but_selected_item _ _ H),
    <- (same_but_selected_handler _ _ H). now repeat split.
Qed.

(** The part of a round up to the selection: the categories, the leaf,
    its decoration and, for the action of the selection, its selection. *)
Lemma add_leaf_spec t item :
  let walk := walk_categories get_icon t [] (ancestor_categories item) in
  let made := _make_item get_icon (fst walk) (snd walk) item (text (get_spec item)) in
  let t3 := update_cell
              (decorate_leaf get_icon
                 (Settings.has action_favorites (category (get_spec item))))
              (fst made) (snd made) in
  let t4 := if String.eqb (category (get_spec item)) _selection
            then set_selected t3 (snd made) else t3 in
  extends same_but_selected t t4
  /\ (category (get_spec item) <> _selection -> extends eq t t4)
  /\ resolve t4 (ancestor_categories item) = Some (snd walk)
  /\ (exists m, get_item t4 (snd walk) = Some m)
  /\ exists k, snd made = snd walk ++ [k]
               /\ item_at t4 (snd walk ++ [k]) (selected_leaf_of _selection item).
Proof.
  intros walk made t3 t4.
  destruct (walk_categories_walked get_icon (ancestor_categories item) t [] t eq_refl)
    as (rel & n' & Hsnd & Hext1 & Hroot & Hres).
  fold walk in Hsnd, Hext1, Hroot. simpl in Hsnd, Hroot. injection Hroot as <-.
  destruct (resolve_texts _ _ _ Hres) as (_ & _ & m & Hm).
  rewrite <- Hsnd in Hres, Hm.
  destruct (make_leaf_spec get_icon (fst walk) (snd walk) item
              (Settings.has action_favorites (category (get_spec item))) m Hm)
    as (Hnode & Hext3 & Hleaf).
  fold made in Hnode, Hext3, Hleaf. fold t3 in Hext3, Hleaf.
  assert (Ht3 : extends eq t t3) by (now apply (extends_eq_trans t (fst walk))).
  assert (H4 : extends same_but_selected t3 t4
               /\ (category (get_spec item) <> _selection -> extends eq t3 t4)
               /\ item_at t4 (snd made) (selected_leaf_of _selection item)).
  { subst t4. destruct (String.eqb_spec (category (get_spec item)) _selection) as [E|E].
    - destruct (set_selected_spec t3 (snd made) _ Hleaf) as (Hsel & n & Hn & Hc).
      split; [exact Hsel|]. split; [tauto|].
      exists n. split; [exact Hn|]. rewrite Hc. simpl.
      split; [|reflexivity]. simpl.
      apply (leaf_of_same _ _ item (same_but_selected_set true _)).
      apply leaf_of_decorated.
    - split; [apply extends_refl; exact same_but_selected_refl|].
      split; [intros _; now apply extends_refl|].
      eexists. split; [exact Hleaf|]. simpl.
      split; [apply leaf_of_decorated | tauto]. }
  destruct H4 as (Hext4 & Hext4' & Hitem).
  assert (Ht4 : extends same_but_selected t t4).
  { apply (extends_same_trans t t3); [now apply extends_eq_same_but_selected|].
    exact Hext4. }
  assert (H14 : extends same_but_selected (fst walk) t4).
  { apply (extends_same_trans _ t3); [now apply extends_eq_same_but_selected|].
    exact Hext4. }
  split; [exact Ht4|].
  split; [intros E; apply (extends_eq_trans t t3); auto|].
  split; [apply (extends_resolve same_but_selected same_but_selected_text
                   (fst walk) t4 _ _ H14 Hres)|].
  split.
  { destruct (extends_get_item _ _ _ _ _ H14 Hm) as (m' & Hm' & _). now exists m'. }
  exists (List.length (children m)). split; [exact Hnode|].
  rewrite <- Hnode. exact Hitem.
Qed.

(** One round of the main loop: the tree grows, its cells keep all but
    being selected (and that too when the action is not the selection); the
    walk along the categories of the action succeeds and its leaf is below
    the item reached; a favorite has a second leaf below "Favorites". *)
Lemma add_action_spec favorites t item :
  (forall f, favorites = Some f -> exists fn, get_item t f = Some fn) ->
  let t' := add_action get_icon action_favorites _selection favorites t item in
  extends same_but_selected t t'
  /\ (category (get_spec item) <> _selection -> extends eq t t')
  /\ exists rel k,
       resolve t' (ancestor_categories item) = Some rel
       /\ item_at t' (rel ++ [k]) (selected_leaf_of _selection item)
       /\ (Settings.has action_favorites (category (get_spec item)) = true ->
           forall f, favorites = Some f ->
           exists k', item_at t' (f ++ [k'])
                        (favorite_leaf_of item (path_texts t' rel))).
Proof.
  intros Hfav t'.
  pose proof (add_leaf_spec t item) as H. cbv zeta in H.
  subst t'. unfold add_action.
  destruct (walk_categories get_icon t [] (ancestor_categories item))
    as [t1 rel] eqn:Ew.
  cbn [fst snd] in H.
  destruct (_make_item get_icon t1 rel item (text (get_spec item)))
    as [t2 node] eqn:Em.
  cbn [fst snd] in H.
  set (t4 := if String.eqb (category (get_spec item)) _selection
             then set_selected _ node else _) in *.
  destruct H as (Hext & Hexteq & Hres & (m & Hm) & k & Hnode & Hleaf).
  destruct (Settings.has action_favorites (category (get_spec item))) eqn:Hh;
    [destruct favorites as [f|]|].
  - destruct (Hfav f eq_refl) as (fn & Hfn).
    destruct (extends_get_item _ _ _ _ _ Hext Hfn) as (fn' & Hfn' & _).
    destruct (make_favorite_spec get_icon t4 f rel item fn' m Hfn' Hm)
      as (Hext5 & Hfavleaf).
    set (t5 := fst (_make_item get_icon t4 f item _)) in *.
    split; [apply (extends_same_trans t t4);
            [exact Hext | now apply extends_eq_same_but_selected]|].
    split; [intros E; apply (extends_eq_trans t t4); auto|].
    exists rel, k.
    split; [apply (extends_resolve eq (fun c c' E => f_equal cell_text E)
                     t4 t5 _ _ Hext5 Hres)|].
    split; [apply (extends_item_at eq t4 t5 _ _ Hext5); [now intros c c' <- | exact Hleaf]|].
    intros _ f' [= <-]. now exists (List.length (children fn')).
  - split; [exact Hext|]. split; [exact Hexteq|]. exists rel, k.
    split; [exact Hres|]. split; [exact Hleaf|]. intros _ f; discriminate.
  - split; [exact Hext|]. split; [exact Hexteq|]. exists rel, k.
    split; [exact Hres|]. split; [exact Hleaf|]. discriminate.
Qed.

End MainLoopFacts.

(* ================================================================== *)
(** ** The tree before the empty items are removed *)

Section BuildFacts.

Import GString ActionMenu TreeSpec.

Context {lowercase : Lowercase}.

Variable get_icon : string -> Texture.
Variable action_favorites : list string.
Variable _selection : string.

Lemma favorites_valid_extends favorites t t' :
  extends same_but_selected t t' ->
  favorites_valid favorites t -> favorites_valid favorites t'.
Proof.
  intros Hext H f Hf. destruct (H f Hf) as (fn & Hfn).
  destruct (extends_get_item _ _ _ _ _ Hext Hfn) as (fn' & Hfn' & _).
  now exists fn'.
Qed.

Lemma main_loop_extends favorites items :
  forall t, favorites_valid favorites t ->
    extends same_but_selected t
      (fold_left (add_action get_icon action_favorites _selection favorites) items t).
Proof.
  induction items as [|b rest IH]; intros t Hv; simpl.
  - apply extends_refl. exact same_but_selected_refl.
  - destruct (add_action_spec get_icon action_favorites _selection favorites t b Hv)
      as (Hext & _).
    apply (extends_same_trans t _ _ Hext). apply IH.
    now apply (favorites_valid_extends favorites t).
Qed.

Lemma main_loop_extends_eq favorites items :
  Forall (fun b => category (get_spec b) <> _selection) items ->
  forall t, favorites_valid favorites t ->
    extends eq t
      (fold_left (add_action get_icon action_favorites _selection favorites) items t).
Proof.
  induction 1 as [|b rest Hb Hrest IH]; intros t Hv; simpl.
  - now apply extends_refl.
  - destruct (add_action_spec get_icon action_favorites _selection favorites t b Hv)
      as (Hext & Hexteq & _).
    apply (extends_eq_trans t _ _ (Hexteq Hb)). apply IH.
    now apply (favorites_valid_extends favorites t).
Qed.

(** Every action of the list has its leaf where the walk along its
    categories arrives, and a favorite has its leaf below "Favorites". *)
Lemma main_loop_leaf favorites items a :
  In a items ->
  forall t, favorites_valid favorites t ->
    let T := fold_left (add_action get_icon action_favorites _selection favorites)
               items t in
    exists rel k,
      resolve T (ancestor_categories a) = Some rel
      /\ item_at T (rel ++ [k]) (leaf_of a)
      /\ (Settings.has action_favorites (category (get_spec a)) = true ->
          forall f, favorites = Some f ->
          exists k', item_at T (f ++ [k'])
                       (favorite_leaf_of a (path_texts T rel))).
Proof.
  induction items as [|b rest IH]; intros Hin t Hv; [contradiction|].
  simpl. destruct (add_action_spec get_icon action_favorites _selection favorites t b Hv)
    as (Hext & _ & rel & k & Hres & Hleaf & Hfav).
  set (t1 := add_action get_icon action_favorites _selection favorites t b) in *.
  assert (Hv1 : favorites_valid favorites t1)
    by now apply (favorites_valid_extends favorites t).
  destruct Hin as [->|Hin]; [|now apply IH].
  pose proof (main_loop_extends favorites rest t1 Hv1) as HextT.
  set (T := fold_left _ rest t1) in *.
  exists rel, k.
  split; [apply (extends_resolve same_but_selected same_but_selected_text
                   t1 T _ _ HextT Hres)|].
  split.
  { apply (extends_item_at same_but_selected t1 T _ _ HextT); [|].
    - intros c c' Hc. now apply leaf_of_same.
    - destruct Hleaf as (n & Hn & Hl & _). now exists n. }
  intros Hh f Hf. destruct (Hfav Hh f Hf) as (k' & Hk'). exists k'.
  destruct (resolve_texts _ _ _ Hres) as (_ & _ & m & Hm).
  rewrite (extends_path_texts same_but_selected same_but_selected_text
             t1 T rel m HextT Hm).
  apply (extends_item_at same_but_selected t1 T _ _ HextT); [|exact Hk'].
  intros c c' Hc. now apply favorite_leaf_of_same.
Qed.

(** The leaf of the last action whose category is the selection stays
    selected to the end of the loop. *)
Lemma main_loop_selected favorites before a after :
  category (get_spec a) = _selection ->
  Forall (fun b => category (get_spec b) <> _selection) after ->
  forall t, favorites_valid favorites t ->
    let T := fold_left (add_action get_icon action_favorites _selection favorites)
               (before ++ a :: after) t in
    exists rel k,
      resolve T (ancestor_categories a) = Some rel
      /\ item_at T (rel ++ [k])
           (fun c => leaf_of a c /\ cell_selected c = true).
Proof.
  intros Hsel Hafter t Hv. rewrite fold_left_app. simpl.
  set (t0 := fold_left _ before t).
  assert (Hv0 : favorites_valid favorites t0).
  { apply (favorites_valid_extends favorites t); [|exact Hv].
    now apply main_loop_extends. }
  destruct (add_action_spec get_icon action_favorites _selection favorites t0 a Hv0)
    as (Hext & _ & rel & k & Hres & Hleaf & _).
  set (t1 := add_action get_icon action_favorites _selection favorites t0 a) in *.
  assert (Hv1 : favorites_valid favorites t1)
    by now apply (favorites_valid_extends favorites t0).
  pose proof (main_loop_extends_eq favorites after Hafter t1 Hv1) as HextT.
  exists rel, k.
  split; [apply (extends_resolve eq (fun c c' E => f_equal cell_text E)
                   _ _ _ _ HextT Hres)|].
  apply (extends_item_at eq _ _ _ _ HextT); [now intros c c' <-|].
  destruct Hleaf as (n & Hn & Hl & Hs). exists n. auto.
Qed.

Lemma initial_tree_cases :
  (action_favorites = [] /\ initial_tree action_favorites = (Item new_cell [], None))
  \/ (action_favorites <> []
      /\ initial_tree action_favorites
         = (Item new_cell [Item favorites_cell []], Some [0])).
Proof.
  destruct action_favorites; [left | right]; split; (reflexivity || discriminate).
Qed.

Lemma initial_tree_valid :
  favorites_valid (snd (initial_tree action_favorites))
                  (fst (initial_tree action_favorites)).
Proof.
  destruct initial_tree_cases as [(_ & ->)|(_ & ->)]; intros f; simpl.
  - discriminate.
  - intros [= <-]. now eexists.
Qed.

Lemma build_tree_eq items :
  build_tree get_icon action_favorites _selection items
  = fold_left (add_action get_icon action_favorites _selection
                 (snd (initial_tree action_favorites)))
              items (fst (initial_tree action_favorites)).
Proof.
  unfold build_tree. now destruct (initial_tree action_favorites).
Qed.

Lemma build_tree_extends items :
  extends same_but_selected (fst (initial_tree action_favorites))
    (build_tree get_icon action_favorites _selection items).
Proof.
  rewrite build_tree_eq. apply main_loop_extends, initial_tree_valid.
Qed.

End BuildFacts.

(* ================================================================== *)
(** ** Removing the empty items *)

Section RemoveEmptyFacts.

Import GString ActionMenu TreeSpec.

Context {lowercase : Lowercase}.

Lemma remove_empty_eq c kids :
  _remove_empty_action_nodes (Item c kids)
  = Item c (filter stays (map _remove_empty_action_nodes kids)).
Proof.
  simpl. f_equal. induction kids as [|k kids IH]; [reflexivity|].
  simpl. unfold stays at 1. rewrite IH.
  destruct (Nat.eqb _ 0 && negb _); reflexivity.
Qed.

Lemma remove_empty_cell t : cell (_remove_empty_action_nodes t) = cell t.
Proof. destruct t as [c kids]. now rewrite remove_empty_eq. Qed.

Lemma stays_true k :
  stays k = true <-> children k <> [] \/ has_handler k = true.
Proof.
  unfold stays, get_child_count. destruct (children k) as [|x l]; simpl.
  - destruct (has_handler k); simpl; split; intros H; try tauto; try discriminate.
  - split; [intros _; left; discriminate | reflexivity].
Qed.

Lemma subitem_cases n t : subitem n t <-> n = t \/ below n t.
Proof.
  unfold below. split.
  - intros H. inversion H as [|t' k Hk Hsub]; subst; [now left|].
    right. now exists k.
  - intros [->|(k & Hk & Hsub)]; [constructor|].
    now apply (subitem_child n t k).
Qed.

Lemma below_children n t : below n t -> children t <> [].
Proof. intros (k & Hk & _) E. rewrite E in Hk. contradiction. Qed.

(** After the removal every item below the root has a child or a handler. *)
Lemma remove_empty_below t n :
  below n (_remove_empty_action_nodes t) ->
  children n <> [] \/ has_handler n = true.
Proof.
  revert n. induction t as [c kids IH] using TreeItem_ind. intros n.
  rewrite remove_empty_eq. intros (k' & Hk' & Hsub). simpl in Hk'.
  apply filter_In in Hk'. destruct Hk' as (Hin & Hstay).
  apply in_map_iff in Hin. destruct Hin as (k & <- & Hk).
  apply subitem_cases in Hsub. destruct Hsub as [->|Hbelow].
  - now apply stays_true.
  - rewrite Forall_forall in IH. now apply (IH k Hk).
Qed.

(** Removing the empty items a second time removes nothing. *)
Lemma remove_empty_idempotent t :
  _remove_empty_action_nodes (_remove_empty_action_nodes t)
  = _remove_empty_action_nodes t.
Proof.
  induction t as [c kids IH] using TreeItem_ind.
  rewrite !remove_empty_eq. f_equal.
  induction IH as [|k kids Hk Hkids IHkids]; [reflexivity|].
  simpl. destruct (stays (_remove_empty_action_nodes k)) eqn:E; simpl.
  - rewrite Hk, E, IHkids. reflexivity.
  - exact IHkids.
Qed.

(** The items left are items of the tree before, with their cells. *)
Lemma remove_empty_subitem t n :
  subitem n (_remove_empty_action_nodes t) ->
  exists n0, subitem n0 t /\ n = _remove_empty_action_nodes n0.
Proof.
  revert n. induction t as [c kids IH] using TreeItem_ind. intros n H.
  apply subitem_cases in H. destruct H as [->|Hbelow].
  - exists (Item c kids). split; [constructor | reflexivity].
  - rewrite remove_empty_eq in Hbelow. destruct Hbelow as (k' & Hk' & Hsub).
    simpl in Hk'. apply filter_In in Hk'. destruct Hk' as (Hin & _).
    apply in_map_iff in Hin. destruct Hin as (k & <- & Hk).
    rewrite Forall_forall in IH. destruct (IH k Hk n Hsub) as (n0 & Hn0 & ->).
    exists n0. split; [|reflexivity].
    now apply (subitem_child n0 (Item c kids) k).
Qed.

Lemma has_handler_remove_empty t :
  has_handler (_remove_empty_action_nodes t) = has_handler t.
Proof. unfold has_handler. now rewrite remove_empty_cell. Qed.

(** A child that stays is a child after the removal. *)
Lemma remove_empty_child t k :
  In k (children t) -> stays (_remove_empty_action_nodes k) = true ->
  In (_remove_empty_action_nodes k) (children (_remove_empty_action_nodes t)).
Proof.
  destruct t as [c kids]. rewrite remove_empty_eq. simpl. intros Hk Hs.
  apply filter_In. split; [now apply in_map | exact Hs].
Qed.

(** An item with a handler is not removed, nor is any item above it. *)
Lemma remove_empty_keeps t p n :
  get_item t p = Some n -> has_handler n = true ->
  subitem (_remove_empty_action_nodes n) (_remove_empty_action_nodes t).
Proof.
  revert t. induction p as [|j p IH]; intros t; simpl.
  - intros [= ->] _. constructor.
  - destruct (nth_error (children t) j) as [k|] eqn:Ek; [|discriminate].
    intros Hn Hh. pose proof (IH k Hn Hh) as Hsub.
    apply (subitem_child _ _ (_remove_empty_action_nodes k)); [|exact Hsub].
    apply remove_empty_child; [now apply nth_error_In in Ek|].
    apply stays_true. apply subitem_cases in Hsub. destruct Hsub as [E|Hb].
    + right. now rewrite <- E, has_handler_remove_empty.
    + left. now apply (below_children _ _ Hb).
Qed.

Lemma remove_empty_keeps_below t j p n :
  get_item t (j :: p) = Some n -> has_handler n = true ->
  below (_remove_empty_action_nodes n) (_remove_empty_action_nodes t).
Proof.
  intros Hn Hh. simpl in Hn.
  destruct (nth_error (children t) j) as [k|] eqn:Ek; [|discriminate].
  pose proof (remove_empty_keeps k p n Hn Hh) as Hsub.
  exists (_remove_empty_action_nodes k). split; [|exact Hsub].
  apply remove_empty_child; [now apply nth_error_In in Ek|].
  apply stays_true. apply subitem_cases in Hsub. destruct Hsub as [E|Hb].
  - right. now rewrite <- E, has_handler_remove_empty.
  - left. now apply (below_children _ _ Hb).
Qed.

(** An item with a handler that is a child in the built tree is a child of
    the same parent after the removal of the empty items. *)
Lemma remove_empty_keeps_leaf parent leaf :
  In leaf (children parent) -> has_handler leaf = true ->
  In (_remove_empty_action_nodes leaf)
     (children (_remove_empty_action_nodes parent))
  /\ stays (_remove_empty_action_nodes parent) = true.
Proof.
  intros Hin Hh.
  assert (H : In (_remove_empty_action_nodes leaf)
                 (children (_remove_empty_action_nodes parent))).
  { apply remove_empty_child; [exact Hin|]. apply stays_true. right.
    now rewrite has_handler_remove_empty. }
  split; [exact H|]. apply stays_true. left. intros E. now rewrite E in H.
Qed.

Lemma remove_empty_text t : get_text (_remove_empty_action_nodes t) = get_text t.
Proof. unfold get_text. now rewrite remove_empty_cell. Qed.

(** The first child of a name is still the first child of that name among
    the children that stay. *)
Lemma find_child_from_stays name kids :
  forall i j X,
    find_child_from i kids name = Some j ->
    nth_error kids (j - i) = Some X ->
    stays (_remove_empty_action_nodes X) = true ->
    forall i', exists j',
      i' <= j'
      /\ find_child_from i' (filter stays (map _remove_empty_action_nodes kids)) name
         = Some j'
      /\ nth_error (filter stays (map _remove_empty_action_nodes kids)) (j' - i')
         = Some (_remove_empty_action_nodes X).
Proof.
  induction kids as [|k0 kids IH]; intros i j X Hfind Hnth Hstays i';
    simpl in Hfind; [discriminate|].
  destruct (String.eqb (to_lower (get_text k0)) (to_lower name)) eqn:Ematch.
  - injection Hfind as <-. rewrite Nat.sub_diag in Hnth. simpl in Hnth.
    injection Hnth as <-. exists i'. simpl. rewrite Hstays. simpl.
    rewrite remove_empty_text, Ematch, Nat.sub_diag. now repeat split.
  - destruct (find_child_from_nth _ _ _ _ Hfind) as (_ & Hle & _).
    replace (j - i) with (S (j - S i)) in Hnth by lia. simpl in Hnth.
    simpl. destruct (stays (_remove_empty_action_nodes k0)).
    + destruct (IH (S i) j X Hfind Hnth Hstays (S i')) as (j' & Hle' & Hf' & Hn').
      exists j'. simpl. rewrite remove_empty_text, Ematch.
      split; [lia|]. split; [exact Hf'|].
      replace (j' - i') with (S (j' - S i')) by lia. exact Hn'.
    + exact (IH (S i) j X Hfind Hnth Hstays i').
Qed.

(** The walk to an item that has a child with a handler succeeds after the
    removal of the empty items too, and the child is still below the item
    reached. *)
Lemma remove_empty_resolve names :
  forall t p k leaf,
    resolve t names = Some p ->
    get_item t (p ++ [k]) = Some leaf ->
    has_handler leaf = true ->
    exists p' k',
      resolve (_remove_empty_action_nodes t) names = Some p'
      /\ get_item (_remove_empty_action_nodes t) (p' ++ [k'])
         = Some (_remove_empty_action_nodes leaf).
Proof.
  induction names as [|name rest IH]; intros t p k leaf Hres Hleaf Hh; simpl in Hres.
  - injection Hres as <-. simpl in Hleaf.
    destruct (nth_error (children t) k) as [l|] eqn:Ek; [|discriminate].
    injection Hleaf as ->.
    destruct (remove_empty_keeps_leaf t leaf (nth_error_In _ _ Ek) Hh) as (Hin & _).
    apply In_nth_error in Hin. destruct Hin as (k' & Hk').
    exists [], k'. simpl. now rewrite Hk'.
  - destruct (find_child (children t) name) as [j|] eqn:Ef; [|discriminate].
    destruct (nth_error (children t) j) as [X|] eqn:EX; [|discriminate].
    destruct (resolve X rest) as [q|] eqn:Eq; [|discriminate].
    simpl in Hres. injection Hres as <-. simpl in Hleaf. rewrite EX in Hleaf.
    destruct (IH X q k leaf Eq Hleaf Hh) as (q' & k' & Hq' & Hleaf').
    assert (Hstays : stays (_remove_empty_action_nodes X) = true).
    { apply stays_true. left. intros E.
      rewrite get_item_app in Hleaf'.
      destruct (get_item (_remove_empty_action_nodes X) q') as [m|] eqn:Em;
        [|discriminate].
      destruct q' as [|j' q'']; simpl in Em.
      - injection Em as <-. simpl in Hleaf'. rewrite E in Hleaf'.
        now destruct k'.
      - rewrite E in Em. now destruct j'. }
    unfold find_child in Ef.
    assert (EX0 : nth_error (children t) (j - 0) = Some X)
      by now rewrite Nat.sub_0_r.
    destruct (find_child_from_stays name (children t) 0 j X Ef EX0 Hstays 0)
      as (j' & _ & Hf' & Hn').
    rewrite Nat.sub_0_r in Hn'.
    exists (j' :: q'), k'. destruct t as [c kids]. rewrite remove_empty_eq.
    simpl in *. unfold find_child. rewrite Hf', Hn', Hq'. simpl.
    split; [reflexivity | exact Hleaf'].
Qed.

End RemoveEmptyFacts.

(* ================================================================== *)
(** ** What holds of every cell of the tree *)

Section CellInvariant.

Import GString ActionMenu TreeSpec.

Context {lowercase : Lowercase}.

Variable get_icon : string -> Texture.

Lemma In_alter_nth {A} (g : A -> A) j l x :
  In x (alter_nth g j l) ->
  In x l \/ exists y, nth_error l j = Some y /\ x = g y.
Proof.
  revert j. induction l as [|a l IH]; intros [|j]; simpl; try tauto.
  - intros [<-|H]; [right; now exists a | left; now right].
  - intros [<-|H]; [left; now left|].
    destruct (IH j H) as [H'|H']; [left; now right | now right].
Qed.

Lemma all_cells_child P t k : all_cells P t -> In k (children t) -> all_cells P k.
Proof.
  intros H Hk n Hn. apply H. now apply (subitem_child n t k).
Qed.

Lemma all_cells_Item P c kids :
  P c -> (forall k, In k kids -> all_cells P k) -> all_cells P (Item c kids).
Proof.
  intros Hc Hk n Hn. apply subitem_Item in Hn.
  destruct Hn as [->|(k & Hin & Hsub)]; [exact Hc | now apply (Hk k)].
Qed.

Lemma all_cells_alter P f :
  forall p t,
    all_cells P t ->
    (forall n, get_item t p = Some n -> all_cells P n -> all_cells P (f n)) ->
    all_cells P (alter f t p).
Proof.
  induction p as [|j p IH]; intros t Ht Hf; simpl.
  - now apply Hf.
  - apply all_cells_Item; [apply Ht; constructor|].
    intros k' Hk'. apply In_alter_nth in Hk'.
    destruct Hk' as [Hk'|(k & Hk & ->)]; [now apply (all_cells_child P t)|].
    assert (Hall : all_cells P k)
      by (apply (all_cells_child P t); [exact Ht | now apply nth_error_In in Hk]).
    apply IH; [exact Hall|]. intros n Hn. apply Hf. simpl. now rewrite Hk.
Qed.

Lemma all_cells_create_child P t parent c :
  all_cells P t -> P c -> all_cells P (fst (create_child t parent c)).
Proof.
  intros Ht Hc. unfold create_child. simpl. apply all_cells_alter; [exact Ht|].
  intros n _ Hn. apply all_cells_Item; [apply Hn; constructor|].
  intros k Hk. apply in_app_or in Hk. destruct Hk as [Hk|[<-|[]]].
  - now apply (all_cells_child P n).
  - apply all_cells_Item; [exact Hc | intros ? []].
Qed.

Lemma all_cells_update_cell P g t p :
  all_cells P t -> (forall c, P c -> P (g c)) -> all_cells P (update_cell g t p).
Proof.
  intros Ht Hg. unfold update_cell. apply all_cells_alter; [exact Ht|].
  intros n _ Hn. apply all_cells_Item; [apply Hg, Hn; constructor|].
  intros k Hk. now apply (all_cells_child P n).
Qed.

Lemma all_cells_map_cells P g t :
  all_cells P t -> (forall c, P c -> P (g c)) -> all_cells P (map_cells g t).
Proof.
  intros Ht Hg. induction t as [c kids IH] using TreeItem_ind. simpl.
  apply all_cells_Item; [apply Hg, (Ht (Item c kids)); constructor|].
  intros k' Hk'. apply in_map_iff in Hk'. destruct Hk' as (k & <- & Hk).
  rewrite Forall_forall in IH. apply (IH k Hk).
  now apply (all_cells_child P (Item c kids)).
Qed.

(** A property of cells that the cells made by the menu have, and that
    selecting or deselecting a row keeps. *)
Variable P : Cell -> Prop.
Hypothesis P_selected : forall b c, P c -> P (set_cell_selected b c).
Hypothesis P_root : P new_cell.
Hypothesis P_favorites : P favorites_cell.
Hypothesis P_category : forall name, P (category_cell get_icon name).
Hypothesis P_item : forall item text, P (make_item_cell get_icon item text).
Hypothesis P_leaf :
  forall item is_favorite,
    P (decorate_leaf get_icon is_favorite
         (make_item_cell get_icon item (text (get_spec item)))).

Lemma all_cells_create_categories names :
  forall t parent,
    all_cells P t ->
    all_cells P (fst (create_categories get_icon t parent names)).
Proof.
  induction names as [|name rest IH]; intros t parent Ht; [exact Ht|].
  cbn [create_categories].
  pose proof (all_cells_create_child P t parent (category_cell get_icon name)
                Ht (P_category name)) as H1.
  destruct (create_child t parent (category_cell get_icon name)) as [t1 parent1].
  now apply IH.
Qed.

Lemma all_cells_walk_categories names :
  forall t parent,
    all_cells P t ->
    all_cells P (fst (walk_categories get_icon t parent names)).
Proof.
  induction names as [|name rest IH]; intros t parent Ht; [exact Ht|].
  cbn [walk_categories].
  destruct (find_child (children_at t parent) name);
    [now apply IH | now apply all_cells_create_categories].
Qed.

Lemma all_cells_add_action action_favorites _selection favorites t item :
  all_cells P t ->
  all_cells P (add_action get_icon action_favorites _selection favorites t item).
Proof.
  intros Ht. unfold add_action.
  pose proof (all_cells_walk_categories (ancestor_categories item) t [] Ht) as H1.
  destruct (walk_categories_walked get_icon (ancestor_categories item) t [] t eq_refl)
    as (rel & n' & Hsnd & _ & Hroot & Hres).
  destruct (walk_categories get_icon t [] (ancestor_categories item)) as [t1 parent].
  cbn [fst snd] in *. simpl in Hsnd, Hroot. subst parent. injection Hroot as <-.
  destruct (resolve_texts _ _ _ Hres) as (_ & _ & m & Hm).
  pose proof (update_created_child
                (decorate_leaf get_icon
                   (Settings.has action_favorites (category (get_spec item))))
                t1 rel (make_item_cell get_icon item (text (get_spec item))) m Hm)
    as Hupd.
  unfold _make_item at 1 2.
  destruct (create_child t1 rel (make_item_cell get_icon item (text (get_spec item))))
    as [t2 node].
  cbn [fst snd] in Hupd. rewrite Hupd.
  set (t3 := fst (create_child t1 rel _)).
  assert (H3 : all_cells P t3) by (apply all_cells_create_child; auto).
  set (t4 := if String.eqb _ _ then _ else _).
  assert (H4 : all_cells P t4).
  { subst t4. destruct (String.eqb _ _); [|exact H3].
    unfold set_selected. apply all_cells_update_cell; [|auto].
    apply all_cells_map_cells; auto. }
  destruct (Settings.has _ _); [|exact H4].
  destruct favorites as [f|]; [|exact H4].
  unfold _make_item. apply all_cells_create_child; auto.
Qed.

Lemma all_cells_build_tree action_favorites _selection items :
  all_cells P (build_tree get_icon action_favorites _selection items).
Proof.
  rewrite build_tree_eq.
  assert (H0 : all_cells P (fst (initial_tree action_favorites))).
  { destruct (initial_tree_cases action_favorites) as [(_ & ->)|(_ & ->)]; simpl.
    - apply all_cells_Item; [exact P_root | intros ? []].
    - apply all_cells_Item; [exact P_root|]. intros k [<-|[]].
      apply all_cells_Item; [exact P_favorites | intros ? []]. }
  revert H0. generalize (fst (initial_tree action_favorites)).
  induction items as [|b rest IH]; intros t Ht; [exact Ht|].
  simpl. apply IH. now apply all_cells_add_action.
Qed.

(** The cells after the removal of the empty items are cells of before. *)
Lemma all_cells_remove_empty t :
  all_cells P t -> all_cells P (_remove_empty_action_nodes t).
Proof.
  intros Ht n Hn. destruct (remove_empty_subitem t n Hn) as (n0 & Hn0 & ->).
  rewrite remove_empty_cell. now apply Ht.
Qed.

End CellInvariant.

(* ================================================================== *)
(** ** One category of a name below an item *)

Section CategoriesUnique.

Import GString ActionMenu TreeSpec.

Context {lowercase : Lowercase}.

Variable get_icon : string -> Texture.

Lemma category_names_app l l' :
  category_names (l ++ l') = category_names l ++ category_names l'.
Proof. unfold category_names. now rewrite filter_app, map_app. Qed.

Lemma category_names_single c kids :
  category_names [Item c kids]
  = match meta_item c with Some _ => [] | None => [to_lower (cell_text c)] end.
Proof. unfold category_names, is_category. simpl. now destruct (meta_item c). Qed.

Lemma category_names_In name kids :
  In name (category_names kids) ->
  exists k, In k kids /\ to_lower (get_text k) = name.
Proof.
  unfold category_names. intros H. apply in_map_iff in H.
  destruct H as (k & <- & Hk). apply filter_In in Hk. now exists k.
Qed.

Lemma keeps_key_alter f p : keeps_key f -> keeps_key (fun k => alter f k p).
Proof.
  intros Hf n. destruct p as [|j p]; simpl; [apply Hf | now split].
Qed.

Lemma category_names_alter_nth g j kids :
  keeps_key g -> category_names (alter_nth g j kids) = category_names kids.
Proof.
  intros Hg. revert j. induction kids as [|k kids IH]; intros [|j]; simpl;
    try reflexivity.
  - unfold category_names. simpl. destruct (Hg k) as (Ht & Hc). rewrite Hc.
    destruct (is_category k); simpl; now rewrite ?Ht.
  - change (k :: alter_nth g j kids) with ([k] ++ alter_nth g j kids).
    change (k :: kids) with ([k] ++ kids).
    now rewrite !category_names_app, IH.
Qed.

Lemma categories_unique_child t k :
  categories_unique t -> In k (children t) -> categories_unique k.
Proof. intros H Hk n Hn. apply H. now apply (subitem_child n t k). Qed.

Lemma categories_unique_Item c kids :
  NoDup (category_names kids) ->
  (forall k, In k kids -> categories_unique k) ->
  categories_unique (Item c kids).
Proof.
  intros Hc Hk n Hn. apply subitem_Item in Hn.
  destruct Hn as [->|(k & Hin & Hsub)]; [exact Hc | now apply (Hk k)].
Qed.

Lemma categories_unique_alter f :
  keeps_key f ->
  forall p t,
    categories_unique t ->
    (forall n, get_item t p = Some n -> categories_unique n ->
               categories_unique (f n)) ->
    categories_unique (alter f t p).
Proof.
  intros Hkey. induction p as [|j p IH]; intros t Ht Hf; simpl.
  - now apply Hf.
  - apply categories_unique_Item.
    + rewrite category_names_alter_nth by now apply keeps_key_alter.
      apply (Ht t). constructor.
    + intros k' Hk'. apply In_alter_nth in Hk'.
      destruct Hk' as [Hk'|(k & Hk & ->)]; [now apply (categories_unique_child t)|].
      assert (Hall : categories_unique k).
      { apply (categories_unique_child t); [exact Ht | now apply nth_error_In in Hk]. }
      apply IH; [exact Hall|]. intros n Hn. apply Hf. simpl. now rewrite Hk.
Qed.

(** A child may be created when it is a leaf, or a category of a name that
    no child of the parent has. *)
Lemma categories_unique_create_child t parent c :
  categories_unique t ->
  (meta_item c = None ->
   forall k, In k (children_at t parent) ->
             to_lower (get_text k) <> to_lower (cell_text c)) ->
  categories_unique (fst (create_child t parent c)).
Proof.
  intros Ht Hc. unfold create_child. simpl.
  apply categories_unique_alter; [now intros [c' kids] | exact Ht|].
  intros n Hn Hall. apply categories_unique_Item.
  - rewrite category_names_app, category_names_single.
    destruct (meta_item c) eqn:Em.
    + rewrite app_nil_r. apply (Hall n). constructor.
    + apply NoDup_app; [apply (Hall n); constructor
                       | repeat constructor; simpl; tauto |].
      intros name Hname [<-|[]].
      destruct (category_names_In _ _ Hname) as (k & Hk & E).
      apply (Hc eq_refl k); [|exact E].
      unfold children_at. now rewrite Hn.
  - intros k Hk. apply in_app_or in Hk. destruct Hk as [Hk|[<-|[]]].
    + now apply (categories_unique_child n).
    + apply categories_unique_Item; [constructor | intros ? []].
Qed.

Lemma categories_unique_update_cell g t p :
  (forall c, cell_text (g c) = cell_text c /\ meta_item (g c) = meta_item c) ->
  categories_unique t -> categories_unique (update_cell g t p).
Proof.
  intros Hg Ht. unfold update_cell. apply categories_unique_alter; [|exact Ht|].
  - intros [c kids]. unfold get_text, is_category. simpl.
    destruct (Hg c) as (-> & ->). now split.
  - intros n _ Hall. apply categories_unique_Item; [apply (Hall n); constructor|].
    intros k Hk. now apply (categories_unique_child n).
Qed.

Lemma category_names_map_cells g kids :
  (forall c, cell_text (g c) = cell_text c /\ meta_item (g c) = meta_item c) ->
  category_names (map (map_cells g) kids) = category_names kids.
Proof.
  intros Hg. induction kids as [|[c l] kids IH]; [reflexivity|].
  change (map (map_cells g) (Item c l :: kids))
    with ([Item (g c) (map (map_cells g) l)] ++ map (map_cells g) kids).
  change (Item c l :: kids) with ([Item c l] ++ kids).
  rewrite !category_names_app, !category_names_single, IH.
  destruct (Hg c) as (-> & ->). reflexivity.
Qed.

Lemma categories_unique_map_cells g t :
  (forall c, cell_text (g c) = cell_text c /\ meta_item (g c) = meta_item c) ->
  categories_unique t -> categories_unique (map_cells g t).
Proof.
  intros Hg. induction t as [c kids IH] using TreeItem_ind. intros Ht. simpl.
  apply categories_unique_Item.
  - rewrite category_names_map_cells by exact Hg. apply (Ht (Item c kids)). constructor.
  - intros k' Hk'. apply in_map_iff in Hk'. destruct Hk' as (k & <- & Hk).
    rewrite Forall_forall in IH. apply (IH k Hk).
    now apply (categories_unique_child (Item c kids)).
Qed.

Lemma categories_unique_create_categories names :
  forall t parent,
    categories_unique t ->
    match names with
    | [] => True
    | name :: _ => find_child (children_at t parent) name = None
    end ->
    categories_unique (fst (create_categories get_icon t parent names)).
Proof.
  induction names as [|name rest IH]; intros t parent Ht Hnone; [exact Ht|].
  cbn [create_categories].
  assert (H1 : categories_unique
                 (fst (create_child t parent (category_cell get_icon name)))).
  { apply categories_unique_create_child; [exact Ht|].
    intros _ k Hk. simpl. now apply (find_child_from_None 0 _ _ Hnone). }
  assert (Hnew : children_at (fst (create_child t parent (category_cell get_icon name)))
                   (snd (create_child t parent (category_cell get_icon name))) = []).
  { unfold children_at. destruct (get_item t parent) as [n|] eqn:En.
    - destruct (get_created_child t parent (category_cell get_icon name) n En)
        as (_ & _ & ->). reflexivity.
    - unfold create_child. simpl.
      destruct (get_item _ (parent ++ _)) as [x|] eqn:Ex; [|reflexivity].
      exfalso. rewrite get_item_app in Ex.
      assert (Hno : forall f p t0, get_item t0 p = None -> get_item (alter f t0 p) p = None).
      { clear. intros f p. induction p as [|j p IHp]; intros t0; simpl; [discriminate|].
        rewrite nth_error_alter_nth.
        destruct (nth_error (children t0) j); simpl; [apply IHp | reflexivity]. }
      now rewrite Hno in Ex. }
  destruct (create_child t parent (category_cell get_icon name)) as [t1 parent1].
  cbn [fst snd] in *. apply IH; [exact H1|].
  destruct rest; [exact I|]. now rewrite Hnew.
Qed.

Lemma categories_unique_walk_categories names :
  forall t parent,
    categories_unique t ->
    categories_unique (fst (walk_categories get_icon t parent names)).
Proof.
  induction names as [|name rest IH]; intros t parent Ht; [exact Ht|].
  cbn [walk_categories].
  destruct (find_child (children_at t parent) name) eqn:Ef; [now apply IH|].
  now apply (categories_unique_create_categories (name :: rest)).
Qed.

Lemma make_item_cell_is_leaf item text :
  meta_item (make_item_cell get_icon item text) = Some item.
Proof. unfold make_item_cell. now destruct (get_handler item). Qed.

Lemma categories_unique_add_action action_favorites _selection favorites t item :
  categories_unique t ->
  categories_unique
    (add_action get_icon action_favorites _selection favorites t item).
Proof.
  intros Ht. unfold add_action.
  pose proof (categories_unique_walk_categories (ancestor_categories item) t [] Ht) as H1.
  destruct (walk_categories get_icon t [] (ancestor_categories item)) as [t1 parent].
  cbn [fst] in H1. unfold _make_item at 1.
  assert (H2 : categories_unique
                 (fst (create_child t1 parent
                         (make_item_cell get_icon item (text (get_spec item)))))).
  { apply categories_unique_create_child; [exact H1|].
    rewrite make_item_cell_is_leaf. discriminate. }
  destruct (create_child t1 parent _) as [t2 node]. cbn [fst] in H2.
  set (t3 := update_cell _ t2 node).
  assert (H3 : categories_unique t3).
  { apply categories_unique_update_cell; [|exact H2]. now intros c. }
  set (t4 := if String.eqb _ _ then _ else _).
  assert (H4 : categories_unique t4).
  { subst t4. destruct (String.eqb _ _); [|exact H3].
    unfold set_selected. apply categories_unique_update_cell; [now intros c|].
    apply categories_unique_map_cells; [now intros c | exact H3]. }
  destruct (Settings.has _ _); [|exact H4].
  destruct favorites as [f|]; [|exact H4].
  unfold _make_item. apply categories_unique_create_child; [exact H4|].
  rewrite make_item_cell_is_leaf. discriminate.
Qed.

Lemma categories_unique_build_tree action_favorites _selection items :
  categories_unique (build_tree get_icon action_favorites _selection items).
Proof.
  rewrite build_tree_eq.
  assert (H0 : categories_unique (fst (initial_tree action_favorites))).
  { destruct (initial_tree_cases action_favorites) as [(_ & ->)|(_ & ->)]; simpl.
    - apply categories_unique_Item; [constructor | intros ? []].
    - apply categories_unique_Item.
      + repeat constructor. simpl. tauto.
      + intros k [<-|[]]. apply categories_unique_Item; [constructor | intros ? []]. }
  revert H0. generalize (fst (initial_tree action_favorites)).
  induction items as [|b rest IH]; intros t Ht; [exact Ht|].
  simpl. apply IH. now apply categories_unique_add_action.
Qed.

Lemma category_names_cons x l :
  category_names (x :: l) = category_names [x] ++ category_names l.
Proof. exact (category_names_app [x] l). Qed.

Lemma category_names_stays kids name :
  In name (category_names (filter stays (map _remove_empty_action_nodes kids))) ->
  In name (category_names kids).
Proof.
  induction kids as [|[c l] kids IH]; [trivial|]. cbn [map filter].
  rewrite (category_names_cons (Item c l)), category_names_single.
  intros H. apply in_or_app.
  destruct (stays (_remove_empty_action_nodes (Item c l))); [|right; now apply IH].
  rewrite category_names_cons in H. apply in_app_or in H.
  destruct H as [H|H]; [left | right; now apply IH].
  rewrite remove_empty_eq, category_names_single in H. exact H.
Qed.

Lemma NoDup_category_names_stays kids :
  NoDup (category_names kids) ->
  NoDup (category_names (filter stays (map _remove_empty_action_nodes kids))).
Proof.
  induction kids as [|[c l] kids IH]; [trivial|]. cbn [map filter].
  rewrite (category_names_cons (Item c l)), category_names_single. intros H.
  assert (Hrest : NoDup (category_names kids)).
  { destruct (meta_item c); [exact H | now inversion H]. }
  destruct (stays (_remove_empty_action_nodes (Item c l))); [|now apply IH].
  rewrite category_names_cons, remove_empty_eq, category_names_single.
  destruct (meta_item c); [now apply IH|]. simpl in *.
  inversion H as [|? ? Hnot _]; subst. constructor; [|now apply IH].
  intros Hin. apply Hnot. now apply category_names_stays.
Qed.

Lemma categories_unique_remove_empty t :
  categories_unique t -> categories_unique (_remove_empty_action_nodes t).
Proof.
  intros Ht n Hn. destruct (remove_empty_subitem t n Hn) as ([c kids] & Hn0 & ->).
  rewrite remove_empty_eq. simpl. apply NoDup_category_names_stays.
  exact (Ht (Item c kids) Hn0).
Qed.

End CategoriesUnique.

(* ================================================================== *)
(** ** The generated tree *)

Section GeneratedTree.

Import GString ActionMenu TreeSpec.

Context {lowercase : Lowercase}.

Lemma handler_of_item_build get_icon action_favorites _selection items :
  all_cells handler_of_item
    (build_tree get_icon action_favorites _selection items).
Proof.
  apply all_cells_build_tree; unfold handler_of_item; simpl;
    try (intros; discriminate).
  - intros b c H h Hh. exact (H h Hh).
  - intros item txt h. unfold make_item_cell.
    destruct (get_handler item) as [h'|] eqn:E; simpl; [|discriminate].
    intros [= <-]. now exists item.
  - intros item is_favorite h. unfold make_item_cell.
    destruct (get_handler item) as [h'|] eqn:E; simpl; [|discriminate].
    intros [= <-]. now exists item.
Qed.

(** C1. In the tree generated from any list of items, any favorites and
    any selection, every item below the hidden root has at least one child
    or carries an action (a menu item with its handler): no category is left
    without a child.  Removing the empty items once more changes nothing. *)
Theorem generated_tree_has_no_empty_item :
  forall (get_icon : string -> Texture) (action_favorites : list string)
         (_selection : string) (items : list MenuItem) (n : TreeItem),
    below n (_generate_filtered_actions get_icon action_favorites _selection items) ->
    (children n <> [] \/ carries_action (cell n))
    /\ _remove_empty_action_nodes
         (_generate_filtered_actions get_icon action_favorites _selection items)
       = _generate_filtered_actions get_icon action_favorites _selection items.
Proof.
  intros gi favs sel items n Hn. unfold _generate_filtered_actions in *.
  split; [|apply remove_empty_idempotent].
  destruct (remove_empty_below _ _ Hn) as [Hkids|Hh]; [now left|]. right.
  assert (Hsub : subitem n (_remove_empty_action_nodes (build_tree gi favs sel items)))
    by (apply subitem_cases; now right).
  pose proof (all_cells_remove_empty handler_of_item _
                (handler_of_item_build gi favs sel items) n Hsub) as Hcell.
  unfold has_handler in Hh. destruct (meta_handler (cell n)) as [h|] eqn:Eh;
    [|discriminate].
  destruct (Hcell h Eh) as (item & Hitem & Hhandler). now exists item, h.
Qed.

(** C7. With no item in the action database the generated tree is the
    hidden root alone, whatever the favorites and the selection: the
    "Favorites" item, made when there are favorites, is removed as empty. *)
Theorem empty_registry_gives_empty_tree :
  forall (get_icon : string -> Texture) (action_favorites : list string)
         (_selection : string),
    _generate_filtered_actions get_icon action_favorites _selection []
    = Item new_cell []
    /\ children (build_tree get_icon action_favorites _selection [])
       = match action_favorites with
         | [] => []
         | _ :: _ => [Item favorites_cell []]
         end.
Proof.
  intros gi favs sel. destruct favs; split; reflexivity.
Qed.

End GeneratedTree.

Section GeneratedTreeSamples.

Import GString ActionMenu TreeSpec.

Local Existing Instance Sample.ascii_lowercase.

(** The category "Math" of the generated sample tree has a child. *)
Lemma generated_tree_has_no_empty_item_witness :
  children
    (nth 0 (children (_generate_filtered_actions Sample.theme [] ""
                        [Sample.math_add; Sample.math_subtract]))
         (Item new_cell []))
  <> []
  \/ carries_action
       (cell (nth 0 (children (_generate_filtered_actions Sample.theme [] ""
                                 [Sample.math_add; Sample.math_subtract]))
                  (Item new_cell []))).
Proof.
  apply (generated_tree_has_no_empty_item Sample.theme [] ""
           [Sample.math_add; Sample.math_subtract]).
  eexists. split; [left; reflexivity | constructor].
Defined.

End GeneratedTreeSamples.

(* ================================================================== *)
(** ** Shared categories, favorites and the selection *)

Section LeavesOfTheTree.

Import GString ActionMenu TreeSpec.

Context {lowercase : Lowercase}.

Variable get_icon : string -> Texture.
Variable action_favorites : list string.
Variable _selection : string.

Lemma build_tree_leaf items a :
  In a items ->
  let T := build_tree get_icon action_favorites _selection items in
  exists rel k,
    resolve T (ancestor_categories a) = Some rel
    /\ item_at T (rel ++ [k]) (leaf_of a)
    /\ (In (category (get_spec a)) action_favorites ->
        exists k', item_at T [0; k'] (favorite_leaf_of a (path_texts T rel))).
Proof.
  intros Hin T. subst T. rewrite build_tree_eq.
  destruct (main_loop_leaf get_icon action_favorites _selection
              (snd (initial_tree action_favorites)) items a Hin
              (fst (initial_tree action_favorites))
              (initial_tree_valid action_favorites))
    as (rel & k & Hres & Hleaf & Hfav).
  exists rel, k. split; [exact Hres|]. split; [exact Hleaf|].
  intros Hf. apply has_In in Hf as Hh.
  destruct (initial_tree_cases action_favorites) as [(E & _)|(_ & E)].
  - rewrite E in Hf. contradiction.
  - rewrite E in Hfav |- *. simpl in Hfav |- *. exact (Hfav Hh [0] eq_refl).
Qed.

Lemma leaf_paths_differ t p p' a b :
  item_at t p (leaf_of a) -> item_at t p' (leaf_of b) -> a <> b -> p <> p'.
Proof.
  intros (n & Hn & _ & Ha & _) (n' & Hn' & _ & Hb & _) Hab E. subst p'.
  apply Hab. congruence.
Qed.

Lemma generated_tree_leaf items a h :
  In a items -> get_handler a = Some h ->
  let G := _generate_filtered_actions get_icon action_favorites _selection items in
  exists rel k,
    resolve G (ancestor_categories a) = Some rel
    /\ item_at G (rel ++ [k]) (leaf_of a).
Proof.
  intros Hin Hh G. subst G. unfold _generate_filtered_actions.
  destruct (build_tree_leaf items a Hin) as (rel & k & Hres & (L & HL & Hleaf) & _).
  assert (Hhandler : has_handler L = true).
  { unfold has_handler. destruct Hleaf as (_ & _ & ->). now rewrite Hh. }
  destruct (remove_empty_resolve _ _ _ _ _ Hres HL Hhandler) as (p' & k' & Hp' & Hk').
  exists p', k'. split; [exact Hp'|].
  eexists. split; [exact Hk'|]. now rewrite remove_empty_cell.
Qed.

(** Two leaves found by the walks along the categories of their actions
    share the items of the names the categories begin with. *)
Lemma walks_share_prefix X a b shared shared' rest rest' ra rb ka kb :
  ancestor_categories a = shared ++ rest ->
  ancestor_categories b = shared' ++ rest' ->
  map to_lower shared' = map to_lower shared ->
  resolve X (ancestor_categories a) = Some ra ->
  resolve X (ancestor_categories b) = Some rb ->
  item_at X (ra ++ [ka]) (leaf_of a) ->
  item_at X (rb ++ [kb]) (leaf_of b) ->
  shares_prefix X a b shared shared' rest rest'.
Proof.
  intros Ea Eb Elow Hra Hrb Hla Hlb.
  pose proof Hra as Hra'. pose proof Hrb as Hrb'.
  rewrite Ea in Hra'. rewrite Eb in Hrb'.
  destruct (resolve_app _ _ _ _ Hra') as (p & pa & n & Hp & -> & Hn & Hpa).
  destruct (resolve_app _ _ _ _ Hrb') as (p' & pb & n' & Hp' & -> & Hn' & Hpb).
  rewrite (resolve_lower X shared' shared Elow) in Hp'.
  assert (p' = p) as -> by congruence.
  destruct (resolve_texts _ _ _ Hp) as (Hlen & Htexts & _).
  destruct (resolve_texts _ _ _ Hpa) as (Hlena & _).
  destruct (resolve_texts _ _ _ Hpb) as (Hlenb & _).
  rewrite <- !app_assoc in Hla, Hlb.
  exists p, pa, pb, ka, kb.
  split; [exact Hp|].
  split; [now rewrite (resolve_lower X shared' shared Elow)|].
  split; [exact Hlen|]. split; [exact Htexts|].
  split; [exact Hra|]. split; [exact Hrb|].
  split; [exact Hlena|]. split; [exact Hlenb|].
  split; [exact Hla|]. split; [exact Hlb|].
  now apply (leaf_paths_differ X _ _ a b).
Qed.

Lemma favorites_item_built items :
  action_favorites <> [] ->
  item_at (build_tree get_icon action_favorites _selection items) [0]
    (fun c => cell_text c = "Favorites" /\ meta_item c = None).
Proof.
  intros Hne. pose proof (build_tree_extends get_icon action_favorites _selection items)
    as Hext.
  destruct (initial_tree_cases action_favorites) as [(E & _)|(_ & E)];
    [contradiction|].
  rewrite E in Hext. simpl in Hext.
  apply (extends_item_at same_but_selected _ _ [0] _ Hext).
  - intros c c' Hc (Ht & Hi).
    now rewrite <- (same_but_selected_text _ _ Hc), <- (same_but_selected_item _ _ Hc).
  - eexists. split; [reflexivity|]. now split.
Qed.

Lemma favorite_join_join names :
  Forall (fun name => name <> "") names ->
  favorite_join names = join "/" names.
Proof.
  unfold favorite_join. induction 1 as [|x r Hx Hr IH]; [reflexivity|].
  cbn [fold_right]. rewrite IH. destruct r as [|y r']; [reflexivity|].
  inversion Hr as [|? ? Hy _]; subst.
  assert (Hne : is_empty (join "/" (y :: r')) = false).
  { destruct y; [congruence|]. now destruct r'. }
  rewrite Hne. reflexivity.
Qed.

(** C3, amended.  For every action of the list whose category is among the
    favorites, the tree built by the main loop has a leaf of the action
    below "Favorites", the first item below the root.  Its text is "<", the
    texts of the items on the way to the action joined with "/" (a "/" is
    left out before an empty rest), "> " and the text of the action; these
    texts are the categories of the action, letter case apart as
    [String::to_lower] has it.  When the
    action has a handler the leaf is still below "Favorites", the first item
    of the generated tree, once the empty items are removed. *)
Theorem favorite_has_leaf_below_favorites :
  forall (items : list MenuItem) (a : MenuItem),
    In a items ->
    In (category (get_spec a)) action_favorites ->
    let T := build_tree get_icon action_favorites _selection items in
    exists (rel : path) (names : list string) (k : nat),
      resolve T (ancestor_categories a) = Some rel
      /\ names = path_texts T rel
      /\ map to_lower names = map to_lower (ancestor_categories a)
      /\ (Forall (fun name => name <> "") names ->
          favorite_join names = join "/" names)
      /\ item_at T [0] (fun c => cell_text c = "Favorites" /\ meta_item c = None)
      /\ item_at T [0; k] (favorite_leaf_of a names)
      /\ (forall h, get_handler a = Some h ->
            exists favorites others leaf,
              children (_generate_filtered_actions get_icon action_favorites
                          _selection items)
              = favorites :: others
              /\ get_text favorites = "Favorites"
              /\ meta_item (cell favorites) = None
              /\ In leaf (children favorites)
              /\ favorite_leaf_of a names (cell leaf)).
Proof.
  intros items a Hin Hfav T.
  destruct (build_tree_leaf items a Hin) as (rel & _ & Hres & _ & Hleaf).
  destruct (Hleaf Hfav) as (k & Hk). fold T in Hres, Hk.
  assert (Hne : action_favorites <> []) by (intros E; now rewrite E in Hfav).
  pose proof (favorites_item_built items Hne) as HF. fold T in HF.
  destruct (resolve_texts _ _ _ Hres) as (_ & Htexts & _).
  exists rel, (path_texts T rel), k.
  split; [exact Hres|]. split; [reflexivity|]. split; [exact Htexts|].
  split; [apply favorite_join_join|]. split; [exact HF|]. split; [exact Hk|].
  intros h Hh. unfold _generate_filtered_actions. fold T.
  destruct HF as (F & HF & HFtext & HFitem).
  destruct Hk as (L & HL & HLleaf).
  simpl in HF, HL. destruct T as [c kids]. simpl in HF, HL.
  destruct kids as [|F' others]; [discriminate|]. simpl in HF, HL.
  injection HF as ->.
  destruct (nth_error (children F) k) as [L'|] eqn:Ek; [|discriminate].
  injection HL as ->.
  assert (Hhandler : has_handler L = true).
  { unfold has_handler. destruct HLleaf as (_ & _ & ->). now rewrite Hh. }
  destruct (remove_empty_keeps_leaf F L (nth_error_In _ _ Ek) Hhandler)
    as (HinL & Hstays).
  rewrite remove_empty_eq. simpl. rewrite Hstays.
  exists (_remove_empty_action_nodes F),
         (filter stays (map _remove_empty_action_nodes others)),
         (_remove_empty_action_nodes L).
  unfold get_text. rewrite !remove_empty_cell.
  split; [reflexivity|]. split; [exact HFtext|]. split; [exact HFitem|].
  split; [exact HinL | exact HLleaf].
Qed.

(** C5.  The leaf of the action whose category is the stored selection is
    selected by the main loop, in the round that makes the leaf (when
    several actions have that category, the leaf of the last of them): it is
    selected in the tree as built, before the empty items are removed.  The
    removal selects nothing: every item left has the cell it had; and the
    leaf of an action with a handler is still there, selected, below the
    item its categories lead to. *)
Theorem selection_marked_while_building :
  forall (before after : list MenuItem) (a : MenuItem),
    category (get_spec a) = _selection ->
    Forall (fun b => category (get_spec b) <> _selection) after ->
    let T := build_tree get_icon action_favorites _selection
               (before ++ a :: after) in
    let G := _generate_filtered_actions get_icon action_favorites _selection
               (before ++ a :: after) in
    (exists rel k,
        resolve T (ancestor_categories a) = Some rel
        /\ item_at T (rel ++ [k])
             (fun c => leaf_of a c /\ cell_selected c = true))
    /\ (forall n, subitem n G -> exists n0, subitem n0 T /\ cell n = cell n0)
    /\ (forall h, get_handler a = Some h ->
          exists rel k,
            resolve G (ancestor_categories a) = Some rel
            /\ item_at G (rel ++ [k])
                 (fun c => leaf_of a c /\ cell_selected c = true)).
Proof.
  intros before after a Hsel Hafter T G.
  assert (Hleaf : exists rel k,
             resolve T (ancestor_categories a) = Some rel
             /\ item_at T (rel ++ [k])
                  (fun c => leaf_of a c /\ cell_selected c = true)).
  { subst T. rewrite build_tree_eq.
    apply (main_loop_selected get_icon action_favorites _selection _ before a after
             Hsel Hafter _ (initial_tree_valid action_favorites)). }
  split; [exact Hleaf|]. split.
  - intros n Hn. destruct (remove_empty_subitem T n Hn) as (n0 & Hn0 & ->).
    exists n0. split; [exact Hn0 | apply remove_empty_cell].
  - intros h Hh. destruct Hleaf as (rel & k & Hres & L & HL & Hl & Hs).
    assert (Hhandler : has_handler L = true).
    { unfold has_handler. destruct Hl as (_ & _ & ->). now rewrite Hh. }
    destruct (remove_empty_resolve _ _ _ _ _ Hres HL Hhandler)
      as (rel' & k' & Hres' & HL').
    exists rel', k'. split; [exact Hres'|].
    eexists. split; [exact HL'|]. rewrite remove_empty_cell. now split.
Qed.

End LeavesOfTheTree.

Section SampleTrees.

Import GString ActionMenu TreeSpec.

Local Existing Instance Sample.ascii_lowercase.

(** The specification's example: one "Math" with the two leaves below it. *)
Example math_add_and_subtract :
  Sample.outline
    (_generate_filtered_actions Sample.theme [] ""
       [Sample.math_add; Sample.math_subtract])
  = [("Math", ["Add"; "Subtract"])].
Proof. reflexivity. Qed.

(** C3 does not hold as stated, on the specification's own example:
    the text of the leaf below "Favorites" is "<Math> Add", with the angle
    brackets and without a space before them.  And an action without a
    handler has no leaf in the generated tree, below "Favorites" or
    elsewhere. *)
Lemma favorite_leaf_of_example :
  Sample.outline
    (_generate_filtered_actions Sample.theme ["Math/Add"] ""
       [Sample.math_add; Sample.math_subtract])
  = [("Favorites", ["<Math> Add"]); ("Math", ["Add"; "Subtract"])]
  /\ "<Math> Add" <> " <Math> Add"
  /\ "<Math> Add" <> ("Math" ++ "Add")%string
  /\ _generate_filtered_actions Sample.theme ["Math/Add"] ""
       [Sample.action "Math/Add" "Add" false]
     = Item new_cell [].
Proof. repeat split; try reflexivity; discriminate. Qed.

(** The text of a favorite is made of the texts of the items above it, in
    the letter case of the action that created them. *)
Example favorite_text_uses_item_texts :
  Sample.outline
    (_generate_filtered_actions Sample.theme ["math/Subtract"] ""
       [Sample.math_add; Sample.action "math/Subtract" "Subtract" true])
  = [("Favorites", ["<Math> Subtract"]); ("Math", ["Add"; "Subtract"])].
Proof. reflexivity. Qed.

(** A category without a name gives no "/" when it comes last: the
    favorite of the category "Script//Call" has the text "<Script> Call". *)
Example favorite_text_of_empty_name :
  Sample.outline
    (_generate_filtered_actions Sample.theme ["Script//Call"] ""
       [Sample.action "Script//Call" "Call" true])
  = [("Favorites", ["<Script> Call"]); ("Script", [""])]
  /\ favorite_join ["Script"; ""] = "Script"
  /\ join "/" ["Script"; ""] = "Script/".
Proof. repeat split; reflexivity. Qed.

(** The favorite "Math/Add" of the example has its leaf "<Math> Add". *)
Lemma favorite_leaf_witness :
  exists favorites others leaf,
    children (_generate_filtered_actions Sample.theme ["Math/Add"] ""
                [Sample.math_add; Sample.math_subtract])
    = favorites :: others
    /\ In leaf (children favorites)
    /\ meta_item (cell leaf) = Some Sample.math_add.
Proof.
  destruct (favorite_has_leaf_below_favorites Sample.theme ["Math/Add"] ""
              [Sample.math_add; Sample.math_subtract] Sample.math_add)
    as (rel & names & k & _ & _ & _ & _ & _ & _ & H).
  - left. reflexivity.
  - left. reflexivity.
  - destruct (H _ eq_refl) as (f & others & leaf & Hc & _ & _ & Hin & _ & Hitem & _).
    now exists f, others, leaf.
Defined.

(** With the selection "Math/Subtract" the leaf "Subtract" is selected. *)
Lemma selection_witness :
  exists rel k,
    item_at (_generate_filtered_actions Sample.theme [] "Math/Subtract"
               [Sample.math_add; Sample.math_subtract])
            (rel ++ [k])
            (fun c => cell_text c = "Subtract" /\ cell_selected c = true).
Proof.
  destruct (selection_marked_while_building Sample.theme [] "Math/Subtract"
              [Sample.math_add] [] Sample.math_subtract)
    as (_ & _ & H).
  - reflexivity.
  - constructor.
  - destruct (H _ eq_refl) as (rel & k & _ & n & Hn & (Ht & _) & Hs).
    exists rel, k, n. now repeat split.
Defined.

End SampleTrees.

(* ================================================================== *)
(** * Further properties *)

(** ** The favorites and the generated tree *)

Section FavoritesAndTree.

Import GString ActionMenu TreeSpec.

Context {lowercase : Lowercase}.

Variable get_icon : string -> Texture.

Lemma has_same_entries (l l' : list string) x :
  (forall y, In y l <-> In y l') -> Settings.has l x = Settings.has l' x.
Proof.
  intros H. destruct (Settings.has l' x) eqn:E.
  - apply has_In. apply H. now apply has_In.
  - apply has_not_In. intros Hin. apply has_not_In in E. apply E. now apply H.
Qed.

Lemma initial_tree_same_entries (l l' : list string) :
  (forall y, In y l <-> In y l') -> initial_tree l = initial_tree l'.
Proof.
  intros H. destruct l as [|x l], l' as [|x' l']; try reflexivity.
  - exfalso. apply (proj2 (H x')). now left.
  - exfalso. apply (proj1 (H x)). now left.
Qed.

Lemma add_action_same_entries (l l' : list string) _selection favorites t item :
  (forall y, In y l <-> In y l') ->
  add_action get_icon l _selection favorites t item
  = add_action get_icon l' _selection favorites t item.
Proof.
  intros H. unfold add_action.
  now rewrite (has_same_entries l l' _ H).
Qed.

Lemma build_tree_same_entries (l l' : list string) _selection items :
  (forall y, In y l <-> In y l') ->
  build_tree get_icon l _selection items = build_tree get_icon l' _selection items.
Proof.
  intros H. rewrite !build_tree_eq, (initial_tree_same_entries l l' H).
  generalize (fst (initial_tree l')). generalize (snd (initial_tree l')).
  intros favorites. induction items as [|b rest IH]; intros t; [reflexivity|].
  simpl. now rewrite (add_action_same_entries l l' _ _ _ _ H), IH.
Qed.

(** X1. The generated tree depends on the list of favorites only through
    its entries: two lists with the same entries, in any order and with any
    repetitions, give the same tree. *)
Theorem generated_tree_of_same_favorites :
  forall (favorites favorites' : list string) (_selection : string)
         (items : list MenuItem),
    (forall p, In p favorites <-> In p favorites') ->
    _generate_filtered_actions get_icon favorites _selection items
    = _generate_filtered_actions get_icon favorites' _selection items.
Proof.
  intros l l' sel items H. unfold _generate_filtered_actions.
  now rewrite (build_tree_same_entries l l' sel items H).
Qed.

Lemma toggle_twice_Permutation item ps :
  NoDup (Settings.get_action_favorites ps) ->
  Permutation (Settings.get_action_favorites ps)
    (Settings.get_action_favorites
       (toggle_favorite get_icon item (toggle_favorite get_icon item ps))).
Proof.
  intros Hnd. set (p := category (get_spec item)).
  rewrite !toggle_favorite_eq. fold p.
  destruct (Settings.has (Settings.get_action_favorites ps) p) eqn:Hh.
  - apply has_In in Hh as Hin.
    assert (Hgone : Settings.has
                      (Settings.get_action_favorites
                         (Settings.remove_action_favorite p ps)) p = false).
    { apply has_not_In. rewrite get_remove.
      destruct (find_In _ _ Hin) as (i & Hf). rewrite Hf.
      now apply (remove_at_find_NoDup _ p i). }
    rewrite Hgone. now apply add_after_remove_Permutation.
  - apply has_not_In in Hh as Hnot.
    assert (Hnow : Settings.has
                     (Settings.get_action_favorites
                        (Settings.add_action_favorite p ps)) p = true).
    { apply has_In. rewrite get_add, Hh. unfold Settings.push_back.
      apply in_or_app. right. now left. }
    rewrite Hnow, remove_after_add by exact Hnot. apply Permutation_refl.
Qed.

(** X2. Two clicks on the favorite button of an action bring the menu back:
    when the stored favorites have no duplicate, the tree generated from the
    settings after the second click is the tree generated before the
    first. *)
Theorem two_clicks_regenerate_the_same_tree :
  forall (item : MenuItem) (ps : Settings.ProjectSettings)
         (_selection : string) (items : list MenuItem),
    NoDup (Settings.get_action_favorites ps) ->
    _generate_filtered_actions get_icon
      (Settings.get_action_favorites
         (toggle_favorite get_icon item (toggle_favorite get_icon item ps)))
      _selection items
    = _generate_filtered_actions get_icon (Settings.get_action_favorites ps)
        _selection items.
Proof.
  intros item ps sel items Hnd.
  apply generated_tree_of_same_favorites. intros p.
  pose proof (toggle_twice_Permutation item ps Hnd) as Hperm. split.
  - apply Permutation_in. now apply Permutation_sym.
  - now apply Permutation_in.
Qed.

End FavoritesAndTree.

Section FavoritesAndTreeSamples.

Import ActionMenu.

Local Existing Instance Sample.ascii_lowercase.

Lemma generated_tree_of_same_favorites_witness :
  _generate_filtered_actions Sample.theme ["Math/Add"; "Math/Subtract"] ""
    [Sample.math_add; Sample.math_subtract]
  = _generate_filtered_actions Sample.theme
      ["Math/Subtract"; "Math/Add"; "Math/Add"] ""
      [Sample.math_add; Sample.math_subtract].
Proof.
  apply (generated_tree_of_same_favorites Sample.theme).
  intros p. simpl. tauto.
Defined.

Lemma two_clicks_witness :
  _generate_filtered_actions Sample.theme
    (Settings.get_action_favorites
       (toggle_favorite Sample.theme Sample.math_add
          (toggle_favorite Sample.theme Sample.math_add
             {| Settings.action_favorites := Some ["Math/Add"; "Math/Subtract"];
                Settings.journal := [] |})))
    "" [Sample.math_add; Sample.math_subtract]
  = _generate_filtered_actions Sample.theme ["Math/Add"; "Math/Subtract"] ""
      [Sample.math_add; Sample.math_subtract].
Proof.
  apply (two_clicks_regenerate_the_same_tree Sample.theme Sample.math_add
           {| Settings.action_favorites := Some ["Math/Add"; "Math/Subtract"];
              Settings.journal := [] |}).
  simpl. repeat constructor; simpl; intuition discriminate.
Defined.

End FavoritesAndTreeSamples.

(* ================================================================== *)
(** ** Counting the items of the tree *)

Section CountFacts.

Import GString ActionMenu TreeSpec ActionMenuMore.

Context {lowercase : Lowercase}.

Variable get_icon : string -> Texture.
Variable f : Cell -> bool.

Lemma count_cells_Item c kids :
  count_cells f (Item c kids)
  = (if f c then 1 else 0) + list_sum (map (count_cells f) kids).
Proof. reflexivity. Qed.

Lemma list_sum_alter_nth (h : TreeItem -> TreeItem) j kids k :
  nth_error kids j = Some k ->
  list_sum (map (count_cells f) (alter_nth h j kids)) + count_cells f k
  = list_sum (map (count_cells f) kids) + count_cells f (h k).
Proof.
  revert j. induction kids as [|x kids IH]; intros [|j]; simpl; try discriminate.
  - intros [= ->]. lia.
  - intros H. specialize (IH j H). lia.
Qed.

(** Changing one item changes the count by what the change does to the
    count of that item. *)
Lemma count_cells_alter g :
  forall p t n,
    get_item t p = Some n ->
    count_cells f (alter g t p) + count_cells f n
    = count_cells f t + count_cells f (g n).
Proof.
  induction p as [|j p IH]; intros t n; simpl.
  - intros [= ->]. lia.
  - destruct (nth_error (children t) j) as [k|] eqn:Ek; [|discriminate].
    intros Hn. specialize (IH k n Hn). destruct t as [c kids]. simpl in *.
    pose proof (list_sum_alter_nth (fun x => alter g x p) j kids k Ek). lia.
Qed.

Lemma count_cells_create_child t parent c n :
  get_item t parent = Some n ->
  count_cells f (fst (create_child t parent c))
  = count_cells f t + (if f c then 1 else 0).
Proof.
  intros Hn. unfold create_child. simpl.
  pose proof (count_cells_alter
                (fun n => Item (cell n) (children n ++ [Item c []])) parent t n Hn) as H.
  destruct n as [cn kids]. simpl in H.
  rewrite map_app, list_sum_app in H. simpl in H. lia.
Qed.

Lemma count_cells_update_cell u t p n :
  get_item t p = Some n ->
  count_cells f (update_cell u t p) + (if f (cell n) then 1 else 0)
  = count_cells f t + (if f (u (cell n)) then 1 else 0).
Proof.
  intros Hn. unfold update_cell.
  pose proof (count_cells_alter (fun n => Item (u (cell n)) (children n)) p t n Hn) as H.
  destruct n as [cn kids]. simpl in *. lia.
Qed.

Lemma count_cells_create_categories names :
  (forall name, f (category_cell get_icon name) = false) ->
  forall t parent n,
    get_item t parent = Some n ->
    count_cells f (fst (create_categories get_icon t parent names))
    = count_cells f t.
Proof.
  intros Hcat. induction names as [|name rest IH]; intros t parent n Hn;
    [reflexivity|].
  cbn [create_categories].
  pose proof (count_cells_create_child t parent (category_cell get_icon name) n Hn) as Hc.
  destruct (get_created_child t parent (category_cell get_icon name) n Hn)
    as (_ & _ & Hnew).
  destruct (create_child t parent (category_cell get_icon name)) as [t1 parent1].
  cbn [fst snd] in *. rewrite (IH t1 parent1 _ Hnew), Hc, Hcat. lia.
Qed.

Lemma count_cells_walk_categories names :
  (forall name, f (category_cell get_icon name) = false) ->
  forall t parent n,
    get_item t parent = Some n ->
    count_cells f (fst (walk_categories get_icon t parent names))
    = count_cells f t.
Proof.
  intros Hcat. induction names as [|name rest IH]; intros t parent n Hn;
    [reflexivity|].
  cbn [walk_categories]. unfold children_at. rewrite Hn.
  destruct (find_child (children n) name) as [j|] eqn:Ef.
  - destruct (find_child_nth _ _ _ Ef) as (k & Hk & _).
    apply (IH t (parent ++ [j]) k). rewrite get_item_app, Hn. simpl. now rewrite Hk.
  - now apply (count_cells_create_categories (name :: rest) Hcat t parent n).
Qed.

Lemma count_cells_at_least t p n :
  get_item t p = Some n -> f (cell n) = true -> 1 <= count_cells f t.
Proof.
  revert t. induction p as [|j p IH]; intros [c kids]; simpl.
  - intros [= <-]. simpl. intros ->. lia.
  - destruct (nth_error kids j) as [k|] eqn:Ek; [|discriminate].
    intros Hn Hf. specialize (IH k Hn Hf).
    apply nth_error_split in Ek. destruct Ek as (l1 & l2 & -> & _).
    rewrite map_app, list_sum_app. simpl. lia.
Qed.

(** The removal of the empty items adds no item. *)
Lemma count_cells_remove_empty t :
  count_cells f (_remove_empty_action_nodes t) <= count_cells f t.
Proof.
  induction t as [c kids IH] using TreeItem_ind.
  rewrite remove_empty_eq, !count_cells_Item. apply Nat.add_le_mono_l.
  induction IH as [|k kids Hk Hkids IHkids]; [apply Nat.le_refl|].
  simpl. destruct (stays (_remove_empty_action_nodes k)); simpl; lia.
Qed.

End CountFacts.

Section CountMapCells.

Import GString ActionMenu TreeSpec ActionMenuMore.

Context {lowercase : Lowercase}.

Lemma count_cells_ext (f f' : Cell -> bool) t :
  (forall c, f c = f' c) -> count_cells f t = count_cells f' t.
Proof.
  intros H. induction t as [c kids IH] using TreeItem_ind. simpl. rewrite H.
  f_equal. induction IH as [|k kids Hk Hkids IHkids]; [reflexivity|].
  simpl. now rewrite Hk, IHkids.
Qed.

Lemma count_cells_map_cells (f : Cell -> bool) u t :
  count_cells f (map_cells u t) = count_cells (fun c => f (u c)) t.
Proof.
  induction t as [c kids IH] using TreeItem_ind. simpl. f_equal.
  rewrite map_map. induction IH as [|k kids Hk Hkids IHkids]; [reflexivity|].
  simpl. now rewrite Hk, IHkids.
Qed.

Lemma count_cells_none t : count_cells (fun _ => false) t = 0.
Proof.
  induction t as [c kids IH] using TreeItem_ind. simpl.
  induction IH as [|k kids Hk Hkids IHkids]; [reflexivity|].
  simpl. now rewrite Hk, IHkids.
Qed.

End CountMapCells.

(* ================================================================== *)
(** ** One round of the main loop, step by step *)

Section RoundShape.

Import GString ActionMenu TreeSpec ActionMenuMore.

Context {lowercase : Lowercase}.

Variable get_icon : string -> Texture.
Variable action_favorites : list string.
Variable _selection : string.

(** A round of the main loop is: the walk, which gives a tree and the path
    of an item of it; a new last child of that item, with the cell of the
    leaf; its selection when the action is the selection; and a new last
    child of "Favorites" when the action is a favorite. *)
Lemma add_action_shape favorites t item :
  exists t1 rel m,
    walk_categories get_icon t [] (ancestor_categories item) = (t1, rel)
    /\ get_item t1 rel = Some m
    /\ extends eq t t1
    /\ resolve t1 (ancestor_categories item) = Some rel
    /\ get_item (fst (create_child t1 rel (leaf_cell get_icon action_favorites item)))
         (rel ++ [List.length (children m)])
       = Some (Item (leaf_cell get_icon action_favorites item) [])
    /\ add_action get_icon action_favorites _selection favorites t item
       = let t3 := fst (create_child t1 rel
                          (leaf_cell get_icon action_favorites item)) in
         let node := rel ++ [List.length (children m)] in
         let t4 := if String.eqb (category (get_spec item)) _selection
                   then set_selected t3 node else t3 in
         if Settings.has action_favorites (category (get_spec item))
         then match favorites with
              | Some f => fst (_make_item get_icon t4 f item
                                 (_create_favorite_item_text t4 rel item))
              | None => t4
              end
         else t4.
Proof.
  destruct (walk_categories_walked get_icon (ancestor_categories item) t [] t eq_refl)
    as (rel & n' & Hsnd & Hext1 & Hroot & Hres).
  unfold add_action.
  destruct (walk_categories get_icon t [] (ancestor_categories item)) as [t1 parent].
  cbn [fst snd] in *. simpl in Hsnd, Hroot. subst parent. injection Hroot as <-.
  destruct (resolve_texts _ _ _ Hres) as (_ & _ & m & Hm).
  exists t1, rel, m. split; [reflexivity|]. split; [exact Hm|].
  split; [exact Hext1|]. split; [exact Hres|].
  pose proof (update_created_child
                (decorate_leaf get_icon
                   (Settings.has action_favorites (category (get_spec item))))
                t1 rel (make_item_cell get_icon item (text (get_spec item))) m Hm)
    as Hupd.
  destruct (get_created_child t1 rel
              (make_item_cell get_icon item (text (get_spec item))) m Hm)
    as (_ & Hpath & _).
  destruct (get_created_child t1 rel (leaf_cell get_icon action_favorites item) m Hm)
    as (_ & Hpath' & Hnew).
  rewrite Hpath' in Hnew. split; [exact Hnew|].
  unfold _make_item at 1.
  destruct (create_child t1 rel (make_item_cell get_icon item (text (get_spec item))))
    as [t2 node].
  cbn [fst snd] in Hupd, Hpath. subst node. rewrite Hupd. reflexivity.
Qed.

End RoundShape.

(* ================================================================== *)
(** ** How many leaves, how many selected rows *)

Section LeavesAndSelection.

Import GString ActionMenu TreeSpec ActionMenuMore.

Context {lowercase : Lowercase}.

Variable get_icon : string -> Texture.
Variable action_favorites : list string.
Variable _selection : string.

Lemma count_selected_set_selected t p n :
  get_item t p = Some n ->
  count_cells cell_selected (set_selected t p) = 1.
Proof.
  intros Hn. unfold set_selected.
  assert (H : get_item (map_cells (set_cell_selected false) t) p
              = Some (map_cells (set_cell_selected false) n))
    by (rewrite get_item_map_cells, Hn; reflexivity).
  pose proof (count_cells_update_cell cell_selected (set_cell_selected true)
                _ p _ H) as Hc.
  assert (E : count_cells cell_selected (map_cells (set_cell_selected false) t) = 0).
  { rewrite count_cells_map_cells, <- (count_cells_none t).
    now apply count_cells_ext. }
  rewrite E in Hc. destruct n as [c kids]. simpl in Hc. lia.
Qed.

Lemma count_items_set_selected g t p n :
  get_item t p = Some n ->
  count_cells (item_passes g) (set_selected t p) = count_cells (item_passes g) t.
Proof.
  intros Hn. unfold set_selected.
  assert (H : get_item (map_cells (set_cell_selected false) t) p
              = Some (map_cells (set_cell_selected false) n))
    by (rewrite get_item_map_cells, Hn; reflexivity).
  pose proof (count_cells_update_cell (item_passes g) (set_cell_selected true)
                _ p _ H) as Hc.
  assert (E : count_cells (item_passes g) (map_cells (set_cell_selected false) t)
              = count_cells (item_passes g) t).
  { rewrite count_cells_map_cells. now apply count_cells_ext. }
  rewrite E in Hc. destruct n as [c kids]. simpl in Hc.
  change (item_passes g (set_cell_selected true (set_cell_selected false c)))
    with (item_passes g c) in Hc.
  change (item_passes g (set_cell_selected false c)) with (item_passes g c) in Hc.
  lia.
Qed.

Lemma item_passes_leaf_cell g item :
  item_passes g (leaf_cell get_icon action_favorites item) = g item.
Proof.
  unfold item_passes, leaf_cell, decorate_leaf. simpl.
  now rewrite make_item_cell_is_leaf.
Qed.

Lemma item_passes_make_item_cell g item txt :
  item_passes g (make_item_cell get_icon item txt) = g item.
Proof. unfold item_passes. now rewrite make_item_cell_is_leaf. Qed.

Lemma cell_selected_make_item_cell item txt :
  cell_selected (make_item_cell get_icon item txt) = false.
Proof. unfold make_item_cell. now destruct (get_handler item). Qed.

Lemma cell_selected_leaf_cell item :
  cell_selected (leaf_cell get_icon action_favorites item) = false.
Proof.
  unfold leaf_cell, decorate_leaf. simpl. apply cell_selected_make_item_cell.
Qed.

(** A round adds one leaf with the menu item, and a second one for a
    favorite. *)
Lemma add_action_count_items g favorites t item :
  favorites_valid favorites t ->
  count_cells (item_passes g)
    (add_action get_icon action_favorites _selection favorites t item)
  = count_cells (item_passes g) t
    + (if g item then 1 else 0)
    + (if Settings.has action_favorites (category (get_spec item))
       then match favorites with
            | Some _ => if g item then 1 else 0
            | None => 0
            end
       else 0).
Proof.
  intros Hv.
  destruct (add_action_shape get_icon action_favorites _selection favorites t item)
    as (t1 & rel & m & Hwalk & Hm & Hext & _ & Hnode & ->).
  pose proof (count_cells_walk_categories get_icon (item_passes g)
                (ancestor_categories item) (fun _ => eq_refl) t [] t eq_refl) as H1.
  rewrite Hwalk in H1. cbn [fst] in H1.
  pose proof (count_cells_create_child (item_passes g) t1 rel
                (leaf_cell get_icon action_favorites item) m Hm) as H3.
  rewrite item_passes_leaf_cell in H3.
  set (t3 := fst (create_child t1 rel _)) in *.
  set (node := rel ++ [List.length (children m)]) in *.
  cbv zeta.
  set (t4 := if String.eqb _ _ then _ else _).
  assert (H4 : count_cells (item_passes g) t4 = count_cells (item_passes g) t3).
  { subst t4. destruct (String.eqb _ _); [|reflexivity].
    apply (count_items_set_selected g t3 node _ Hnode). }
  assert (Hext4 : extends same_but_selected t t4).
  { apply (extends_same_trans t t1); [now apply extends_eq_same_but_selected|].
    apply (extends_same_trans t1 t3);
      [apply extends_eq_same_but_selected, extends_create_child|].
    subst t4. destruct (String.eqb _ _).
    - apply (set_selected_spec t3 node _ Hnode).
    - apply extends_refl. exact same_but_selected_refl. }
  destruct (Settings.has _ _); [|lia].
  destruct favorites as [fv|]; [|lia].
  destruct (Hv fv eq_refl) as (fn & Hfn).
  destruct (extends_get_item _ _ _ _ _ Hext4 Hfn) as (fn' & Hfn' & _).
  unfold _make_item.
  rewrite (count_cells_create_child (item_passes g) t4 fv _ fn' Hfn').
  rewrite item_passes_make_item_cell. lia.
Qed.

(** A round selects the leaf of the action that is the selection and
    leaves the selected rows alone otherwise. *)
Lemma add_action_count_selected favorites t item :
  favorites_valid favorites t ->
  count_cells cell_selected
    (add_action get_icon action_favorites _selection favorites t item)
  = if String.eqb (category (get_spec item)) _selection then 1
    else count_cells cell_selected t.
Proof.
  intros Hv.
  destruct (add_action_shape get_icon action_favorites _selection favorites t item)
    as (t1 & rel & m & Hwalk & Hm & Hext & _ & Hnode & ->).
  pose proof (count_cells_walk_categories get_icon cell_selected
                (ancestor_categories item) (fun _ => eq_refl) t [] t eq_refl) as H1.
  rewrite Hwalk in H1. cbn [fst] in H1.
  pose proof (count_cells_create_child cell_selected t1 rel
                (leaf_cell get_icon action_favorites item) m Hm) as H3.
  rewrite cell_selected_leaf_cell in H3.
  set (t3 := fst (create_child t1 rel _)) in *.
  set (node := rel ++ [List.length (children m)]) in *.
  cbv zeta.
  set (t4 := if String.eqb _ _ then _ else _).
  assert (H4 : count_cells cell_selected t4
               = if String.eqb (category (get_spec item)) _selection then 1
                 else count_cells cell_selected t).
  { subst t4. destruct (String.eqb _ _); [|lia].
    apply (count_selected_set_selected t3 node _ Hnode). }
  assert (Hext4 : extends same_but_selected t t4).
  { apply (extends_same_trans t t1); [now apply extends_eq_same_but_selected|].
    apply (extends_same_trans t1 t3);
      [apply extends_eq_same_but_selected, extends_create_child|].
    subst t4. destruct (String.eqb _ _).
    - apply (set_selected_spec t3 node _ Hnode).
    - apply extends_refl. exact same_but_selected_refl. }
  destruct (Settings.has _ _); [|exact H4].
  destruct favorites as [fv|]; [|exact H4].
  destruct (Hv fv eq_refl) as (fn & Hfn).
  destruct (extends_get_item _ _ _ _ _ Hext4 Hfn) as (fn' & Hfn' & _).
  unfold _make_item.
  rewrite (count_cells_create_child cell_selected t4 fv _ fn' Hfn').
  rewrite cell_selected_make_item_cell, H4. lia.
Qed.

Lemma favorites_valid_add_action favorites t item :
  favorites_valid favorites t ->
  favorites_valid favorites
    (add_action get_icon action_favorites _selection favorites t item).
Proof.
  intros Hv. apply (favorites_valid_extends favorites t); [|exact Hv].
  apply (add_action_spec get_icon action_favorites _selection favorites t item Hv).
Qed.

Lemma main_loop_count_items g favorites items :
  (action_favorites <> [] -> favorites <> None) ->
  forall t, favorites_valid favorites t ->
    count_cells (item_passes g)
      (fold_left (add_action get_icon action_favorites _selection favorites) items t)
    = count_cells (item_passes g) t
      + List.length (filter g items)
      + List.length
          (filter (fun item =>
                     g item && Settings.has action_favorites (category (get_spec item)))
                  items).
Proof.
  intros Hfav. induction items as [|b rest IH]; intros t Hv; simpl; [lia|].
  rewrite IH by now apply favorites_valid_add_action.
  rewrite (add_action_count_items g favorites t b Hv).
  destruct (Settings.has action_favorites (category (get_spec b))) eqn:Hh.
  - destruct favorites as [fv|].
    + destruct (g b); simpl; lia.
    + exfalso. apply Hfav; [|reflexivity]. intros E. rewrite E in Hh. discriminate.
  - rewrite andb_false_r. destruct (g b); simpl; lia.
Qed.

Lemma main_loop_count_selected favorites items :
  forall t, favorites_valid favorites t ->
    count_cells cell_selected
      (fold_left (add_action get_icon action_favorites _selection favorites) items t)
    = if existsb (fun item => String.eqb (category (get_spec item)) _selection) items
      then 1 else count_cells cell_selected t.
Proof.
  induction items as [|b rest IH]; intros t Hv; simpl; [reflexivity|].
  rewrite IH by now apply favorites_valid_add_action.
  rewrite (add_action_count_selected favorites t b Hv).
  destruct (String.eqb (category (get_spec b)) _selection); simpl;
    [|reflexivity].
  now destruct (existsb _ rest).
Qed.

Lemma initial_tree_counts f :
  f new_cell = false -> f favorites_cell = false ->
  count_cells f (fst (initial_tree action_favorites)) = 0.
Proof.
  intros Hr Hf.
  destruct (initial_tree_cases action_favorites) as [(_ & ->)|(_ & ->)]; simpl;
    rewrite ?Hr, ?Hf; reflexivity.
Qed.

(** X3. Every action of the list has one leaf in the tree built by the main
    loop, and a favorite one more below "Favorites", and the tree has no
    other leaf: for any test [g] on menu items, the items of the tree whose
    menu item passes [g] are as many as the actions of the list that pass
    it, plus the favorites among these.  The generated tree, from which the
    empty items are removed, has no more. *)
Theorem one_leaf_for_each_action :
  forall (g : MenuItem -> bool) (items : list MenuItem),
    count_cells (item_passes g)
      (build_tree get_icon action_favorites _selection items)
    = List.length (filter g items)
      + List.length
          (filter (fun item =>
                     g item && Settings.has action_favorites (category (get_spec item)))
                  items)
    /\ count_cells (item_passes g)
         (_generate_filtered_actions get_icon action_favorites _selection items)
       <= List.length (filter g items)
          + List.length
              (filter (fun item =>
                         g item
                         && Settings.has action_favorites (category (get_spec item)))
                      items).
Proof.
  intros g items.
  assert (H : count_cells (item_passes g)
                (build_tree get_icon action_favorites _selection items)
              = List.length (filter g items)
                + List.length
                    (filter (fun item =>
                               g item
                               && Settings.has action_favorites
                                    (category (get_spec item)))
                            items)).
  { rewrite build_tree_eq, main_loop_count_items.
    - rewrite initial_tree_counts by reflexivity. lia.
    - intros Hne. destruct (initial_tree_cases action_favorites) as [(E & _)|(_ & ->)];
        [contradiction | discriminate].
    - apply initial_tree_valid. }
  split; [exact H|]. rewrite <- H. apply count_cells_remove_empty.
Qed.

Lemma build_tree_count_selected items :
  count_cells cell_selected
    (build_tree get_icon action_favorites _selection items)
  = (if existsb (fun item => String.eqb (category (get_spec item)) _selection)
                items
     then 1 else 0).
Proof.
  rewrite build_tree_eq, main_loop_count_selected by apply initial_tree_valid.
  now rewrite initial_tree_counts by reflexivity.
Qed.

(** The leaf of the last action with the selected category is in the
    generated tree, selected, when the action has a handler. *)
Lemma generated_selected_leaf before a after h :
  category (get_spec a) = _selection ->
  Forall (fun b => category (get_spec b) <> _selection) after ->
  get_handler a = Some h ->
  exists rel k,
    resolve (_generate_filtered_actions get_icon action_favorites _selection
               (before ++ a :: after))
            (ancestor_categories a) = Some rel
    /\ item_at (_generate_filtered_actions get_icon action_favorites _selection
                  (before ++ a :: after)) (rel ++ [k])
         (fun c => leaf_of a c /\ cell_selected c = true).
Proof.
  intros Hsel Hafter Hh. unfold _generate_filtered_actions.
  assert (Hleaf : exists rel k,
             resolve (build_tree get_icon action_favorites _selection
                        (before ++ a :: after))
                     (ancestor_categories a) = Some rel
             /\ item_at (build_tree get_icon action_favorites _selection
                           (before ++ a :: after)) (rel ++ [k])
                  (fun c => leaf_of a c /\ cell_selected c = true)).
  { rewrite build_tree_eq.
    apply (main_loop_selected get_icon action_favorites _selection _ before a
             after Hsel Hafter _ (initial_tree_valid action_favorites)). }
  destruct Hleaf as (rel & k & Hres & L & HL & Hl & Hs).
  assert (Hhandler : has_handler L = true).
  { unfold has_handler. destruct Hl as (_ & _ & ->). now rewrite Hh. }
  destruct (remove_empty_resolve _ _ _ _ _ Hres HL Hhandler)
    as (rel' & k' & Hres' & HL').
  exists rel', k'. split; [exact Hres'|].
  eexists. split; [exact HL'|]. rewrite remove_empty_cell. now split.
Qed.

Lemma generated_count_selected_le items :
  count_cells cell_selected
    (_generate_filtered_actions get_icon action_favorites _selection items)
  <= (if existsb (fun item => String.eqb (category (get_spec item)) _selection)
                 items
      then 1 else 0).
Proof. rewrite <- build_tree_count_selected. apply count_cells_remove_empty. Qed.

Lemma generated_count_selected_one before a after h :
  category (get_spec a) = _selection ->
  Forall (fun b => category (get_spec b) <> _selection) after ->
  get_handler a = Some h ->
  count_cells cell_selected
    (_generate_filtered_actions get_icon action_favorites _selection
       (before ++ a :: after))
  = 1.
Proof.
  intros Hsel Hafter Hh.
  pose proof (generated_count_selected_le (before ++ a :: after)) as Hle.
  assert (Hex : existsb (fun item => String.eqb (category (get_spec item)) _selection)
                  (before ++ a :: after) = true).
  { apply existsb_exists. exists a. split; [apply in_elt|].
    now apply String.eqb_eq. }
  rewrite Hex in Hle.
  destruct (generated_selected_leaf before a after h Hsel Hafter Hh)
    as (rel & k & _ & L & HL & _ & Hs).
  pose proof (count_cells_at_least cell_selected _ _ _ HL Hs) as Hge.
  lia.
Qed.

(** X4. At most one row of the menu is selected: in the tree built by the
    main loop and in the generated tree, which has no more selected rows
    than the built one.  No row is selected when no action of the list has
    the selection as its category, and exactly one row of the generated
    tree is when the last such action has a handler. *)
Theorem one_row_selected :
  forall (items : list MenuItem),
    count_cells cell_selected
      (_generate_filtered_actions get_icon action_favorites _selection items)
    <= count_cells cell_selected
         (build_tree get_icon action_favorites _selection items)
    /\ count_cells cell_selected
         (build_tree get_icon action_favorites _selection items) <= 1
    /\ (Forall (fun item => category (get_spec item) <> _selection) items ->
        count_cells cell_selected
          (build_tree get_icon action_favorites _selection items) = 0)
    /\ (forall before a after h,
          items = before ++ a :: after ->
          category (get_spec a) = _selection ->
          Forall (fun b => category (get_spec b) <> _selection) after ->
          get_handler a = Some h ->
          count_cells cell_selected
            (_generate_filtered_actions get_icon action_favorites _selection items)
          = 1).
Proof.
  intros items. split; [apply count_cells_remove_empty|]. split; [|split].
  - rewrite build_tree_count_selected. destruct (existsb _ _); lia.
  - intros Hnone. rewrite build_tree_count_selected.
    destruct (existsb _ _) eqn:E; [|reflexivity].
    apply existsb_exists in E. destruct E as (item & Hin & E).
    apply String.eqb_eq in E. rewrite Forall_forall in Hnone.
    now destruct (Hnone item Hin).
  - intros before a after h -> Hsel Hafter Hh.
    now apply generated_count_selected_one with (h := h).
Qed.

End LeavesAndSelection.

Section LeavesAndSelectionSamples.

Import ActionMenu ActionMenuMore.

Local Existing Instance Sample.ascii_lowercase.

(** With the selection "Math/Subtract" one row of the sample menu is
    selected. *)
Lemma one_row_selected_witness :
  count_cells cell_selected
    (_generate_filtered_actions Sample.theme [] "Math/Subtract"
       [Sample.math_add; Sample.math_subtract])
  = 1.
Proof.
  apply (proj2 (proj2 (proj2 (one_row_selected Sample.theme [] "Math/Subtract"
                                [Sample.math_add; Sample.math_subtract])))
           [Sample.math_add] Sample.math_subtract []
           {| get_class := "OrchestratorGraphNodeSpawner" |} eq_refl eq_refl).
  - constructor.
  - reflexivity.
Defined.

End LeavesAndSelectionSamples.

(* ================================================================== *)
(** ** The search box, the depth of a leaf *)

Section SearchAndDepth.

Import GString ActionMenu TreeSpec ActionMenuMore.

Context {lowercase : Lowercase}.

Variable get_icon : string -> Texture.

Lemma first_leaf_spec t :
  exists n, get_item t (first_leaf t) = Some n /\ children n = [].
Proof.
  induction t as [c kids IH] using TreeItem_ind.
  destruct kids as [|k kids]; simpl.
  - now exists (Item c []).
  - inversion IH as [|? ? Hk _]; subst. exact Hk.
Qed.

Lemma get_item_below t j p n : get_item t (j :: p) = Some n -> below n t.
Proof.
  simpl. destruct (nth_error (children t) j) as [k|] eqn:Ek; [|discriminate].
  intros Hn. exists k. split; [now apply nth_error_In in Ek|].
  now apply (get_item_subitem k p).
Qed.

(** An item without children below the root of a generated tree carries
    an action with its handler. *)
Lemma generated_leaf_has_handler action_favorites _selection items n :
  below n (_generate_filtered_actions get_icon action_favorites _selection items) ->
  children n = [] ->
  exists item h,
    meta_item (cell n) = Some item /\ get_handler item = Some h
    /\ meta_handler (cell n) = Some h.
Proof.
  intros Hn Hkids. unfold _generate_filtered_actions in Hn.
  destruct (remove_empty_below _ _ Hn) as [Hne|Hh]; [contradiction|].
  assert (Hsub : subitem n (_remove_empty_action_nodes
                              (build_tree get_icon action_favorites _selection items)))
    by (apply subitem_cases; now right).
  pose proof (all_cells_remove_empty handler_of_item _
                (handler_of_item_build get_icon action_favorites _selection items)
                n Hsub) as Hcell.
  unfold has_handler in Hh.
  destruct (meta_handler (cell n)) as [h|] eqn:Eh; [|discriminate].
  destruct (Hcell h Eh) as (item & Hitem & Hhandler). now exists item, h.
Qed.


Lemma split_length sep s :
  List.length (split sep s) = S (count_char sep s).
Proof.
  induction s as [|c r IH]; simpl; [reflexivity|].
  destruct (Ascii.eqb c sep); simpl; [now rewrite IH|].
  pose proof (split_not_nil sep r) as Hnil.
  destruct (split sep r) as [|x l]; [congruence|]. exact IH.
Qed.

Lemma removelast_length {A} (l : list A) :
  List.length (removelast l) = pred (List.length l).
Proof.
  induction l as [|x l IH]; [reflexivity|].
  destruct l as [|y l]; [reflexivity|].
  change (removelast (x :: y :: l)) with (x :: removelast (y :: l)).
  simpl List.length in *. now rewrite IH.
Qed.

Lemma ancestor_categories_length item :
  List.length (ancestor_categories item)
  = count_char "/" (category (get_spec item)).
Proof.
  unfold ancestor_categories. now rewrite removelast_length, split_length.
Qed.

(** X6. The leaf of an action lies as deep as its category has names: one
    level below the root for each "/" of the category, and one more.  This
    holds for any category, with empty names or with a "/" at either end,
    in the tree built by the main loop and, for an action with a handler, in
    the generated tree. *)
Theorem leaf_depth_is_number_of_names :
  forall (action_favorites : list string) (_selection : string)
         (items : list MenuItem) (a : MenuItem),
    In a items ->
    (exists p,
        item_at (build_tree get_icon action_favorites _selection items) p (leaf_of a)
        /\ List.length p = S (count_char "/" (category (get_spec a))))
    /\ (forall h, get_handler a = Some h ->
          exists p,
            item_at (_generate_filtered_actions get_icon action_favorites
                       _selection items) p (leaf_of a)
            /\ List.length p = S (count_char "/" (category (get_spec a)))).
Proof.
  intros favs sel items a Hin. split.
  - destruct (build_tree_leaf get_icon favs sel items a Hin)
      as (rel & k & Hres & Hleaf & _).
    destruct (resolve_texts _ _ _ Hres) as (Hlen & _).
    exists (rel ++ [k]). split; [exact Hleaf|].
    rewrite length_app, Hlen, ancestor_categories_length. simpl. lia.
  - intros h Hh.
    destruct (generated_tree_leaf get_icon favs sel items a h Hin Hh)
      as (rel & k & Hres & Hleaf).
    destruct (resolve_texts _ _ _ Hres) as (Hlen & _).
    exists (rel ++ [k]). split; [exact Hleaf|].
    rewrite length_app, Hlen, ancestor_categories_length. simpl. lia.
Qed.

End SearchAndDepth.

Section SearchAndDepthSamples.

Import ActionMenu TreeSpec ActionMenuMore.

Local Existing Instance Sample.ascii_lowercase.


(** The action of the category "Script//Call" lies three levels down. *)
Lemma leaf_depth_witness :
  exists p,
    item_at (build_tree Sample.theme [] "" [Sample.action "Script//Call" "Call" true])
      p (leaf_of (Sample.action "Script//Call" "Call" true))
    /\ List.length p = 3.
Proof.
  apply (proj1 (leaf_depth_is_number_of_names Sample.theme [] ""
                  [Sample.action "Script//Call" "Call" true]
                  (Sample.action "Script//Call" "Call" true)
                  (or_introl eq_refl))).
Defined.

End SearchAndDepthSamples.

(* ================================================================== *)
(** ** Applying the selection to the items of the tree *)

Section ApplySelection.

Import GString ActionMenu TreeSpec ActionMenuMore.

Context {lowercase : Lowercase}.

Variable _selection : string.

Lemma apply_selection_applied n :
  forall here tree,
    applied_to _selection n here tree (_apply_selection _selection n here tree).
Proof.
  induction n as [c kids IH] using TreeItem_ind. intros here tree.
  cbn [_apply_selection].
  destruct (is_selection _selection c) eqn:Ec.
  - left. split; [reflexivity|]. exists [], (Item c kids).
    rewrite app_nil_r. now repeat split.
  - (* the loop over the children, from any index on *)
    assert (Hloop : forall j,
      let r := (fix loop (j : nat) (l : list TreeItem) (tree : TreeItem)
                  : TreeItem * bool :=
                  match l with
                  | [] => (tree, false)
                  | child :: next =>
                      let '(tree', applied) :=
                        _apply_selection _selection child (here ++ [j]) tree in
                      if applied then (tree', true) else loop (S j) next tree'
                  end) j kids tree in
      (snd r = true
       /\ exists i k q x,
            nth_error kids i = Some k /\ get_item k q = Some x
            /\ is_selection _selection (cell x) = true
            /\ fst r = set_selected tree (here ++ (j + i) :: q))
      \/ (snd r = false /\ fst r = tree
          /\ forall i k q x, nth_error kids i = Some k -> get_item k q = Some x ->
                             is_selection _selection (cell x) = false)).
    { induction IH as [|k kids Hk Hkids IHkids]; intros j; cbn zeta.
      - right. split; [reflexivity|]. split; [reflexivity|].
        intros [|i] k q x; discriminate.
      - destruct (Hk (here ++ [j]) tree) as [(Ht & q & x & Hx & Hm & Hr)
                                            |(Hf & Hr & Hnone)];
          destruct (_apply_selection _selection k (here ++ [j]) tree)
            as [tree' applied]; cbn [fst snd] in *; subst applied.
        + left. split; [reflexivity|]. exists 0, k, q, x.
          rewrite Nat.add_0_r, <- app_assoc in *. now repeat split.
        + subst tree'. destruct (IHkids (S j)) as [(Ht & i & k' & q & x & Hi & Hx & Hm & Hr)
                                                  |(Hf & Hr & Hnone')].
          * left. split; [exact Ht|]. exists (S i), k', q, x.
            replace (j + S i) with (S j + i) by lia. now repeat split.
          * right. split; [exact Hf|]. split; [exact Hr|].
            intros [|i] k' q x; simpl.
            -- intros [= <-]. apply Hnone.
            -- apply Hnone'. }
    destruct (Hloop 0) as [(Ht & i & k & q & x & Hi & Hx & Hm & Hr)
                          |(Hf & Hr & Hnone)].
    + left. split; [exact Ht|]. exists (i :: q), x. simpl. rewrite Hi.
      now repeat split.
    + right. split; [exact Hf|]. split; [exact Hr|].
      intros [|i q] x; simpl.
      * intros [= <-]. exact Ec.
      * destruct (nth_error kids i) as [k|] eqn:Ei; [|discriminate].
        now apply (Hnone i k q x).
Qed.


End ApplySelection.

Section ApplySelectionSamples.

Import GString ActionMenu TreeSpec ActionMenuMore.

Local Existing Instance Sample.ascii_lowercase.


End ApplySelectionSamples.

(* ================================================================== *)
(** ** The order of the leaves *)

Section LeafOrder.

Import GString ActionMenu TreeSpec ActionMenuMore.

Context {lowercase : Lowercase}.

Variable get_icon : string -> Texture.
Variable action_favorites : list string.
Variable _selection : string.

(** The leaf a round makes is a new item: its path was not a path of the
    tree before the round. *)
Lemma add_action_fresh favorites t item :
  favorites_valid favorites t ->
  let t' := add_action get_icon action_favorites _selection favorites t item in
  exists rel k,
    resolve t' (ancestor_categories item) = Some rel
    /\ item_at t' (rel ++ [k]) (leaf_of item)
    /\ get_item t (rel ++ [k]) = None
    /\ extends same_but_selected t t'.
Proof.
  intros Hv t'. subst t'.
  pose proof (add_action_spec get_icon action_favorites _selection favorites t item Hv)
    as (HextT & _).
  destruct (add_action_shape get_icon action_favorites _selection favorites t item)
    as (t1 & rel & m & Hwalk & Hm & Hext & Hres & Hnode & E).
  rewrite E in *. clear E. cbv zeta in *.
  set (t3 := fst (create_child t1 rel _)) in *.
  set (node := rel ++ [List.length (children m)]) in *.
  set (t4 := if String.eqb _ _ then _ else _) in *.
  assert (H13 : extends same_but_selected t1 t3)
    by apply extends_eq_same_but_selected, extends_create_child.
  assert (H34 : extends same_but_selected t3 t4).
  { subst t4. destruct (String.eqb _ _).
    - apply (set_selected_spec t3 node _ Hnode).
    - apply extends_refl. exact same_but_selected_refl. }
  set (t5 := if Settings.has _ _ then _ else _) in *.
  assert (H45 : extends same_but_selected t4 t5).
  { subst t5. destruct (Settings.has _ _);
      [|apply extends_refl; exact same_but_selected_refl].
    destruct favorites as [fv|]; [|apply extends_refl; exact same_but_selected_refl].
    unfold _make_item. apply extends_eq_same_but_selected, extends_create_child. }
  assert (H15 : extends same_but_selected t1 t5).
  { apply (extends_same_trans t1 t3 _ H13).
    now apply (extends_same_trans t3 t4). }
  exists rel, (List.length (children m)). fold node.
  split; [apply (extends_resolve same_but_selected same_but_selected_text
                   t1 t5 _ _ H15 Hres)|].
  split.
  { apply (extends_item_at same_but_selected t3 t5 node).
    - now apply (extends_same_trans t3 t4).
    - intros c c' Hc. now apply leaf_of_same.
    - eexists. split; [exact Hnode|]. apply leaf_of_decorated. }
  split; [|exact HextT].
  destruct (get_item t node) as [x|] eqn:Ex; [|reflexivity]. exfalso.
  destruct (extends_get_item eq t t1 node x Hext Ex) as (x' & Hx' & _).
  unfold node in Hx'. rewrite get_item_app, Hm in Hx'. simpl in Hx'.
  assert (En : nth_error (children m) (List.length (children m)) = None)
    by (apply nth_error_None; lia).
  rewrite En in Hx'. discriminate.
Qed.

Lemma main_loop_order favorites before a between b after :
  forall t, favorites_valid favorites t ->
    let T := fold_left (add_action get_icon action_favorites _selection favorites)
               (before ++ a :: between ++ b :: after) t in
    exists ra ka rb kb,
      resolve T (ancestor_categories a) = Some ra
      /\ get_item T (ra ++ [ka]) <> None
      /\ item_at T (ra ++ [ka]) (leaf_of a)
      /\ resolve T (ancestor_categories b) = Some rb
      /\ item_at T (rb ++ [kb]) (leaf_of b)
      /\ (ra = rb -> ka < kb).
Proof.
  intros t Hv T. subst T.
  rewrite fold_left_app. cbn [fold_left]. rewrite fold_left_app. cbn [fold_left].
  set (t0 := fold_left _ before t).
  assert (Hv0 : favorites_valid favorites t0).
  { apply (favorites_valid_extends favorites t); [|exact Hv].
    now apply main_loop_extends. }
  destruct (add_action_fresh favorites t0 a Hv0) as (ra & ka & Hra & Hla & _ & Hexta).
  set (ta := add_action get_icon action_favorites _selection favorites t0 a) in *.
  assert (Hva : favorites_valid favorites ta)
    by now apply (favorites_valid_extends favorites t0).
  pose proof (main_loop_extends get_icon action_favorites _selection favorites
                between ta Hva) as Hextm.
  set (tm := fold_left _ between ta) in *.
  assert (Hvm : favorites_valid favorites tm)
    by now apply (favorites_valid_extends favorites ta).
  destruct (add_action_fresh favorites tm b Hvm) as (rb & kb & Hrb & Hlb & Hfresh & Hextb).
  set (tb := add_action get_icon action_favorites _selection favorites tm b) in *.
  assert (Hvb : favorites_valid favorites tb)
    by now apply (favorites_valid_extends favorites tm).
  pose proof (main_loop_extends get_icon action_favorites _selection favorites
                after tb Hvb) as HextT.
  set (T := fold_left _ after tb) in *.
  assert (HaT : extends same_but_selected ta T).
  { apply (extends_same_trans ta tm _ Hextm).
    now apply (extends_same_trans tm tb). }
  assert (HlaT : item_at T (ra ++ [ka]) (leaf_of a)).
  { apply (extends_item_at same_but_selected ta T _ _ HaT); [|exact Hla].
    intros c c' Hc. now apply leaf_of_same. }
  exists ra, ka, rb, kb.
  split; [apply (extends_resolve same_but_selected same_but_selected_text
                   ta T _ _ HaT Hra)|].
  split; [destruct HlaT as (x & -> & _); discriminate|].
  split; [exact HlaT|].
  split; [apply (extends_resolve same_but_selected same_but_selected_text
                   tb T _ _ HextT Hrb)|].
  split.
  { apply (extends_item_at same_but_selected tb T _ _ HextT); [|exact Hlb].
    intros c c' Hc. now apply leaf_of_same. }
  intros <-.
  assert (Hlam : item_at tm (ra ++ [ka]) (leaf_of a)).
  { apply (extends_item_at same_but_selected ta tm _ _ Hextm); [|exact Hla].
    intros c c' Hc. now apply leaf_of_same. }
  destruct Hlam as (x & Hx & _).
  rewrite get_item_app in Hx, Hfresh.
  destruct (get_item tm ra) as [mm|]; [|discriminate].
  simpl in Hx, Hfresh.
  destruct (nth_error (children mm) ka) as [xa|] eqn:Ea; [|discriminate].
  assert (Hka : ka < List.length (children mm))
    by (apply nth_error_Some; congruence).
  destruct (nth_error (children mm) kb) as [xb|] eqn:Eb; [discriminate|].
  apply nth_error_None in Eb. lia.
Qed.

(** Two children that stay keep their order among the children that stay. *)
Lemma stays_keeps_order kids ka kb la lb :
  nth_error kids ka = Some la -> nth_error kids kb = Some lb -> ka < kb ->
  stays (_remove_empty_action_nodes la) = true ->
  stays (_remove_empty_action_nodes lb) = true ->
  exists ka' kb',
    nth_error (filter stays (map _remove_empty_action_nodes kids)) ka'
    = Some (_remove_empty_action_nodes la)
    /\ nth_error (filter stays (map _remove_empty_action_nodes kids)) kb'
       = Some (_remove_empty_action_nodes lb)
    /\ ka' < kb'.
Proof.
  intros Ha Hb Hlt Hsa Hsb.
  apply nth_error_split in Ha. destruct Ha as (l1 & l2 & -> & Hl1).
  rewrite nth_error_app2 in Hb by lia.
  replace (kb - List.length l1) with (S (kb - S (List.length l1))) in Hb by lia.
  simpl in Hb. apply nth_error_split in Hb. destruct Hb as (l3 & l4 & -> & _).
  rewrite map_app, filter_app. cbn [map filter]. rewrite Hsa.
  rewrite map_app, filter_app. cbn [map filter]. rewrite Hsb.
  set (f1 := filter stays (map _remove_empty_action_nodes l1)).
  set (f3 := filter stays (map _remove_empty_action_nodes l3)).
  exists (List.length f1), (List.length f1 + S (List.length f3)).
  split; [rewrite nth_error_app2, Nat.sub_diag by lia; reflexivity|].
  split; [|lia].
  rewrite nth_error_app2 by lia.
  replace (List.length f1 + S (List.length f3) - List.length f1)
    with (S (List.length f3)) by lia.
  simpl. rewrite nth_error_app2, Nat.sub_diag by lia. reflexivity.
Qed.

Lemma remove_empty_resolve_order names :
  forall t p ka kb la lb,
    resolve t names = Some p ->
    get_item t (p ++ [ka]) = Some la -> get_item t (p ++ [kb]) = Some lb ->
    ka < kb -> has_handler la = true -> has_handler lb = true ->
    exists p' ka' kb',
      resolve (_remove_empty_action_nodes t) names = Some p'
      /\ get_item (_remove_empty_action_nodes t) (p' ++ [ka'])
         = Some (_remove_empty_action_nodes la)
      /\ get_item (_remove_empty_action_nodes t) (p' ++ [kb'])
         = Some (_remove_empty_action_nodes lb)
      /\ ka' < kb'.
Proof.
  induction names as [|name rest IH]; intros t p ka kb la lb Hres Ha Hb Hlt Hha Hhb;
    simpl in Hres.
  - injection Hres as <-. simpl in Ha, Hb.
    destruct (nth_error (children t) ka) as [xa|] eqn:Ea; [|discriminate].
    destruct (nth_error (children t) kb) as [xb|] eqn:Eb; [|discriminate].
    injection Ha as ->. injection Hb as ->.
    assert (Hsa : stays (_remove_empty_action_nodes la) = true)
      by (apply stays_true; right; now rewrite has_handler_remove_empty).
    assert (Hsb : stays (_remove_empty_action_nodes lb) = true)
      by (apply stays_true; right; now rewrite has_handler_remove_empty).
    destruct (stays_keeps_order _ _ _ _ _ Ea Eb Hlt Hsa Hsb) as (ka' & kb' & Ha' & Hb' & Hlt').
    exists [], ka', kb'. destruct t as [c kids]. rewrite remove_empty_eq.
    simpl in *. rewrite Ha', Hb'. now repeat split.
  - destruct (find_child (children t) name) as [j|] eqn:Ef; [|discriminate].
    destruct (nth_error (children t) j) as [X|] eqn:EX; [|discriminate].
    destruct (resolve X rest) as [q|] eqn:Eq; [|discriminate].
    simpl in Hres. injection Hres as <-. simpl in Ha, Hb. rewrite EX in Ha, Hb.
    destruct (IH X q ka kb la lb Eq Ha Hb Hlt Hha Hhb)
      as (q' & ka' & kb' & Hq' & Ha' & Hb' & Hlt').
    assert (Hstays : stays (_remove_empty_action_nodes X) = true).
    { apply stays_true. left. intros E.
      rewrite get_item_app in Ha'.
      destruct (get_item (_remove_empty_action_nodes X) q') as [mm|] eqn:Em;
        [|discriminate].
      destruct q' as [|j' q'']; simpl in Em.
      - injection Em as <-. simpl in Ha'. rewrite E in Ha'. now destruct ka'.
      - rewrite E in Em. now destruct j'. }
    unfold find_child in Ef.
    assert (EX0 : nth_error (children t) (j - 0) = Some X)
      by now rewrite Nat.sub_0_r.
    destruct (find_child_from_stays name (children t) 0 j X Ef EX0 Hstays 0)
      as (j' & _ & Hf' & Hn').
    rewrite Nat.sub_0_r in Hn'.
    exists (j' :: q'), ka', kb'. destruct t as [c kids]. rewrite remove_empty_eq.
    simpl in *. unfold find_child. rewrite Hf', Hn', Hq'. simpl.
    now repeat split.
Qed.

(** X9. Actions of one category are shown in the order of the list.  When
    [a] comes before [b] in the list of items and the two have the same
    categories above them, letter case apart as [String::to_lower] has it,
    their leaves are children of the same item and the leaf of [a] comes first: in the tree built by the
    main loop and, when both have a handler, in the generated tree. *)
Theorem leaves_keep_the_order_of_the_list :
  forall (before between after : list MenuItem) (a b : MenuItem),
    map to_lower (ancestor_categories a) = map to_lower (ancestor_categories b) ->
    let items := before ++ a :: between ++ b :: after in
    (exists p ka kb,
        resolve (build_tree get_icon action_favorites _selection items)
                (ancestor_categories a) = Some p
        /\ item_at (build_tree get_icon action_favorites _selection items)
             (p ++ [ka]) (leaf_of a)
        /\ item_at (build_tree get_icon action_favorites _selection items)
             (p ++ [kb]) (leaf_of b)
        /\ ka < kb)
    /\ (forall ha hb, get_handler a = Some ha -> get_handler b = Some hb ->
          exists p ka kb,
            resolve (_generate_filtered_actions get_icon action_favorites
                       _selection items)
                    (ancestor_categories a) = Some p
            /\ item_at (_generate_filtered_actions get_icon action_favorites
                          _selection items) (p ++ [ka]) (leaf_of a)
            /\ item_at (_generate_filtered_actions get_icon action_favorites
                          _selection items) (p ++ [kb]) (leaf_of b)
            /\ ka < kb).
Proof.
  intros before between after a b Hsame items.
  assert (HT : exists p ka kb,
             resolve (build_tree get_icon action_favorites _selection items)
                     (ancestor_categories a) = Some p
             /\ item_at (build_tree get_icon action_favorites _selection items)
                  (p ++ [ka]) (leaf_of a)
             /\ item_at (build_tree get_icon action_favorites _selection items)
                  (p ++ [kb]) (leaf_of b)
             /\ ka < kb).
  { subst items. rewrite build_tree_eq.
    destruct (main_loop_order (snd (initial_tree action_favorites))
                before a between b after _ (initial_tree_valid action_favorites))
      as (ra & ka & rb & kb & Hra & _ & Hla & Hrb & Hlb & Hlt).
    rewrite (resolve_lower _ _ _ Hsame) in Hra.
    assert (ra = rb) as E by congruence. subst rb.
    exists ra, ka, kb.
    rewrite (resolve_lower _ _ _ Hsame). now repeat split; auto. }
  split; [exact HT|].
  intros ha hb Hha Hhb.
  destruct HT as (p & ka & kb & Hres & (la & Hla & Hleafa) & (lb & Hlb & Hleafb) & Hlt).
  assert (Hhla : has_handler la = true).
  { unfold has_handler. destruct Hleafa as (_ & _ & ->). now rewrite Hha. }
  assert (Hhlb : has_handler lb = true).
  { unfold has_handler. destruct Hleafb as (_ & _ & ->). now rewrite Hhb. }
  destruct (remove_empty_resolve_order _ _ _ _ _ _ _ Hres Hla Hlb Hlt Hhla Hhlb)
    as (p' & ka' & kb' & Hres' & Ha' & Hb' & Hlt').
  exists p', ka', kb'. unfold _generate_filtered_actions.
  split; [exact Hres'|].
  split; [eexists; split; [exact Ha'|]; now rewrite remove_empty_cell|].
  split; [eexists; split; [exact Hb'|]; now rewrite remove_empty_cell|].
  exact Hlt'.
Qed.

End LeafOrder.

Section LeafOrderSamples.

Import ActionMenu TreeSpec.

Local Existing Instance Sample.ascii_lowercase.

(** "Add" comes before "Subtract" below "Math". *)
Lemma leaves_keep_the_order_witness :
  exists p ka kb,
    item_at (_generate_filtered_actions Sample.theme [] ""
               [Sample.math_add; Sample.math_subtract])
      (p ++ [ka]) (leaf_of Sample.math_add)
    /\ item_at (_generate_filtered_actions Sample.theme [] ""
                  [Sample.math_add; Sample.math_subtract])
         (p ++ [kb]) (leaf_of Sample.math_subtract)
    /\ ka < kb.
Proof.
  destruct (proj2 (leaves_keep_the_order_of_the_list Sample.theme [] ""
                     [] [] [] Sample.math_add Sample.math_subtract eq_refl)
              _ _ eq_refl eq_refl)
    as (p & ka & kb & _ & Ha & Hb & Hlt).
  now exists p, ka, kb.
Defined.

End LeafOrderSamples.

(* ================================================================== *)
(** ** What the rows of the menu show *)

Section BelowCells.

Import GString ActionMenu TreeSpec ActionMenuMore RowSpec.

Context {lowercase : Lowercase}.

Variable get_icon : string -> Texture.
Variable action_favorites : list string.
Variable _selection : string.

Lemma below_cells_children P t :
  below_cells P t <-> forall k, In k (children t) -> all_cells P k.
Proof.
  split.
  - intros H k Hk n Hn. apply H. now exists k.
  - intros H n (k & Hk & Hn). now apply (H k).
Qed.

Lemma below_cells_create_child P t parent c :
  below_cells P t -> P c -> below_cells P (fst (create_child t parent c)).
Proof.
  rewrite !below_cells_children. intros Ht Hc. unfold create_child. simpl.
  destruct parent as [|j q]; simpl.
  - intros k Hk. apply in_app_or in Hk. destruct Hk as [Hk|[<-|[]]];
      [now apply Ht|]. apply all_cells_Item; [exact Hc | intros ? []].
  - intros k' Hk'. apply In_alter_nth in Hk'.
    destruct Hk' as [Hk'|(k & Hk & ->)]; [now apply Ht|].
    apply (all_cells_create_child P k q c); [|exact Hc].
    apply Ht. now apply nth_error_In in Hk.
Qed.

Lemma below_cells_set_selected P t p :
  (forall b c, P c -> P (set_cell_selected b c)) ->
  below_cells P t -> below_cells P (set_selected t p).
Proof.
  rewrite !below_cells_children. intros Hsel Ht. unfold set_selected, update_cell.
  destruct t as [c kids]. destruct p as [|j q]; simpl in *.
  - intros k' Hk'. apply in_map_iff in Hk'. destruct Hk' as (k & <- & Hk).
    apply all_cells_map_cells; [now apply Ht | apply Hsel].
  - intros k' Hk'. apply In_alter_nth in Hk'.
    destruct Hk' as [Hk'|(k1 & Hk1 & ->)].
    + apply in_map_iff in Hk'. destruct Hk' as (k & <- & Hk).
      apply all_cells_map_cells; [now apply Ht | apply Hsel].
    + apply nth_error_In in Hk1. apply in_map_iff in Hk1.
      destruct Hk1 as (k & <- & Hk).
      apply (all_cells_update_cell P (set_cell_selected true) _ q);
        [|apply Hsel].
      apply all_cells_map_cells; [now apply Ht | apply Hsel].
Qed.

Variable P : Cell -> Prop.
Hypothesis P_selected : forall b c, P c -> P (set_cell_selected b c).
Hypothesis P_favorites : P favorites_cell.
Hypothesis P_category : forall name, P (category_cell get_icon name).

Local Abbreviation holds_for := (holds_for get_icon action_favorites P).

Lemma below_cells_create_categories names :
  forall t parent,
    below_cells P t ->
    below_cells P (fst (create_categories get_icon t parent names)).
Proof.
  induction names as [|name rest IH]; intros t parent Ht; [exact Ht|].
  cbn [create_categories].
  pose proof (below_cells_create_child P t parent (category_cell get_icon name)
                Ht (P_category name)) as H1.
  destruct (create_child t parent (category_cell get_icon name)) as [t1 parent1].
  now apply IH.
Qed.

Lemma below_cells_walk_categories names :
  forall t parent,
    below_cells P t ->
    below_cells P (fst (walk_categories get_icon t parent names)).
Proof.
  induction names as [|name rest IH]; intros t parent Ht; [exact Ht|].
  cbn [walk_categories].
  destruct (find_child (children_at t parent) name);
    [now apply IH | now apply below_cells_create_categories].
Qed.

Lemma below_cells_add_action favorites t item :
  holds_for item ->
  below_cells P t ->
  below_cells P (add_action get_icon action_favorites _selection favorites t item).
Proof.
  intros (P_leaf & P_item) Ht.
  destruct (add_action_shape get_icon action_favorites _selection favorites t item)
    as (t1 & rel & m & Hwalk & _ & _ & _ & _ & ->).
  pose proof (below_cells_walk_categories (ancestor_categories item) t [] Ht) as H1.
  rewrite Hwalk in H1. cbn [fst] in H1. cbv zeta.
  set (t3 := fst (create_child t1 rel _)).
  assert (H3 : below_cells P t3) by (apply below_cells_create_child; auto).
  set (t4 := if String.eqb _ _ then _ else _).
  assert (H4 : below_cells P t4).
  { subst t4. destruct (String.eqb _ _); [|exact H3].
    now apply below_cells_set_selected. }
  destruct (Settings.has _ _); [|exact H4].
  destruct favorites as [fv|]; [|exact H4].
  unfold _make_item. apply below_cells_create_child; auto.
Qed.

Lemma below_cells_build_tree items :
  (forall item, In item items -> holds_for item) ->
  below_cells P (build_tree get_icon action_favorites _selection items).
Proof.
  rewrite build_tree_eq.
  assert (H0 : below_cells P (fst (initial_tree action_favorites))).
  { apply below_cells_children.
    destruct (initial_tree_cases action_favorites) as [(_ & ->)|(_ & ->)]; simpl.
    - intros ? [].
    - intros k [<-|[]]. apply all_cells_Item; [exact P_favorites | intros ? []]. }
  revert H0. generalize (fst (initial_tree action_favorites)).
  induction items as [|b rest IH]; intros t Ht Hitems; [exact Ht|].
  simpl. apply IH.
  - apply below_cells_add_action; [|exact Ht]. apply Hitems. now left.
  - intros item Hin. apply Hitems. now right.
Qed.

Lemma below_remove_empty t n :
  below n (_remove_empty_action_nodes t) ->
  exists n0, below n0 t /\ cell n = cell n0.
Proof.
  destruct t as [c kids]. rewrite remove_empty_eq. intros (k' & Hk' & Hsub).
  simpl in Hk'. apply filter_In in Hk'. destruct Hk' as (Hin & _).
  apply in_map_iff in Hin. destruct Hin as (k & <- & Hk).
  destruct (remove_empty_subitem k n Hsub) as (n0 & Hn0 & ->).
  exists n0. split; [now exists k | apply remove_empty_cell].
Qed.

Lemma below_cells_generated items :
  (forall item, In item items -> holds_for item) ->
  below_cells P
    (_generate_filtered_actions get_icon action_favorites _selection items).
Proof.
  intros Hitems n Hn. unfold _generate_filtered_actions in Hn.
  destruct (below_remove_empty _ n Hn) as (n0 & Hn0 & ->).
  now apply (below_cells_build_tree items).
Qed.

End BelowCells.

Section Rows.

Import GString ActionMenu TreeSpec ActionMenuMore RowSpec.

Context {lowercase : Lowercase}.

Variable get_icon : string -> Texture.

Lemma selectable_iff_handler_generated action_favorites _selection items :
  below_cells selectable_iff_handler
    (_generate_filtered_actions get_icon action_favorites _selection items).
Proof.
  apply below_cells_generated; unfold selectable_iff_handler; try reflexivity.
  - intros b c H. exact H.
  - intros item _. split.
    + unfold leaf_cell, make_item_cell. now destruct (get_handler item).
    + intros txt. unfold make_item_cell. now destruct (get_handler item).
Qed.

Lemma carries_listed_item_generated action_favorites _selection items :
  below_cells (carries_listed_item items)
    (_generate_filtered_actions get_icon action_favorites _selection items).
Proof.
  apply below_cells_generated; unfold carries_listed_item.
  - intros b c H. exact H.
  - intros it [=].
  - intros name it [=].
  - intros item Hin. split.
    + intros it. unfold leaf_cell, decorate_leaf.
      cbn [meta_item set_meta_favorite set_tooltip_text1 add_button].
      rewrite make_item_cell_is_leaf. now intros [= <-].
    + intros txt it. rewrite make_item_cell_is_leaf. now intros [= <-].
Qed.

(** X10. In the generated tree the first column of a row is selectable,
    [set_selectable(0, true)], exactly when the row has a handler: it is
    not for a category, for "Favorites" and for the leaf of an action
    without handler, and it is for every row that is shown without
    children.  (This is the flag of the column alone: [Tree::set_selected]
    makes a row the selected one whatever the flag.) *)
Theorem first_column_selectable_iff_handler :
  forall (action_favorites : list string) (_selection : string)
         (items : list MenuItem) (n : TreeItem),
    below n (_generate_filtered_actions get_icon action_favorites _selection items) ->
    (cell_selectable (cell n) = true <-> meta_handler (cell n) <> None)
    /\ (meta_item (cell n) = None -> cell_selectable (cell n) = false)
    /\ (children n = [] -> cell_selectable (cell n) = true).
Proof.
  intros favs sel items n Hn.
  pose proof (selectable_iff_handler_generated favs sel items n Hn) as Hs.
  unfold selectable_iff_handler in Hs. split; [|split].
  - rewrite Hs. destruct (meta_handler (cell n)); split; congruence.
  - intros Hitem. rewrite Hs.
    destruct (meta_handler (cell n)) as [h|] eqn:Eh; [|reflexivity].
    assert (Hsub : subitem n (_generate_filtered_actions get_icon favs sel items))
      by (apply subitem_cases; now right).
    destruct (all_cells_remove_empty handler_of_item _
                (handler_of_item_build get_icon favs sel items) n Hsub h Eh)
      as (item & Hi & _). congruence.
  - intros Hkids.
    destruct (generated_leaf_has_handler get_icon favs sel items n Hn Hkids)
      as (item & h & _ & _ & Hh).
    now rewrite Hs, Hh.
Qed.

Lemma shows_its_action_generated action_favorites _selection items :
  below_cells (shows_its_action get_icon action_favorites)
    (_generate_filtered_actions get_icon action_favorites _selection items).
Proof.
  apply below_cells_generated; unfold shows_its_action.
  - intros b c H. exact H.
  - intros it [=].
  - intros name it [=].
  - intros item _. split.
    + intros it. unfold leaf_cell, decorate_leaf.
      cbn [meta_item set_meta_favorite set_tooltip_text1 add_button].
      rewrite make_item_cell_is_leaf. intros [= <-].
      split; [|split; [|split; [|split]]];
        unfold make_item_cell; now destruct (get_handler item).
    + intros txt it. rewrite make_item_cell_is_leaf. intros [= <-].
      assert (Hb : cell_button (make_item_cell get_icon item txt) = None)
        by (unfold make_item_cell; now destruct (get_handler item)).
      assert (Hf : meta_favorite (make_item_cell get_icon item txt) = None)
        by (unfold make_item_cell; now destruct (get_handler item)).
      rewrite Hb, Hf.
      split; [|split; [|split; [|split]]];
        unfold make_item_cell; now destruct (get_handler item).
Qed.

(** X11. Each row of the generated tree that carries a menu item carries
    one of the list and shows the icon, the tooltip and the type icon of
    its action.  A row with a favorite button shows the "Favorites" icon
    when the category of its action is in the list of favorites and
    "NonFavorite" when it is not, and a click on the button then removes
    the category from the stored favorites in the first case and adds it in
    the second: with duplicate free favorites the click changes whether
    the action is a favorite. *)
Theorem favorite_button_flips_the_favorite :
  forall (ps : Settings.ProjectSettings) (_selection : string)
         (items : list MenuItem) (n : TreeItem) (menu_item : MenuItem),
    below n (_generate_filtered_actions get_icon
               (Settings.get_action_favorites ps) _selection items) ->
    meta_item (cell n) = Some menu_item ->
    (In menu_item items
     /\ cell_icon (cell n) = Some (get_icon (icon (get_spec menu_item)))
     /\ cell_tooltip (cell n) = tooltip (get_spec menu_item)
     /\ cell_icon1 (cell n) = Some (get_icon (type_icon (get_spec menu_item))))
    /\ (cell_button (cell n) <> None ->
        cell_button (cell n)
        = Some (get_icon
                  (if Settings.has (Settings.get_action_favorites ps)
                        (category (get_spec menu_item))
                   then "Favorites" else "NonFavorite"))
        /\ _on_tree_button_clicked (cell n) ps
           = (if Settings.has (Settings.get_action_favorites ps)
                   (category (get_spec menu_item))
              then Settings.remove_action_favorite
                     (category (get_spec menu_item)) ps
              else Settings.add_action_favorite
                     (category (get_spec menu_item)) ps)
        /\ (NoDup (Settings.get_action_favorites ps) ->
            (In (category (get_spec menu_item))
                (Settings.get_action_favorites
                   (_on_tree_button_clicked (cell n) ps))
             <-> ~ In (category (get_spec menu_item))
                      (Settings.get_action_favorites ps)))).
Proof.
  intros ps sel items n it Hn Hit.
  destruct (shows_its_action_generated (Settings.get_action_favorites ps) sel items
              n Hn it Hit) as (Hicon & Htip & Hicon1 & _ & Hbutton).
  split.
  { split; [|now repeat split].
    apply (carries_listed_item_generated (Settings.get_action_favorites ps) sel
             items n Hn it Hit). }
  intros Hb. destruct (Hbutton Hb) as (Hfav & Hbtn).
  split; [exact Hbtn|].
  assert (Hclick : _on_tree_button_clicked (cell n) ps
                   = if Settings.has (Settings.get_action_favorites ps)
                          (category (get_spec it))
                     then Settings.remove_action_favorite (category (get_spec it)) ps
                     else Settings.add_action_favorite (category (get_spec it)) ps).
  { unfold _on_tree_button_clicked. rewrite Hfav, Hit.
    now destruct (Settings.has _ _). }
  split; [exact Hclick|].
  intros Hnd. rewrite Hclick.
  destruct (Settings.has (Settings.get_action_favorites ps) (category (get_spec it)))
    eqn:Hh.
  - apply has_In in Hh as Hin. rewrite get_remove.
    destruct (find_In _ _ Hin) as (i & Hf). rewrite Hf.
    destruct (remove_at_find_NoDup _ _ i Hf Hnd) as (_ & Hnot). tauto.
  - apply has_not_In in Hh as Hnot. rewrite get_add, Hh.
    unfold Settings.push_back. rewrite in_app_iff. simpl. tauto.
Qed.

End Rows.

Section RowsSamples.

Import ActionMenu TreeSpec.

Local Existing Instance Sample.ascii_lowercase.

(** The first column of the category "Math" of the sample menu is not
    selectable. *)
Lemma first_column_selectable_witness :
  cell_selectable
    (cell (nth 0 (children (_generate_filtered_actions Sample.theme [] ""
                              [Sample.math_add; Sample.math_subtract]))
               (Item new_cell [])))
  = false.
Proof.
  refine (proj1 (proj2 (first_column_selectable_iff_handler Sample.theme [] ""
                          [Sample.math_add; Sample.math_subtract] _ _)) _).
  - eexists. split; [left; reflexivity | constructor].
  - reflexivity.
Defined.

(** With the favorite "Math/Add" stored, the leaf "Add" below "Math" shows
    the icon "Favorites" on its button, and a click on it leaves no
    favorite. *)
Lemma favorite_button_witness :
  cell_button
    (cell (nth 0 (children
                    (nth 1 (children
                              (_generate_filtered_actions Sample.theme
                                 ["Math/Add"] ""
                                 [Sample.math_add; Sample.math_subtract]))
                         (Item new_cell [])))
               (Item new_cell [])))
  = Some (Sample.theme "Favorites")
  /\ Settings.get_action_favorites
       (_on_tree_button_clicked
          (cell (nth 0 (children
                          (nth 1 (children
                                    (_generate_filtered_actions Sample.theme
                                       ["Math/Add"] ""
                                       [Sample.math_add; Sample.math_subtract]))
                               (Item new_cell [])))
                     (Item new_cell [])))
          {| Settings.action_favorites := Some ["Math/Add"];
             Settings.journal := [] |})
     = [].
Proof.
  assert (Hbelow :
    below (nth 0 (children
                    (nth 1 (children
                              (_generate_filtered_actions Sample.theme
                                 ["Math/Add"] ""
                                 [Sample.math_add; Sample.math_subtract]))
                         (Item new_cell [])))
               (Item new_cell []))
          (_generate_filtered_actions Sample.theme
             (Settings.get_action_favorites
                {| Settings.action_favorites := Some ["Math/Add"];
                   Settings.journal := [] |}) ""
             [Sample.math_add; Sample.math_subtract])).
  { eexists. split; [right; left; reflexivity|].
    eapply subitem_child; [left; reflexivity | constructor]. }
  pose proof (proj2 (favorite_button_flips_the_favorite Sample.theme
                       {| Settings.action_favorites := Some ["Math/Add"];
                          Settings.journal := [] |} ""
                       [Sample.math_add; Sample.math_subtract] _
                       Sample.math_add Hbelow eq_refl)) as H.
  assert (Hne : cell_button
    (cell (nth 0 (children
                    (nth 1 (children
                              (_generate_filtered_actions Sample.theme
                                 ["Math/Add"] ""
                                 [Sample.math_add; Sample.math_subtract]))
                         (Item new_cell [])))
               (Item new_cell []))) <> None) by discriminate.
  destruct (H Hne) as (Hb & Hc & _).
  split; [exact Hb | rewrite Hc; reflexivity].
Defined.

End RowsSamples.

(* ================================================================== *)
(** ** The registered settings *)

Section StoreFacts.

Import ProjectStore.

Lemma update_same {A : Type} (m : string -> option A) key v :
  update m key v key = v.
Proof. unfold update. now rewrite String.eqb_refl. Qed.

Lemma update_other {A : Type} (m : string -> option A) key v k :
  k <> key -> update m key v k = m k.
Proof.
  intros H. unfold update. destruct (String.eqb k key) eqn:E; [|reflexivity].
  now apply String.eqb_eq in E.
Qed.

Lemma append_inj_l (a x y : string) : (a ++ x = a ++ y)%string -> x = y.
Proof. induction a as [|c a IH]; simpl; [auto|]. intros [= H]. auto. Qed.

End StoreFacts.

Section RegistryFacts.

Import GString GVariant ProjectStore SettingsRegistry.

Variable _get_base_key : string.

Local Abbreviation key_of := (key_of _get_base_key).
Local Abbreviation initialize_setting := (initialize_setting _get_base_key).
Local Abbreviation remove_setting := (remove_setting _get_base_key).

Lemma key_of_inj s1 s2 :
  key_of s1 = key_of s2 -> name (info s1) = name (info s2).
Proof.
  unfold SettingsRegistry.key_of. intros H.
  apply append_inj_l in H. now apply (append_inj_l "/") in H.
Qed.

(** The property info the loop registers for a setting. *)
Lemma initialize_setting_other ps setting key :
  key <> key_of setting ->
  props (initialize_setting ps setting) key = props ps key
  /\ custom_prop_info (initialize_setting ps setting) key = custom_prop_info ps key.
Proof.
  intros Hk. unfold SettingsRegistry.initialize_setting.
  unfold set_as_basic, add_property_info, set_initial_value, set_setting,
    ProjectStore.has_setting.
  destruct (props ps (key_of setting)) as [c|] eqn:E; cbn [negb props custom_prop_info name];
    rewrite ?E; cbn [props custom_prop_info name]; rewrite ?update_same.
  - cbn [props custom_prop_info]. rewrite !update_other by exact Hk. now split.
  - destruct (value setting); cbn [props custom_prop_info]; rewrite ?update_same;
      cbn [props custom_prop_info]; rewrite ?update_other by exact Hk;
      rewrite ?E; cbn [props custom_prop_info];
      rewrite ?update_other by exact Hk; now split.
Qed.

Lemma initialize_setting_same ps setting :
  has_value setting = true ->
  props (initialize_setting ps setting) (key_of setting)
  = Some {| variant := ProjectStore.get_setting ps (key_of setting) (value setting);
            initial := value setting;
            basic := true |}
  /\ custom_prop_info (initialize_setting ps setting) (key_of setting)
     = Some {| type := type (info setting); name := key_of setting;
               hint := hint (info setting);
               hint_string := hint_string (info setting) |}.
Proof.
  intros Hv. unfold SettingsRegistry.initialize_setting.
  unfold set_as_basic, add_property_info, set_initial_value, set_setting,
    ProjectStore.has_setting, ProjectStore.get_setting.
  destruct (props ps (key_of setting)) as [c|] eqn:E; cbn [negb props custom_prop_info name];
    rewrite ?E; cbn [props custom_prop_info name]; rewrite ?update_same.
  - cbn [props custom_prop_info variant initial basic]. rewrite !update_same.
    now split.
  - unfold has_value in Hv.
    destruct (value setting); try discriminate Hv;
      cbn [props custom_prop_info]; rewrite ?update_same;
      cbn [props custom_prop_info variant initial basic]; rewrite ?update_same;
      now split.
Qed.

Lemma initialize_loop_other table :
  forall ps key,
    (forall setting, In setting table -> key <> key_of setting) ->
    props (fold_left initialize_setting table ps) key = props ps key
    /\ custom_prop_info (fold_left initialize_setting table ps) key
       = custom_prop_info ps key.
Proof.
  induction table as [|a rest IH]; intros ps key Hk; [now split|].
  simpl. destruct (IH (initialize_setting ps a) key) as (H1 & H2).
  { intros s Hs. apply Hk. now right. }
  destruct (initialize_setting_other ps a key) as (H3 & H4).
  { apply Hk. now left. }
  rewrite H1, H2, H3, H4. now split.
Qed.

Lemma existsb_names table x :
  existsb (String.eqb x) (names table) = false ->
  forall setting, In setting table -> x <> name (info setting).
Proof.
  intros H s Hs ->.
  assert (E : existsb (String.eqb (name (info s))) (names table) = true).
  { apply existsb_exists. exists (name (info s)). split.
    - unfold names. now apply (in_map (fun setting => name (info setting))).
    - apply String.eqb_refl. }
  congruence.
Qed.

Lemma initialize_loop_registered table :
  forall ps setting,
    no_duplicates (names table) = true ->
    forallb has_value table = true ->
    In setting table ->
    props (fold_left initialize_setting table ps) (key_of setting)
    = Some {| variant := ProjectStore.get_setting ps (key_of setting) (value setting);
              initial := value setting;
              basic := true |}
    /\ custom_prop_info (fold_left initialize_setting table ps) (key_of setting)
       = Some {| type := type (info setting); name := key_of setting;
                 hint := hint (info setting);
                 hint_string := hint_string (info setting) |}.
Proof.
  induction table as [|a rest IH]; intros ps s Hnd Hv Hin; [destruct Hin|].
  cbn [names map no_duplicates] in Hnd. apply andb_prop in Hnd.
  destruct Hnd as (Ha & Hnd). apply negb_true_iff in Ha.
  cbn [forallb] in Hv. apply andb_prop in Hv. destruct Hv as (Hva & Hv).
  pose proof (existsb_names rest _ Ha) as Hfresh.
  simpl. destruct Hin as [<-|Hin].
  - destruct (initialize_loop_other rest (initialize_setting ps a) (key_of a))
      as (H1 & H2).
    { intros s Hs E. apply key_of_inj in E. now apply (Hfresh s). }
    rewrite H1, H2. now apply initialize_setting_same.
  - destruct (IH (initialize_setting ps a) s Hnd Hv Hin) as (H1 & H2).
    rewrite H1, H2. split; [|reflexivity].
    unfold ProjectStore.get_setting.
    destruct (initialize_setting_other ps a (key_of s)) as (H3 & _).
    { intros E. apply key_of_inj in E. symmetry in E. now apply (Hfresh s). }
    now rewrite H3.
Qed.

Lemma remove_setting_other ps setting key :
  key <> key_of setting ->
  props (remove_setting ps setting) key = props ps key.
Proof.
  intros Hk. unfold SettingsRegistry.remove_setting, clear, ProjectStore.has_setting.
  destruct (props ps (key_of setting)); [|reflexivity].
  cbn [props]. now apply update_other.
Qed.

Lemma remove_setting_info ps setting :
  custom_prop_info (remove_setting ps setting) = custom_prop_info ps.
Proof.
  unfold SettingsRegistry.remove_setting, clear, ProjectStore.has_setting.
  now destruct (props ps (key_of setting)).
Qed.

Lemma remove_setting_same ps setting :
  props (remove_setting ps setting) (key_of setting) = None.
Proof.
  unfold SettingsRegistry.remove_setting, clear, ProjectStore.has_setting.
  destruct (props ps (key_of setting)) eqn:E; [|exact E].
  cbn [props]. apply update_same.
Qed.

Lemma remove_setting_none ps setting key :
  props ps key = None -> props (remove_setting ps setting) key = None.
Proof.
  intros H. destruct (String.eqb key (key_of setting)) eqn:E.
  - apply String.eqb_eq in E. subst key. apply remove_setting_same.
  - apply String.eqb_neq in E. now rewrite remove_setting_other.
Qed.

Lemma remove_loop_other table :
  forall ps key,
    (forall setting, In setting table -> key <> key_of setting) ->
    props (fold_left remove_setting table ps) key = props ps key.
Proof.
  induction table as [|a rest IH]; intros ps key Hk; [reflexivity|].
  simpl. rewrite IH by (intros s Hs; apply Hk; now right).
  apply remove_setting_other. apply Hk. now left.
Qed.

Lemma remove_loop_info table :
  forall ps,
    custom_prop_info (fold_left remove_setting table ps) = custom_prop_info ps.
Proof.
  induction table as [|a rest IH]; intros ps; [reflexivity|].
  simpl. rewrite IH. apply remove_setting_info.
Qed.

Lemma remove_loop_none table :
  forall ps key,
    props ps key = None -> props (fold_left remove_setting table ps) key = None.
Proof.
  induction table as [|a rest IH]; intros ps key H; [exact H|].
  simpl. apply IH. now apply remove_setting_none.
Qed.

Lemma remove_loop_removed table :
  forall ps setting,
    In setting table ->
    props (fold_left remove_setting table ps) (key_of setting) = None.
Proof.
  induction table as [|a rest IH]; intros ps s Hin; [destruct Hin|].
  simpl. destruct Hin as [<-|Hin]; [|now apply IH].
  apply remove_loop_none. apply remove_setting_same.
Qed.

(** The object the constructor makes: the two tables, whatever the project. *)
Lemma construct_self ps :
  fst (construct _get_base_key ps)
  = _register_settings
      (_register_deprecated_settings {| _settings := []; _removed := [] |}).
Proof. reflexivity. Qed.

Lemma construct_store ps :
  snd (construct _get_base_key ps)
  = fold_left remove_setting
      (_removed (fst (construct _get_base_key ps)))
      (fold_left initialize_setting
         (_settings (fst (construct _get_base_key ps))) ps).
Proof. reflexivity. Qed.

Lemma tables_checked ps :
  no_duplicates (names (_settings (fst (construct _get_base_key ps)))) = true
  /\ forallb has_value (_settings (fst (construct _get_base_key ps))) = true
  /\ forallb (fun x => negb (existsb (String.eqb x)
                               (names (_removed (fst (construct _get_base_key ps))))))
       (names (_settings (fst (construct _get_base_key ps)))) = true.
Proof. rewrite construct_self. repeat split; vm_compute; reflexivity. Qed.

Lemma registered_not_removed ps s r :
  In s (_settings (fst (construct _get_base_key ps))) ->
  In r (_removed (fst (construct _get_base_key ps))) ->
  key_of s <> key_of r.
Proof.
  intros Hs Hr E. apply key_of_inj in E.
  destruct (tables_checked ps) as (_ & _ & Hd).
  rewrite forallb_forall in Hd.
  specialize (Hd (name (info s))). rewrite negb_true_iff in Hd.
  assert (Hin : In (name (info s))
                  (names (_settings (fst (construct _get_base_key ps)))))
    by (unfold names; now apply (in_map (fun setting => name (info setting)))).
  apply (existsb_names _ _ (Hd Hin) r Hr E).
Qed.

Lemma construct_registered ps setting :
  In setting (_settings (fst (construct _get_base_key ps))) ->
  props (snd (construct _get_base_key ps)) (key_of setting)
  = Some {| variant := ProjectStore.get_setting ps (key_of setting) (value setting);
            initial := value setting;
            basic := true |}
  /\ custom_prop_info (snd (construct _get_base_key ps)) (key_of setting)
     = Some {| type := type (info setting); name := key_of setting;
               hint := hint (info setting);
               hint_string := hint_string (info setting) |}.
Proof.
  intros Hin. rewrite construct_store.
  destruct (tables_checked ps) as (Hnd & Hv & _).
  rewrite remove_loop_info, remove_loop_other.
  - now apply initialize_loop_registered.
  - intros r Hr. now apply registered_not_removed with (ps := ps).
Qed.

Lemma construct_removed ps setting :
  In setting (_removed (fst (construct _get_base_key ps))) ->
  props (snd (construct _get_base_key ps)) (key_of setting) = None.
Proof. intros Hin. rewrite construct_store. now apply remove_loop_removed. Qed.

Lemma existsb_keys table key :
  existsb (fun setting => String.eqb key (key_of setting)) table = false ->
  forall setting, In setting table -> key <> key_of setting.
Proof.
  intros H s Hs ->.
  assert (E : existsb (fun setting => String.eqb (key_of s) (key_of setting)) table
              = true).
  { apply existsb_exists. exists s. split; [exact Hs | apply String.eqb_refl]. }
  congruence.
Qed.

Lemma construct_other ps key :
  existsb (fun setting => String.eqb key (key_of setting))
    (_settings (fst (construct _get_base_key ps))) = false ->
  custom_prop_info (snd (construct _get_base_key ps)) key = custom_prop_info ps key
  /\ (existsb (fun setting => String.eqb key (key_of setting))
        (_removed (fst (construct _get_base_key ps))) = false ->
      props (snd (construct _get_base_key ps)) key = props ps key).
Proof.
  intros Hs. rewrite construct_store.
  destruct (initialize_loop_other (_settings (fst (construct _get_base_key ps)))
              ps key (existsb_keys _ _ Hs)) as (H1 & H2).
  split.
  - now rewrite remove_loop_info.
  - intros Hr. rewrite remove_loop_other by (now apply existsb_keys). exact H1.
Qed.

End RegistryFacts.

Section RegistryTheorems.

Import GString GVariant ProjectStore SettingsRegistry.

(** X12. After the constructor every setting of the table [_settings] is a
    property of the project under its key: with the value it had before, or
    with the default of the table when it was not there; its initial value
    is the default, it is a basic property, and its property info carries
    the key, the type and the hint of the table. *)
Theorem constructor_registers_every_setting :
  forall (_get_base_key : string) (ps : ProjectSettings) (setting : Setting),
    In setting (_settings (fst (construct _get_base_key ps))) ->
    props (snd (construct _get_base_key ps)) (key_of _get_base_key setting)
    = Some {| variant := ProjectStore.get_setting ps (key_of _get_base_key setting)
                           (value setting);
              initial := value setting;
              basic := true |}
    /\ custom_prop_info (snd (construct _get_base_key ps))
         (key_of _get_base_key setting)
       = Some {| type := type (info setting);
                 name := key_of _get_base_key setting;
                 hint := hint (info setting);
                 hint_string := hint_string (info setting) |}.
Proof. intros base ps s. apply construct_registered. Qed.

(** X13. After the constructor no setting of the table [_removed] is a
    property of the project, while the constructor never registers one of
    them: the two tables have no name in common. *)
Theorem constructor_removes_deprecated_settings :
  forall (_get_base_key : string) (ps : ProjectSettings) (setting : Setting),
    In setting (_removed (fst (construct _get_base_key ps))) ->
    ProjectStore.has_setting (snd (construct _get_base_key ps))
      (key_of _get_base_key setting) = false
    /\ ~ In setting (_settings (fst (construct _get_base_key ps))).
Proof.
  intros base ps s Hin. split.
  - unfold ProjectStore.has_setting. now rewrite construct_removed.
  - intros Hs. now apply (registered_not_removed base ps s s).
Qed.

(** X14. The constructor leaves every other property alone: a key that is
    not the key of a setting of one of the two tables keeps its property and
    its property info. *)
Theorem constructor_keeps_other_properties :
  forall (_get_base_key : string) (ps : ProjectSettings) (key : string),
    existsb (fun setting => String.eqb key (key_of _get_base_key setting))
      (_settings (fst (construct _get_base_key ps))
       ++ _removed (fst (construct _get_base_key ps))) = false ->
    props (snd (construct _get_base_key ps)) key = props ps key
    /\ custom_prop_info (snd (construct _get_base_key ps)) key
       = custom_prop_info ps key.
Proof.
  intros base ps key H. rewrite existsb_app in H. apply orb_false_iff in H.
  destruct H as (Hs & Hr).
  destruct (construct_other base ps key Hs) as (H1 & H2). split; auto.
Qed.

(** X15. Constructing the settings a second time changes nothing: every
    property and every property info of the project is as the first
    construction left it. *)
Theorem constructor_twice_changes_nothing :
  forall (_get_base_key : string) (ps : ProjectSettings) (key : string),
    props (snd (construct _get_base_key (snd (construct _get_base_key ps)))) key
    = props (snd (construct _get_base_key ps)) key
    /\ custom_prop_info
         (snd (construct _get_base_key (snd (construct _get_base_key ps)))) key
       = custom_prop_info (snd (construct _get_base_key ps)) key.
Proof.
  intros base ps key. set (ps1 := snd (construct base ps)).
  destruct (existsb (fun s => String.eqb key (key_of base s))
              (_settings (fst (construct base ps1)))) eqn:Es.
  - apply existsb_exists in Es. destruct Es as (s & Hs & E).
    apply String.eqb_eq in E. subst key.
    destruct (construct_registered base ps1 s Hs) as (H1 & H2).
    destruct (construct_registered base ps s Hs) as (H3 & H4).
    fold ps1 in H3, H4. rewrite H1, H2, H4. split; [|reflexivity].
    unfold ProjectStore.get_setting at 1. now rewrite H3.
  - destruct (construct_other base ps1 key Es) as (H1 & H2).
    split; [|exact H1].
    destruct (existsb (fun s => String.eqb key (key_of base s))
                (_removed (fst (construct base ps1)))) eqn:Er; [|now apply H2].
    apply existsb_exists in Er. destruct Er as (r & Hr & E).
    apply String.eqb_eq in E. subst key.
    rewrite (construct_removed base ps1 r Hr).
    symmetry. apply (construct_removed base ps r Hr).
Qed.

Lemma qualified_name (n : string) :
  begins_with n "orchestrator/" = false ->
  qualified n = ("orchestrator/" ++ n)%string
  /\ qualified ("orchestrator/" ++ n) = ("orchestrator/" ++ n)%string.
Proof.
  intros H. unfold qualified. rewrite H. split; [reflexivity|].
  assert (E : begins_with ("orchestrator/" ++ n) "orchestrator/" = true).
  { simpl. now destruct n. }
  now rewrite E.
Qed.

(** X16. With the base key "orchestrator", a setting of the table can be
    read after the constructor by its name and by its full key alike:
    [has_setting] answers true without printing, and [get_setting] gives the
    value the project had for it before, or the default of the table, never
    the default of the caller. *)
Theorem registered_setting_is_read_by_name :
  forall (ps : ProjectSettings) (setting : Setting) (p_default_value : Variant)
         (key : string),
    In setting (_settings (fst (construct "orchestrator" ps))) ->
    key = name (info setting)
    \/ key = ("orchestrator/" ++ name (info setting))%string ->
    SettingsRegistry.has_setting (snd (construct "orchestrator" ps)) key = (true, [])
    /\ SettingsRegistry.get_setting (snd (construct "orchestrator" ps)) key
         p_default_value
       = ProjectStore.get_setting ps ("orchestrator/" ++ name (info setting))
           (value setting).
Proof.
  intros ps s d key Hin Hkey.
  assert (Hn : begins_with (name (info s)) "orchestrator/" = false).
  { assert (Hall : forallb (fun x => negb (begins_with x "orchestrator/"))
                     (names (_settings (fst (construct "orchestrator" ps)))) = true)
      by (rewrite construct_self; vm_compute; reflexivity).
    rewrite forallb_forall in Hall. apply negb_true_iff. apply Hall.
    unfold names. now apply (in_map (fun setting => name (info setting))). }
  destruct (qualified_name _ Hn) as (Q1 & Q2).
  assert (Q : qualified key = key_of "orchestrator" s).
  { destruct Hkey as [->| ->]; [exact Q1 | exact Q2]. }
  destruct (construct_registered "orchestrator" ps s Hin) as (H1 & _).
  unfold SettingsRegistry.has_setting, SettingsRegistry.get_setting,
    ProjectStore.has_setting.
  rewrite Q. unfold ProjectStore.get_setting at 1. rewrite H1. now split.
Qed.

End RegistryTheorems.

Section RegistrySamples.

Import GString GVariant ProjectStore SettingsRegistry.

(** On a project without properties "orchestrator/settings/log_level" is
    registered with the default "INFO". *)
Lemma constructor_registers_witness :
  props (snd (construct "orchestrator" ProjectStore.empty))
    "orchestrator/settings/log_level"
  = Some {| variant := VString "INFO"; initial := VString "INFO"; basic := true |}.
Proof.
  refine (proj1 (constructor_registers_every_setting "orchestrator"
                   ProjectStore.empty
                   (SENUM_SETTING "settings/log_level"
                      "FATAL,ERROR,WARN,INFO,DEBUG,TRACE" (VString "INFO")) _)).
  right. left. reflexivity.
Defined.

(** A project that still has the setting "orchestrator/run/test_scene" of
    version 1 has it no more after the constructor. *)
Lemma constructor_removes_witness :
  ProjectStore.has_setting
    (snd (construct "orchestrator"
            (set_setting "orchestrator/run/test_scene" (VString "res://main.tscn")
               ProjectStore.empty)))
    "orchestrator/run/test_scene" = false.
Proof.
  refine (proj1 (constructor_removes_deprecated_settings "orchestrator"
                   (set_setting "orchestrator/run/test_scene"
                      (VString "res://main.tscn") ProjectStore.empty)
                   (FILE_SETTING "run/test_scene" "*.tscn,*.scn"
                      (VString "res://addons/test/test.tscn")) _)).
  left. reflexivity.
Defined.

(** The favorites of the action menu are not a setting of the tables: the
    constructor keeps them. *)
Lemma constructor_keeps_witness :
  props (snd (construct "orchestrator"
                (set_setting "orchestrator/settings/action_favorites"
                   (VPackedStringArray ["Math/Add"]) ProjectStore.empty)))
    "orchestrator/settings/action_favorites"
  = Some {| variant := VPackedStringArray ["Math/Add"]; initial := VNil;
            basic := false |}.
Proof.
  refine (proj1 (constructor_keeps_other_properties "orchestrator"
                   (set_setting "orchestrator/settings/action_favorites"
                      (VPackedStringArray ["Math/Add"]) ProjectStore.empty)
                   "orchestrator/settings/action_favorites" _)).
  vm_compute. reflexivity.
Defined.

(** A project that has the log level "DEBUG" gives it for the name
    "settings/log_level", whatever default the caller names. *)
Lemma registered_setting_witness :
  SettingsRegistry.get_setting
    (snd (construct "orchestrator"
            (set_setting "orchestrator/settings/log_level" (VString "DEBUG")
               ProjectStore.empty)))
    "settings/log_level" VNil
  = VString "DEBUG".
Proof.
  refine (proj2 (registered_setting_is_read_by_name
                   (set_setting "orchestrator/settings/log_level" (VString "DEBUG")
                      ProjectStore.empty)
                   (SENUM_SETTING "settings/log_level"
                      "FATAL,ERROR,WARN,INFO,DEBUG,TRACE" (VString "INFO"))
                   VNil "settings/log_level" _ _)).
  - right. left. reflexivity.
  - left. reflexivity.
Defined.

End RegistrySamples.

(* ================================================================== *)
(** ** The layout of the floating window *)

Section ConfigFacts.

Import BinNums BinInt GVariant Plugin.

Lemma to_int32_small i : is_int32 i -> to_int32 i = i.
Proof.
  unfold is_int32, to_int32. intros H.
  rewrite Z.mod_small by lia. lia.
Qed.

Lemma set_value_same section key value cfg :
  value <> VNil -> set_value section key value cfg section key = Some value.
Proof.
  intros H. unfold set_value.
  destruct value; try (now rewrite !String.eqb_refl). now contradiction H.
Qed.

Lemma set_value_other section key value cfg s k :
  s <> section \/ k <> key ->
  set_value section key value cfg s k = cfg s k.
Proof.
  intros H.
  assert (E : String.eqb s section && String.eqb k key = false).
  { apply andb_false_iff. rewrite !String.eqb_neq. exact H. }
  unfold set_value, erase_section_key. destruct value; now rewrite E.
Qed.

Lemma erase_if_present_same section key cfg :
  erase_if_present section key cfg section key = None.
Proof.
  unfold erase_if_present, has_section_key, erase_section_key.
  destruct (cfg section key) eqn:E; [|exact E].
  now rewrite !String.eqb_refl.
Qed.

Lemma erase_if_present_other section key cfg s k :
  s <> section \/ k <> key ->
  erase_if_present section key cfg s k = cfg s k.
Proof.
  intros H.
  assert (E : String.eqb s section && String.eqb k key = false).
  { apply andb_false_iff. rewrite !String.eqb_neq. exact H. }
  unfold erase_if_present, has_section_key, erase_section_key.
  destruct (cfg section key); [now rewrite E | reflexivity].
Qed.

End ConfigFacts.

Section LayoutFacts.

Import BinNums BinInt GVariant Plugin.

Variable MainView : Type.
Variable WindowWrapper : Type.
Variable main_view_set_window_layout :
  MainView -> ConfigFile -> WindowWrapper -> MainView * ConfigFile * WindowWrapper.
Variable main_view_get_window_layout :
  MainView -> ConfigFile -> WindowWrapper -> MainView * ConfigFile * WindowWrapper.
Variable is_window_available : WindowWrapper -> bool.
Variable get_window_enabled : WindowWrapper -> bool.
Variable get_window_rect : WindowWrapper -> Rect2i.
Variable get_window_screen : WindowWrapper -> Z.
Variable restore_window_from_saved_position :
  Rect2i -> Z -> Rect2i -> WindowWrapper -> WindowWrapper.
Variable set_window_enabled : bool -> WindowWrapper -> WindowWrapper.
Variable screen_get_usable_rect : Z -> Rect2i.
Variable string_to_int : string -> Z.

Local Abbreviation get_layout :=
  (_get_window_layout MainView WindowWrapper main_view_get_window_layout
     get_window_enabled get_window_rect get_window_screen screen_get_usable_rect).
Local Abbreviation set_layout :=
  (_set_window_layout MainView WindowWrapper main_view_set_window_layout
     is_window_available restore_window_from_saved_position set_window_enabled
     string_to_int).

(** What [_get_window_layout] leaves in the configuration. *)
Lemma get_window_layout_spec self cfg :
  let after_view := with_main_view MainView WindowWrapper
                      main_view_get_window_layout self cfg in
  let window := _window_wrapper MainView WindowWrapper (fst after_view) in
  fst (get_layout self cfg) = fst after_view
  /\ (forall section key,
        section <> "Orchestrator" \/ ~ In key layout_keys ->
        snd (get_layout self cfg) section key = snd after_view section key)
  /\ (if get_window_enabled window
      then snd (get_layout self cfg) "Orchestrator" "window_rect"
           = Some (VRect2i (get_window_rect window))
           /\ snd (get_layout self cfg) "Orchestrator" "window_screen"
              = Some (VInt (get_window_screen window))
           /\ snd (get_layout self cfg) "Orchestrator" "window_screen_rect"
              = Some (VRect2i (screen_get_usable_rect (get_window_screen window)))
      else forall key, In key layout_keys ->
             snd (get_layout self cfg) "Orchestrator" key = None).
Proof.
  cbv zeta. unfold _get_window_layout.
  destruct (with_main_view MainView WindowWrapper main_view_get_window_layout
              self cfg) as [self1 cfg1].
  cbn [fst snd].
  assert (Hother : forall section key k,
            section <> "Orchestrator" \/ ~ In key layout_keys ->
            In k layout_keys -> section <> "Orchestrator" \/ key <> k).
  { intros s key k [H|H] Hk; [now left | right]. intros ->. now apply H. }
  destruct (get_window_enabled (_window_wrapper MainView WindowWrapper self1));
    cbn [fst snd].
  - split; [reflexivity|]. split.
    + intros s key H. unfold layout_keys in *.
      rewrite !set_value_other; [reflexivity| | |];
        apply (Hother s key); auto; simpl; auto.
    + split; [|split].
      * rewrite !set_value_other by (right; discriminate).
        now apply set_value_same.
      * rewrite set_value_other by (right; discriminate).
        now apply set_value_same.
      * now apply set_value_same.
  - split; [reflexivity|]. split.
    + intros s key H.
      rewrite !erase_if_present_other; [reflexivity| | |];
        apply (Hother s key); auto; simpl; auto.
    + intros key [<-|[<-|[<-|[]]]].
      * rewrite !erase_if_present_other by (right; discriminate).
        apply erase_if_present_same.
      * rewrite erase_if_present_other by (right; discriminate).
        apply erase_if_present_same.
      * apply erase_if_present_same.
Qed.

(** X17. After [_get_window_layout] the section "Orchestrator" of the
    configuration has the keys "window_rect", "window_screen" and
    "window_screen_rect" exactly when the window is enabled, whatever the
    configuration held before and whatever the main view wrote; with the
    window enabled they hold its rectangle, its screen and the usable
    rectangle of that screen.  Every other entry is as the main view left
    it. *)
Theorem saved_layout_has_window_keys_iff_enabled :
  forall (self : OrchestratorPlugin MainView WindowWrapper) (cfg : ConfigFile)
         (key : string),
    In key layout_keys ->
    has_section_key (snd (get_layout self cfg)) "Orchestrator" key
    = get_window_enabled
        (_window_wrapper MainView WindowWrapper (fst (get_layout self cfg)))
    /\ (get_window_enabled
          (_window_wrapper MainView WindowWrapper (fst (get_layout self cfg))) = true ->
        get_value (snd (get_layout self cfg)) "Orchestrator" "window_rect" VNil
        = VRect2i (get_window_rect
                     (_window_wrapper MainView WindowWrapper
                        (fst (get_layout self cfg))))
        /\ get_value (snd (get_layout self cfg)) "Orchestrator" "window_screen" VNil
           = VInt (get_window_screen
                     (_window_wrapper MainView WindowWrapper
                        (fst (get_layout self cfg))))
        /\ get_value (snd (get_layout self cfg)) "Orchestrator"
             "window_screen_rect" VNil
           = VRect2i (screen_get_usable_rect
                        (get_window_screen
                           (_window_wrapper MainView WindowWrapper
                              (fst (get_layout self cfg))))))
    /\ (forall section other,
          section <> "Orchestrator" \/ ~ In other layout_keys ->
          snd (get_layout self cfg) section other
          = snd (with_main_view MainView WindowWrapper
                   main_view_get_window_layout self cfg) section other).
Proof.
  intros self cfg key Hkey.
  destruct (get_window_layout_spec self cfg) as (Hself & Hother & Hkeys).
  cbv zeta in Hkeys. rewrite Hself.
  destruct (get_window_enabled _) eqn:En.
  - destruct Hkeys as (H1 & H2 & H3). split; [|split; [|exact Hother]].
    + unfold has_section_key.
      destruct Hkey as [<-|[<-|[<-|[]]]]; now rewrite ?H1, ?H2, ?H3.
    + intros _. unfold get_value. now rewrite H1, H2, H3.
  - split; [|split; [discriminate | exact Hother]].
    unfold has_section_key. now rewrite (Hkeys key Hkey).
Qed.

(** X18. A layout saved by [_get_window_layout] is the layout
    [_set_window_layout] restores: when windows are restored on load, the
    window is available and the main view leaves the three keys of the
    saved configuration alone, the window wrapper is asked to restore the
    rectangle, the screen and the usable rectangle of the screen the window
    had when the layout was saved; and it is disabled when the window was
    not enabled then. *)
Theorem saved_layout_is_restored :
  forall (es : option (string -> bool))
         (saved restored : OrchestratorPlugin MainView WindowWrapper)
         (cfg : ConfigFile),
    let window := _window_wrapper MainView WindowWrapper
                    (fst (get_layout saved cfg)) in
    let after_view := with_main_view MainView WindowWrapper
                        main_view_set_window_layout restored
                        (snd (get_layout saved cfg)) in
    restore_windows_on_load es = true ->
    is_window_available (_window_wrapper MainView WindowWrapper (fst after_view))
    = true ->
    (forall key, In key layout_keys ->
       snd after_view "Orchestrator" key
       = snd (get_layout saved cfg) "Orchestrator" key) ->
    is_int32 (get_window_screen window) ->
    _window_wrapper MainView WindowWrapper
      (fst (set_layout es restored (snd (get_layout saved cfg))))
    = if get_window_enabled window
      then restore_window_from_saved_position
             (get_window_rect window) (get_window_screen window)
             (screen_get_usable_rect (get_window_screen window))
             (_window_wrapper MainView WindowWrapper (fst after_view))
      else set_window_enabled false
             (_window_wrapper MainView WindowWrapper (fst after_view)).
Proof.
  intros es saved restored cfg window after_view Hes Hav Hkeep Hint.
  destruct (get_window_layout_spec saved cfg) as (Hself & _ & Hkeys).
  cbv zeta in Hkeys. rewrite <- Hself in Hkeys. fold window in Hkeys.
  unfold _set_window_layout. fold after_view.
  destruct after_view as [self1 cfg1] eqn:Ea. cbn [fst snd] in *.
  rewrite Hes, Hav. unfold has_section_key, get_value.
  rewrite !Hkeep by (unfold layout_keys; simpl; auto).
  destruct (get_window_enabled window).
  - destruct Hkeys as (H1 & H2 & H3). rewrite H1, H2, H3. cbn.
    now rewrite (to_int32_small _ Hint).
  - rewrite (Hkeys "window_rect") by (unfold layout_keys; simpl; auto).
    reflexivity.
Qed.

End LayoutFacts.

Section LayoutSamples.

Import BinNums BinInt GVariant Plugin PluginSample.

(** With the window disabled, a key "window_rect" left in the configuration
    is erased. *)
Lemma saved_layout_witness :
  has_section_key
    (snd (_get_window_layout unit (bool * Rect2i * Z)
            (fun v c w => (v, c, w))
            (fun w => fst (fst w)) (fun w => snd (fst w)) (fun w => snd w)
            sample_usable_rect (sample_plugin false)
            (set_value "Orchestrator" "window_rect" (VRect2i Rect2i_default)
               (fun _ _ => None))))
    "Orchestrator" "window_rect"
  = false.
Proof.
  refine (proj1 (saved_layout_has_window_keys_iff_enabled unit (bool * Rect2i * Z)
                   (fun v c w => (v, c, w))
                   (fun w => fst (fst w)) (fun w => snd (fst w)) (fun w => snd w)
                   sample_usable_rect (sample_plugin false)
                   (set_value "Orchestrator" "window_rect" (VRect2i Rect2i_default)
                      (fun _ _ => None))
                   "window_rect" _)).
  left. reflexivity.
Defined.

(** The layout saved with the window enabled is restored: the wrapper gets
    the rectangle, the screen and the usable rectangle that were saved. *)
Lemma restored_layout_witness :
  _window_wrapper unit (bool * Rect2i * Z)
    (fst (_set_window_layout unit (bool * Rect2i * Z)
            (fun v c w => (v, c, w))
            (fun _ => true)
            (fun rect screen _ w => (true, rect, screen))
            (fun enabled w => (enabled, snd (fst w), snd w))
            (fun _ => 0%Z)
            (Some (fun _ => true))
            (sample_plugin false)
            (snd (_get_window_layout unit (bool * Rect2i * Z)
                    (fun v c w => (v, c, w))
                    (fun w => fst (fst w)) (fun w => snd (fst w)) (fun w => snd w)
                    sample_usable_rect (sample_plugin true) (fun _ _ => None)))))
  = sample_window true.
Proof.
  refine (saved_layout_is_restored unit (bool * Rect2i * Z)
            (fun v c w => (v, c, w)) (fun v c w => (v, c, w))
            (fun _ => true)
            (fun w => fst (fst w)) (fun w => snd (fst w)) (fun w => snd w)
            (fun rect screen _ w => (true, rect, screen))
            (fun enabled w => (enabled, snd (fst w), snd w))
            sample_usable_rect (fun _ => 0%Z)
            (Some (fun _ => true)) (sample_plugin true) (sample_plugin false)
            (fun _ _ => None) _ _ _ _).
  - reflexivity.
  - reflexivity.
  - intros key _. reflexivity.
  - unfold is_int32. cbn. lia.
Defined.

End LayoutSamples.

(* ================================================================== *)
(** ** The selection is kept when the tree is generated again *)

Section SelectionKept.

Import GString ActionMenu TreeSpec ActionMenuMore RowSpec.

Context {lowercase : Lowercase}.

Variable get_icon : string -> Texture.

Lemma NoDup_map_split {A B : Type} (f : A -> B) (before after : list A) (a : A) :
  NoDup (map f (before ++ a :: after)) ->
  Forall (fun b => f b <> f a) after.
Proof.
  rewrite map_app. simpl. intros H. apply NoDup_remove_2 in H.
  apply Forall_forall. intros b Hb E. apply H.
  apply in_or_app. right. rewrite <- E. now apply in_map.
Qed.

(** X19. The row the user selects is selected again in the next tree.  When
    a row of the generated tree that can be selected is selected,
    [_on_tree_item_selected] stores the category of its action, an action of
    the list with a handler; and when no two actions of the list have the
    same category, the tree generated next from the list, whatever the
    favorites are by then, has exactly one selected row, the leaf of that
    action below its categories. *)
Theorem selection_is_kept_by_the_next_tree :
  forall (action_favorites next_favorites : list string) (_selection : string)
         (items : list MenuItem) (j : nat) (p : path) (n : TreeItem),
    get_item (_generate_filtered_actions get_icon action_favorites _selection items)
      (j :: p) = Some n ->
    cell_selectable (cell n) = true ->
    NoDup (map (fun item => category (get_spec item)) items) ->
    exists item h,
      In item items
      /\ meta_item (cell n) = Some item
      /\ get_handler item = Some h
      /\ selection_after
           (_generate_filtered_actions get_icon action_favorites _selection items)
           (j :: p) _selection
         = category (get_spec item)
      /\ count_cells cell_selected
           (_generate_filtered_actions get_icon next_favorites
              (category (get_spec item)) items)
         = 1
      /\ exists rel k,
           resolve (_generate_filtered_actions get_icon next_favorites
                      (category (get_spec item)) items)
                   (ancestor_categories item) = Some rel
           /\ item_at (_generate_filtered_actions get_icon next_favorites
                         (category (get_spec item)) items) (rel ++ [k])
                (fun c => leaf_of item c /\ cell_selected c = true).
Proof.
  intros favs favs' sel items j p n Hget Hsel Hnd.
  pose proof (get_item_below _ _ _ _ Hget) as Hn.
  pose proof (selectable_iff_handler_generated get_icon favs sel items n Hn) as Hs.
  unfold selectable_iff_handler in Hs. rewrite Hsel in Hs.
  destruct (meta_handler (cell n)) as [h|] eqn:Eh; [|discriminate].
  assert (Hsub : subitem n (_generate_filtered_actions get_icon favs sel items))
    by (apply subitem_cases; now right).
  destruct (all_cells_remove_empty handler_of_item _
              (handler_of_item_build get_icon favs sel items) n Hsub h Eh)
    as (item & Hitem & Hh).
  pose proof (carries_listed_item_generated get_icon favs sel items n Hn item Hitem)
    as Hin.
  exists item, h. split; [exact Hin|]. split; [exact Hitem|]. split; [exact Hh|].
  split.
  { unfold selection_after. now rewrite Hget, Hitem. }
  destruct (in_split _ _ Hin) as (before & after & ->).
  pose proof (NoDup_map_split _ before after item Hnd) as Hafter.
  split.
  - now apply generated_count_selected_one with (h := h).
  - now apply generated_selected_leaf with (h := h).
Qed.

End SelectionKept.

Section SelectionKeptSamples.

Import ActionMenu TreeSpec ActionMenuMore.

Local Existing Instance Sample.ascii_lowercase.

(** The row "Subtract" of the sample menu is selected; the next tree has
    one selected row. *)
Lemma selection_is_kept_witness :
  exists item h,
    In item [Sample.math_add; Sample.math_subtract]
    /\ meta_item (cell (Item (leaf_cell Sample.theme [] Sample.math_subtract) []))
       = Some item
    /\ get_handler item = Some h
    /\ selection_after
         (_generate_filtered_actions Sample.theme [] ""
            [Sample.math_add; Sample.math_subtract]) [0; 1] ""
       = category (get_spec item)
    /\ count_cells cell_selected
         (_generate_filtered_actions Sample.theme ["Math/Add"]
            (category (get_spec item)) [Sample.math_add; Sample.math_subtract])
       = 1
    /\ exists rel k,
         resolve (_generate_filtered_actions Sample.theme ["Math/Add"]
                    (category (get_spec item))
                    [Sample.math_add; Sample.math_subtract])
                 (ancestor_categories item) = Some rel
         /\ item_at (_generate_filtered_actions Sample.theme ["Math/Add"]
                       (category (get_spec item))
                       [Sample.math_add; Sample.math_subtract]) (rel ++ [k])
              (fun c => leaf_of item c /\ cell_selected c = true).
Proof.
  refine (selection_is_kept_by_the_next_tree Sample.theme [] ["Math/Add"] ""
            [Sample.math_add; Sample.math_subtract] 0 [1] _ _ _ _).
  - vm_compute. reflexivity.
  - reflexivity.
  - repeat constructor; simpl; intuition discriminate.
Defined.

End SelectionKeptSamples.

(* ================================================================== *)
(** ** The favorites are saved when they change *)

Section FavoritesSaved.

Import Settings.

(** A call of one of the two methods writes nothing, or its last two calls
    on the project settings are the [set_setting] of the list it leaves and
    [save]. *)
Lemma run_op_saved ps op :
  run_op ps op = ps
  \/ exists calls,
       journal (run_op ps op)
       = calls ++ [SetSetting (get_action_favorites (run_op ps op)); Save]
       /\ action_favorites (run_op ps op)
          = Some (get_action_favorites (run_op ps op)).
Proof.
  destruct op as [p|p]; simpl.
  - unfold add_action_favorite, has_setting, get_action_favorites.
    destruct (action_favorites ps) as [l|] eqn:E; cbn [negb].
    + unfold get_action_favorites. rewrite E.
      destruct (has l p); cbn [negb]; [now left|]. right.
      exists (journal ps). simpl. now rewrite <- app_assoc.
    + right. simpl.
      exists (journal ps ++ [SetSetting []; SetInitialValue []; AddPropertyInfo;
                             SetAsBasic false]).
      split; [|reflexivity]. now rewrite <- !app_assoc.
  - unfold remove_action_favorite, has_setting, get_action_favorites.
    destruct (action_favorites ps) as [l|] eqn:E; cbn [negb]; [|now left].
    destruct (has l p); [|now left]. right.
    destruct (find l p); exists (journal ps); simpl; now rewrite <- app_assoc.
Qed.


End FavoritesSaved.

(* ================================================================== *)
(** ** The children of every item: what the walk finds *)

Section ChildrenInvariant.

Import GString ActionMenu TreeSpec ActionMenuMore RowSpec.

Context {lowercase : Lowercase}.

Variable get_icon : string -> Texture.
Variable action_favorites : list string.
Variable _selection : string.

Variable Q : list TreeItem -> Prop.
Hypothesis Q_nil : Q [].
Hypothesis Q_keys :
  forall kids kids', Forall2 same_key kids kids' -> Q kids -> Q kids'.
Hypothesis Q_leaf :
  forall kids c, meta_item c <> None -> Q kids -> Q (kids ++ [Item c []]).
Hypothesis Q_category :
  forall kids name,
    find_child kids name = None -> Q kids ->
    Q (kids ++ [Item (category_cell get_icon name) []]).
Hypothesis Q_favorites : Q [Item favorites_cell []].
Hypothesis Q_stays :
  forall kids, Q kids -> Q (filter stays (map _remove_empty_action_nodes kids)).

Lemma all_children_child t k :
  all_children Q t -> In k (children t) -> all_children Q k.
Proof. intros H Hk n Hn. apply H. now apply (subitem_child n t k). Qed.

Lemma all_children_Item c kids :
  Q kids -> (forall k, In k kids -> all_children Q k) ->
  all_children Q (Item c kids).
Proof.
  intros Hc Hk n Hn. apply subitem_Item in Hn.
  destruct Hn as [->|(k & Hin & Hsub)]; [exact Hc | now apply (Hk k)].
Qed.

Lemma same_key_alter_nth g j kids :
  keeps_key g -> Forall2 same_key kids (alter_nth g j kids).
Proof.
  intros Hg. revert j. induction kids as [|k kids IH]; intros [|j]; simpl.
  - constructor.
  - constructor.
  - constructor; [exact (Hg k)|].
    clear. induction kids; constructor; [now split | assumption].
  - constructor; [now split | apply IH].
Qed.

Lemma all_children_alter f :
  keeps_key f ->
  forall p t,
    all_children Q t ->
    (forall n, get_item t p = Some n -> all_children Q n -> all_children Q (f n)) ->
    all_children Q (alter f t p).
Proof.
  intros Hkey. induction p as [|j p IH]; intros t Ht Hf; simpl.
  - now apply Hf.
  - apply all_children_Item.
    + apply (Q_keys (children t)).
      * apply same_key_alter_nth. now apply keeps_key_alter.
      * apply (Ht t). constructor.
    + intros k' Hk'. apply In_alter_nth in Hk'.
      destruct Hk' as [Hk'|(k & Hk & ->)]; [now apply (all_children_child t)|].
      assert (Hall : all_children Q k).
      { apply (all_children_child t); [exact Ht | now apply nth_error_In in Hk]. }
      apply IH; [exact Hall|]. intros n Hn. apply Hf. simpl. now rewrite Hk.
Qed.

Lemma all_children_create_child t parent c :
  all_children Q t ->
  (forall n, get_item t parent = Some n -> Q (children n ++ [Item c []])) ->
  all_children Q (fst (create_child t parent c)).
Proof.
  intros Ht Hc. unfold create_child. simpl.
  apply all_children_alter; [now intros [c' kids] | exact Ht|].
  intros n Hn Hall. apply all_children_Item; [now apply Hc|].
  intros k Hk. apply in_app_or in Hk. destruct Hk as [Hk|[<-|[]]].
  - now apply (all_children_child n).
  - apply all_children_Item; [exact Q_nil | intros ? []].
Qed.

Lemma all_children_update_cell g t p :
  (forall c, cell_text (g c) = cell_text c /\ meta_item (g c) = meta_item c) ->
  all_children Q t -> all_children Q (update_cell g t p).
Proof.
  intros Hg Ht. unfold update_cell. apply all_children_alter; [|exact Ht|].
  - intros [c kids]. unfold get_text, is_category. simpl.
    destruct (Hg c) as (-> & ->). now split.
  - intros n _ Hall. apply all_children_Item; [apply (Hall n); constructor|].
    intros k Hk. now apply (all_children_child n).
Qed.

Lemma same_key_map_cells g kids :
  (forall c, cell_text (g c) = cell_text c /\ meta_item (g c) = meta_item c) ->
  Forall2 same_key kids (map (map_cells g) kids).
Proof.
  intros Hg. induction kids as [|[c l] kids IH]; simpl; constructor; [|exact IH].
  unfold same_key, get_text, is_category. simpl.
  destruct (Hg c) as (-> & ->). now split.
Qed.

Lemma all_children_map_cells g t :
  (forall c, cell_text (g c) = cell_text c /\ meta_item (g c) = meta_item c) ->
  all_children Q t -> all_children Q (map_cells g t).
Proof.
  intros Hg. induction t as [c kids IH] using TreeItem_ind. intros Ht. simpl.
  apply all_children_Item.
  - apply (Q_keys kids); [now apply same_key_map_cells|].
    apply (Ht (Item c kids)). constructor.
  - intros k' Hk'. apply in_map_iff in Hk'. destruct Hk' as (k & <- & Hk).
    rewrite Forall_forall in IH. apply (IH k Hk).
    now apply (all_children_child (Item c kids)).
Qed.

Lemma all_children_set_selected t p :
  all_children Q t -> all_children Q (set_selected t p).
Proof.
  intros Ht. unfold set_selected.
  apply all_children_update_cell; [now intros c|].
  apply all_children_map_cells; [now intros c | exact Ht].
Qed.

Lemma all_children_create_categories names :
  forall t parent n,
    get_item t parent = Some n ->
    all_children Q t ->
    match names with
    | [] => True
    | name :: _ => find_child (children n) name = None
    end ->
    all_children Q (fst (create_categories get_icon t parent names)).
Proof.
  induction names as [|name rest IH]; intros t parent n Hn Ht Hnone; [exact Ht|].
  cbn [create_categories].
  assert (H1 : all_children Q
                 (fst (create_child t parent (category_cell get_icon name)))).
  { apply all_children_create_child; [exact Ht|].
    intros n' Hn'. rewrite Hn in Hn'. injection Hn' as <-.
    apply Q_category; [exact Hnone|]. apply (Ht n).
    now apply (get_item_subitem t parent). }
  destruct (get_created_child t parent (category_cell get_icon name) n Hn)
    as (_ & _ & Hnew).
  destruct (create_child t parent (category_cell get_icon name)) as [t1 parent1].
  cbn [fst snd] in *.
  apply (IH t1 parent1 _ Hnew H1). now destruct rest.
Qed.

Lemma all_children_walk_categories names :
  forall t parent n,
    get_item t parent = Some n ->
    all_children Q t ->
    all_children Q (fst (walk_categories get_icon t parent names)).
Proof.
  induction names as [|name rest IH]; intros t parent n Hn Ht; [exact Ht|].
  cbn [walk_categories]. unfold children_at. rewrite Hn.
  destruct (find_child (children n) name) as [j|] eqn:Ef.
  - destruct (find_child_nth _ _ _ Ef) as (k & Hk & _).
    apply (IH t (parent ++ [j]) k); [|exact Ht].
    rewrite get_item_app, Hn. simpl. now rewrite Hk.
  - now apply (all_children_create_categories (name :: rest) t parent n).
Qed.

Lemma leaf_cell_is_leaf item :
  meta_item (leaf_cell get_icon action_favorites item) = Some item.
Proof.
  unfold leaf_cell, decorate_leaf.
  cbn [meta_item set_meta_favorite set_tooltip_text1 add_button].
  apply make_item_cell_is_leaf.
Qed.

Lemma all_children_add_action favorites t item :
  all_children Q t ->
  all_children Q (add_action get_icon action_favorites _selection favorites t item).
Proof.
  intros Ht.
  destruct (add_action_shape get_icon action_favorites _selection favorites t item)
    as (t1 & rel & m & Hwalk & _ & _ & _ & _ & ->).
  pose proof (all_children_walk_categories (ancestor_categories item) t [] t
                eq_refl Ht) as H1.
  rewrite Hwalk in H1. cbn [fst] in H1. cbv zeta.
  set (t3 := fst (create_child t1 rel _)).
  assert (H3 : all_children Q t3).
  { apply all_children_create_child; [exact H1|]. intros n Hn.
    apply Q_leaf; [rewrite leaf_cell_is_leaf; discriminate|].
    apply (H1 n). now apply (get_item_subitem t1 rel). }
  set (t4 := if String.eqb _ _ then _ else _).
  assert (H4 : all_children Q t4).
  { subst t4. destruct (String.eqb _ _); [|exact H3].
    now apply all_children_set_selected. }
  destruct (Settings.has _ _); [|exact H4].
  destruct favorites as [fv|]; [|exact H4].
  unfold _make_item. apply all_children_create_child; [exact H4|]. intros n Hn.
  apply Q_leaf; [rewrite make_item_cell_is_leaf; discriminate|].
  apply (H4 n). now apply (get_item_subitem t4 fv).
Qed.

Lemma all_children_build_tree items :
  all_children Q (build_tree get_icon action_favorites _selection items).
Proof.
  rewrite build_tree_eq.
  assert (H0 : all_children Q (fst (initial_tree action_favorites))).
  { destruct (initial_tree_cases action_favorites) as [(_ & ->)|(_ & ->)]; simpl.
    - apply all_children_Item; [exact Q_nil | intros ? []].
    - apply all_children_Item; [exact Q_favorites|].
      intros k [<-|[]]. apply all_children_Item; [exact Q_nil | intros ? []]. }
  revert H0. generalize (fst (initial_tree action_favorites)).
  induction items as [|b rest IH]; intros t Ht; [exact Ht|].
  simpl. apply IH. now apply all_children_add_action.
Qed.

Lemma all_children_remove_empty t :
  all_children Q t -> all_children Q (_remove_empty_action_nodes t).
Proof.
  intros Ht n Hn. destruct (remove_empty_subitem t n Hn) as ([c kids] & Hn0 & ->).
  rewrite remove_empty_eq. simpl. apply Q_stays. exact (Ht (Item c kids) Hn0).
Qed.

Lemma all_children_generated items :
  all_children Q
    (_generate_filtered_actions get_icon action_favorites _selection items).
Proof. apply all_children_remove_empty, all_children_build_tree. Qed.

End ChildrenInvariant.

(* ================================================================== *)
(** ** One category node for a name *)

Section FoundFirst.

Import GString ActionMenu TreeSpec ActionMenuMore RowSpec.

Context {lowercase : Lowercase}.

Lemma find_child_from_shift i kids name :
  find_child_from (S i) kids name = option_map S (find_child_from i kids name).
Proof.
  revert i. induction kids as [|k kids IH]; intros i; simpl; [reflexivity|].
  destruct (String.eqb (to_lower (get_text k)) (to_lower name)); [reflexivity|].
  apply IH.
Qed.

Lemma find_child_cons x kids name :
  find_child (x :: kids) name
  = if String.eqb (to_lower (get_text x)) (to_lower name) then Some 0
    else option_map S (find_child kids name).
Proof.
  unfold find_child. simpl.
  destruct (String.eqb (to_lower (get_text x)) (to_lower name)); [reflexivity|].
  apply find_child_from_shift.
Qed.

(** The children without a menu item are found first when those after the
    first child are, and none of them has the text of the first child. *)
Lemma found_first_cons x kids :
  found_first (x :: kids)
  <-> found_first kids
      /\ forall k, In k kids -> is_category k = true ->
                   to_lower (get_text x) <> to_lower (get_text k).
Proof.
  unfold found_first. split.
  - intros H. split.
    + intros j k Hk Hc. specialize (H (S j) k Hk Hc).
      rewrite find_child_cons in H.
      destruct (String.eqb _ _); [discriminate|].
      destruct (find_child kids (get_text k)); simpl in H; congruence.
    + intros k Hk Hc E. apply In_nth_error in Hk. destruct Hk as (j & Hj).
      specialize (H (S j) k Hj Hc). rewrite find_child_cons, E in H.
      rewrite String.eqb_refl in H. discriminate.
  - intros (Hkids & Hx) [|j] k Hk Hc; simpl in Hk.
    + injection Hk as <-. rewrite find_child_cons. now rewrite String.eqb_refl.
    + rewrite find_child_cons.
      destruct (String.eqb_spec (to_lower (get_text x)) (to_lower (get_text k)))
        as [E|_].
      * exfalso. apply (Hx k); [now apply nth_error_In in Hk | exact Hc | exact E].
      * now rewrite (Hkids j k Hk Hc).
Qed.

Lemma found_first_nil : found_first [].
Proof. intros [|j] k; discriminate. Qed.

Lemma found_first_keys kids kids' :
  Forall2 same_key kids kids' -> found_first kids -> found_first kids'.
Proof.
  induction 1 as [|x x' kids kids' (Ht & Hc) Hkids IH]; [trivial|].
  rewrite !found_first_cons. intros (Hf & Hx). split; [now apply IH|].
  intros k' Hk' Hc'. apply In_nth_error in Hk'. destruct Hk' as (j & Hj).
  assert (Hrev : exists k, nth_error kids j = Some k /\ same_key k k').
  { clear -Hkids Hj. revert j Hj.
    induction Hkids as [|a b l l' Hab Hl IHl]; intros [|j]; simpl;
      try discriminate.
    - intros [= <-]. now exists a.
    - apply IHl. }
  destruct Hrev as (k & Hk & Ht' & Hc''). rewrite Ht, Ht'.
  apply Hx; [now apply nth_error_In in Hk | congruence].
Qed.

Lemma found_first_snoc kids new :
  found_first kids ->
  (is_category new = true -> find_child kids (get_text new) = None) ->
  found_first (kids ++ [new]).
Proof.
  induction kids as [|x kids IH]; intros Hf Hnew.
  - simpl. apply found_first_cons. split; [apply found_first_nil | intros ? []].
  - change ((x :: kids) ++ [new]) with (x :: (kids ++ [new])).
    apply found_first_cons in Hf. destruct Hf as (Hf & Hx).
    apply found_first_cons. split.
    + apply IH; [exact Hf|]. intros Hc. specialize (Hnew Hc).
      rewrite find_child_cons in Hnew.
      destruct (String.eqb _ _); [discriminate|].
      now destruct (find_child kids (get_text new)).
    + intros k Hk Hc. apply in_app_or in Hk. destruct Hk as [Hk|[<-|[]]].
      * now apply Hx.
      * specialize (Hnew Hc). rewrite find_child_cons in Hnew.
        destruct (String.eqb_spec (to_lower (get_text x)) (to_lower (get_text new)));
          [discriminate | assumption].
Qed.

Lemma found_first_stays kids :
  found_first kids ->
  found_first (filter stays (map _remove_empty_action_nodes kids)).
Proof.
  induction kids as [|x kids IH]; [trivial|]. cbn [map filter].
  rewrite found_first_cons. intros (Hf & Hx).
  destruct (stays (_remove_empty_action_nodes x)); [|now apply IH].
  apply found_first_cons. split; [now apply IH|].
  intros k' Hk' Hc'. apply filter_In in Hk'. destruct Hk' as (Hk' & _).
  apply in_map_iff in Hk'. destruct Hk' as (k & <- & Hk).
  unfold get_text, is_category in *. rewrite !remove_empty_cell in *.
  now apply Hx.
Qed.

Lemma found_first_generated get_icon action_favorites _selection items :
  all_children found_first
    (build_tree get_icon action_favorites _selection items)
  /\ all_children found_first
       (_generate_filtered_actions get_icon action_favorites _selection items).
Proof.
  assert (Hleaf : forall kids c,
             meta_item c <> None -> found_first kids ->
             found_first (kids ++ [Item c []])).
  { intros kids c Hc Hf. apply found_first_snoc; [exact Hf|].
    unfold is_category. simpl. now destruct (meta_item c). }
  assert (Hcat : forall kids name,
             find_child kids name = None -> found_first kids ->
             found_first (kids ++ [Item (category_cell get_icon name) []])).
  { intros kids name Hnone Hf. apply found_first_snoc; [exact Hf|].
    intros _. exact Hnone. }
  assert (Hfav : found_first [Item favorites_cell []]).
  { apply (found_first_snoc [] (Item favorites_cell []) found_first_nil).
    reflexivity. }
  split.
  - exact (all_children_build_tree get_icon action_favorites _selection found_first
             found_first_nil found_first_keys Hleaf Hcat Hfav items).
  - exact (all_children_generated get_icon action_favorites _selection found_first
             found_first_nil found_first_keys Hleaf Hcat Hfav found_first_stays
             items).
Qed.

(** Among children that are found first there is one category node of a
    name when the child the walk takes for the name is a category node, and
    none otherwise. *)
Lemma category_nodes_found kids name :
  found_first kids ->
  List.length (category_nodes kids name)
  = match found_child kids name with
    | Some k => if is_category_node k then 1 else 0
    | None => 0
    end.
Proof.
  unfold found_child, category_nodes.
  induction kids as [|x kids IH]; [reflexivity|].
  rewrite found_first_cons. intros (Hf & Hx).
  rewrite find_child_cons. cbn [filter].
  destruct (String.eqb_spec (to_lower (get_text x)) (to_lower name)) as [E|E].
  - cbn [nth_error]. rewrite andb_true_r.
    assert (Hnone : filter (fun k => is_category_node k
                                     && String.eqb (to_lower (get_text k))
                                                   (to_lower name)) kids = []).
    { clear IH. induction kids as [|k kids IHk]; [reflexivity|]. cbn [filter].
      destruct (is_category_node k
                && String.eqb (to_lower (get_text k)) (to_lower name)) eqn:Ek.
      - exfalso. apply andb_prop in Ek. destruct Ek as (Hc & Hn).
        apply String.eqb_eq in Hn. unfold is_category_node in Hc.
        apply andb_prop in Hc. destruct Hc as (Hc & _).
        apply (Hx k); [now left | exact Hc | congruence].
      - apply IHk.
        + apply found_first_cons in Hf. tauto.
        + intros k' Hk'. apply Hx. now right. }
    rewrite Hnone. now destruct (is_category_node x).
  - rewrite andb_false_r. rewrite (IH Hf).
    destruct (find_child kids name) as [j|]; reflexivity.
Qed.

End FoundFirst.

Section SharedPrefix.

Import GString ActionMenu TreeSpec ActionMenuMore RowSpec.

Context {lowercase : Lowercase}.

Variable get_icon : string -> Texture.
Variable action_favorites : list string.
Variable _selection : string.


End SharedPrefix.

Section SharedPrefixSamples.

Import GString ActionMenu TreeSpec ActionMenuMore RowSpec.

Local Existing Instance Sample.ascii_lowercase.



End SharedPrefixSamples.

(* ================================================================== *)
(** ** The icons of the categories *)

Section IconsResolved.

Import GString ActionMenu TreeSpec ActionMenuMore RowSpec.

Context {lowercase : Lowercase}.

Variable get_icon : string -> Texture.
Variable action_favorites : list string.
Variable _selection : string.

Local Abbreviation P := (icon_resolved get_icon).
Local Abbreviation favorites_item := (is_favorites get_icon action_favorites).

Lemma icon_resolved_selected b c : P c -> P (set_cell_selected b c).
Proof. intros H. exact H. Qed.

Lemma icon_resolved_category name : P (category_cell get_icon name).
Proof. intros _. reflexivity. Qed.

Lemma icon_resolved_leaf c item : meta_item c = Some item -> P c.
Proof. intros E H. congruence. Qed.

(** The children of an item after a child was created somewhere in it. *)
Lemma children_create_child t parent c i k' :
  nth_error (children (fst (create_child t parent c))) i = Some k' ->
  (exists k, nth_error (children t) i = Some k
             /\ (k' = k \/ exists q, k' = fst (create_child k q c)))
  \/ k' = Item c [].
Proof.
  unfold create_child. simpl. destruct parent as [|j q]; simpl.
  - intros H. destruct (nth_error (children t) i) as [k|] eqn:E.
    + left. exists k. split; [reflexivity|]. left.
      rewrite nth_error_app1 in H by (apply nth_error_Some; congruence).
      congruence.
    + right. apply nth_error_None in E.
      rewrite nth_error_app2 in H by exact E.
      destruct (i - List.length (children t)) as [|d]; simpl in H;
        [congruence | now destruct d].
  - intros H. left. destruct (Nat.eq_dec i j) as [->|Hne].
    + rewrite nth_error_alter_nth in H.
      destruct (nth_error (children t) j) as [k|]; [|discriminate].
      injection H as <-. exists k. split; [reflexivity|]. right. now exists q.
    + assert (E : nth_error (alter_nth (fun k => alter
                      (fun n => Item (cell n) (children n ++ [Item c []])) k q)
                      j (children t)) i = nth_error (children t) i).
      { clear H. revert i j Hne. induction (children t) as [|x l IH];
          intros [|i] [|j] Hne; simpl; try reflexivity; try congruence.
        apply IH. congruence. }
      rewrite E in H. exists k'. split; [exact H | now left].
Qed.

(** The children of an item after a selection somewhere in it. *)
Lemma children_set_selected t p i k' :
  nth_error (children (set_selected t p)) i = Some k' ->
  exists k, nth_error (children t) i = Some k
            /\ (k' = map_cells (set_cell_selected false) k
                \/ exists q, k' = set_selected k q).
Proof.
  unfold set_selected, update_cell. destruct t as [c kids].
  destruct p as [|j q]; simpl.
  - intros H. rewrite nth_error_map in H.
    destruct (nth_error kids i) as [k|]; [|discriminate].
    injection H as <-. exists k. split; [reflexivity | now left].
  - intros H. destruct (Nat.eq_dec i j) as [->|Hne].
    + rewrite nth_error_alter_nth, nth_error_map in H.
      destruct (nth_error kids j) as [k|]; [|discriminate].
      injection H as <-. exists k. split; [reflexivity|]. right. now exists q.
    + assert (E : forall (g : TreeItem -> TreeItem) l,
                 nth_error (alter_nth g j l) i = nth_error l i).
      { clear -Hne. intros g l. revert i j Hne.
        induction l as [|x l IH]; intros [|i] [|j] Hne; simpl;
          try reflexivity; try congruence.
        apply IH. congruence. }
      rewrite E, nth_error_map in H.
      destruct (nth_error kids i) as [k|]; [|discriminate].
      injection H as <-. exists k. split; [reflexivity | now left].
Qed.

Lemma below_cells_map_cells g t :
  (forall c, P c -> P (g c)) -> below_cells P t -> below_cells P (map_cells g t).
Proof.
  rewrite !below_cells_children. intros Hg Ht. destruct t as [c kids]. simpl in *.
  intros k' Hk'. apply in_map_iff in Hk'. destruct Hk' as (k & <- & Hk).
  apply all_cells_map_cells; [now apply Ht | exact Hg].
Qed.

Lemma cell_create_child k q c : cell (fst (create_child k q c)) = cell k.
Proof. unfold create_child. simpl. now destruct q. Qed.

Lemma is_favorites_create_child k q c :
  P c -> favorites_item k -> favorites_item (fst (create_child k q c)).
Proof.
  intros Hc (Hne & Ht & Hi & Hm & Hb). unfold is_favorites, get_text.
  rewrite cell_create_child. repeat split; try assumption.
  now apply below_cells_create_child.
Qed.

Lemma is_favorites_map_cells k :
  favorites_item k -> favorites_item (map_cells (set_cell_selected false) k).
Proof.
  intros (Hne & Ht & Hi & Hm & Hb). unfold is_favorites, get_text.
  destruct k as [c kids]. simpl in *. repeat split; try assumption.
  apply (below_cells_map_cells (set_cell_selected false) (Item c kids));
    [intros c' H; exact H | exact Hb].
Qed.

Lemma is_favorites_set_selected k q :
  favorites_item k -> favorites_item (set_selected k q).
Proof.
  intros (Hne & Ht & Hi & Hm & Hb). unfold is_favorites, get_text.
  assert (Hcell : cell (set_selected k q) = set_cell_selected false (cell k)
                  \/ cell (set_selected k q)
                     = set_cell_selected true (set_cell_selected false (cell k))).
  { unfold set_selected, update_cell. destruct k as [c kids].
    destruct q; simpl; [now right | now left]. }
  split; [exact Hne|].
  split; [destruct Hcell as [-> | ->]; exact Ht|].
  split; [destruct Hcell as [-> | ->]; exact Hi|].
  split; [destruct Hcell as [-> | ->]; exact Hm|].
  apply below_cells_set_selected; [intros b c H; exact H | exact Hb].
Qed.

Lemma icons_resolved_create_child t parent c :
  P c -> icons_resolved get_icon action_favorites t ->
  icons_resolved get_icon action_favorites (fst (create_child t parent c)).
Proof.
  intros Hc Ht i k' Hk'.
  destruct (children_create_child t parent c i k' Hk')
    as [(k & Hk & [->|(q & ->)])| ->].
  - now apply Ht.
  - destruct (Ht i k Hk) as [Hall|(Hi & Hfav)].
    + left. now apply all_cells_create_child.
    + right. split; [exact Hi|]. now apply is_favorites_create_child.
  - left. apply all_cells_Item; [exact Hc | intros ? []].
Qed.

Lemma icons_resolved_set_selected t p :
  icons_resolved get_icon action_favorites t ->
  icons_resolved get_icon action_favorites (set_selected t p).
Proof.
  intros Ht i k' Hk'.
  destruct (children_set_selected t p i k' Hk') as (k & Hk & [->|(q & ->)]);
    destruct (Ht i k Hk) as [Hall|(Hi & Hfav)].
  - left. apply all_cells_map_cells; [exact Hall | intros c H; exact H].
  - right. split; [exact Hi|]. now apply is_favorites_map_cells.
  - left. unfold set_selected.
    apply all_cells_update_cell; [|intros c H; exact H].
    apply all_cells_map_cells; [exact Hall | intros c H; exact H].
  - right. split; [exact Hi|]. now apply is_favorites_set_selected.
Qed.

Lemma icons_resolved_create_categories names :
  forall t parent,
    icons_resolved get_icon action_favorites t ->
    icons_resolved get_icon action_favorites
      (fst (create_categories get_icon t parent names)).
Proof.
  induction names as [|name rest IH]; intros t parent Ht; [exact Ht|].
  cbn [create_categories].
  pose proof (icons_resolved_create_child t parent (category_cell get_icon name)
                (icon_resolved_category name) Ht) as H1.
  destruct (create_child t parent (category_cell get_icon name)) as [t1 parent1].
  now apply IH.
Qed.

Lemma icons_resolved_walk_categories names :
  forall t parent,
    icons_resolved get_icon action_favorites t ->
    icons_resolved get_icon action_favorites
      (fst (walk_categories get_icon t parent names)).
Proof.
  induction names as [|name rest IH]; intros t parent Ht; [exact Ht|].
  cbn [walk_categories].
  destruct (find_child (children_at t parent) name);
    [now apply IH | now apply icons_resolved_create_categories].
Qed.

Lemma icons_resolved_add_action favorites t item :
  icons_resolved get_icon action_favorites t ->
  icons_resolved get_icon action_favorites
    (add_action get_icon action_favorites _selection favorites t item).
Proof.
  intros Ht.
  destruct (add_action_shape get_icon action_favorites _selection favorites t item)
    as (t1 & rel & m & Hwalk & _ & _ & _ & _ & ->).
  pose proof (icons_resolved_walk_categories (ancestor_categories item) t [] Ht)
    as H1.
  rewrite Hwalk in H1. cbn [fst] in H1. cbv zeta.
  set (t3 := fst (create_child t1 rel _)).
  assert (H3 : icons_resolved get_icon action_favorites t3).
  { apply icons_resolved_create_child; [|exact H1].
    apply (icon_resolved_leaf _ item).
    apply (leaf_cell_is_leaf get_icon action_favorites item). }
  set (t4 := if String.eqb _ _ then _ else _).
  assert (H4 : icons_resolved get_icon action_favorites t4).
  { subst t4. destruct (String.eqb _ _); [|exact H3].
    now apply icons_resolved_set_selected. }
  destruct (Settings.has _ _); [|exact H4].
  destruct favorites as [fv|]; [|exact H4].
  unfold _make_item. apply icons_resolved_create_child; [|exact H4].
  apply (icon_resolved_leaf _ item). apply make_item_cell_is_leaf.
Qed.

Lemma icons_resolved_build_tree items :
  icons_resolved get_icon action_favorites
    (build_tree get_icon action_favorites _selection items).
Proof.
  rewrite build_tree_eq.
  assert (H0 : icons_resolved get_icon action_favorites
                 (fst (initial_tree action_favorites))).
  { destruct (initial_tree_cases action_favorites) as [(_ & ->)|(Hne & ->)]; simpl.
    - intros [|i] k; discriminate.
    - intros [|[|i]] k Hk; try discriminate. simpl in Hk. injection Hk as <-.
      right. split; [reflexivity|]. repeat split; try assumption.
      intros n (k & [] & _). }
  revert H0. generalize (fst (initial_tree action_favorites)).
  induction items as [|b rest IH]; intros t Ht; [exact Ht|].
  simpl. apply IH. now apply icons_resolved_add_action.
Qed.

(** A child that stays is not further from the first child than it was. *)
Lemma nth_error_stays kids i k' :
  nth_error (filter stays (map _remove_empty_action_nodes kids)) i = Some k' ->
  exists i0 k, i <= i0 /\ nth_error kids i0 = Some k
               /\ k' = _remove_empty_action_nodes k.
Proof.
  revert i. induction kids as [|x kids IH]; intros i; cbn [map filter].
  - destruct i; discriminate.
  - destruct (stays (_remove_empty_action_nodes x)).
    + destruct i as [|i]; simpl.
      * intros [= <-]. exists 0, x. repeat split. lia.
      * intros H. destruct (IH i H) as (i0 & k & Hle & Hk & ->).
        exists (S i0), k. repeat split; [lia | exact Hk].
    + intros H. destruct (IH i H) as (i0 & k & Hle & Hk & ->).
      exists (S i0), k. repeat split; [lia | exact Hk].
Qed.

Lemma icons_resolved_remove_empty t :
  icons_resolved get_icon action_favorites t ->
  icons_resolved get_icon action_favorites (_remove_empty_action_nodes t).
Proof.
  intros Ht i k' Hk'. destruct t as [c kids]. rewrite remove_empty_eq in Hk'.
  simpl in Hk'. destruct (nth_error_stays kids i k' Hk') as (i0 & k & Hle & Hk & ->).
  destruct (Ht i0 k Hk) as [Hall|(Hi & Hne & Htext & Hicon & Hitem & Hbelow)].
  - left. now apply all_cells_remove_empty.
  - right. split; [lia|]. unfold is_favorites, get_text.
    rewrite remove_empty_cell. repeat split; try assumption.
    intros n Hn. destruct (below_remove_empty k n Hn) as (n0 & Hn0 & ->).
    now apply Hbelow.
Qed.

(** What [icons_resolved] says of the item at a path. *)
Lemma icons_resolved_at t p n :
  icons_resolved get_icon action_favorites t ->
  get_item t p = Some n -> p <> [] ->
  meta_item (cell n) = None ->
  cell_icon (cell n) = Some (category_icon get_icon (get_text n))
  \/ (p = [0] /\ action_favorites <> [] /\ get_text n = "Favorites"
      /\ cell_icon (cell n) = None).
Proof.
  intros Ht Hn Hp Hitem. destruct p as [|j q]; [congruence|]. simpl in Hn.
  destruct (nth_error (children t) j) as [k|] eqn:Ek; [|discriminate].
  destruct (Ht j k Ek) as [Hall|(-> & Hne & Htext & Hicon & _ & Hbelow)].
  - left. apply (Hall n); [now apply (get_item_subitem k q) | exact Hitem].
  - destruct q as [|j' q'].
    + simpl in Hn. injection Hn as <-. right. now repeat split.
    + left. apply (Hbelow n); [now apply (get_item_below k j' q') | exact Hitem].
Qed.

(** C6. In the tree built by the main loop and in the generated tree,
    every item below the root that is not the leaf of a menu item has the
    icon of its text, whatever the text: the one exception is "Favorites",
    the item without an icon made when there are favorites, which can only
    be the first item below the root.  The icon of the text "Integer" is
    the theme's icon "int", of any other text the theme's icon of that
    name, and when the theme answers with its placeholder (the icon of
    "_not_found_") the icon is the theme's "Object". *)
Theorem category_items_have_resolved_icon :
  forall (items : list MenuItem) (X : TreeItem) (p : path) (n : TreeItem),
    X = build_tree get_icon action_favorites _selection items
    \/ X = _generate_filtered_actions get_icon action_favorites _selection items ->
    get_item X p = Some n ->
    p <> [] ->
    meta_item (cell n) = None ->
    (cell_icon (cell n) = Some (category_icon get_icon (get_text n))
     \/ (p = [0] /\ action_favorites <> [] /\ get_text n = "Favorites"
         /\ cell_icon (cell n) = None))
    /\ category_icon get_icon "Integer"
       = (if Nat.eqb (get_icon "int") (get_icon "_not_found_")
          then get_icon "Object" else get_icon "int")
    /\ (forall name, name <> "Integer" ->
          category_icon get_icon name
          = (if Nat.eqb (get_icon name) (get_icon "_not_found_")
             then get_icon "Object" else get_icon name)).
Proof.
  intros items X p n HX Hn Hp Hitem. split; [|split].
  - apply (icons_resolved_at X p n); try assumption.
    destruct HX as [-> | ->].
    + apply icons_resolved_build_tree.
    + apply icons_resolved_remove_empty, icons_resolved_build_tree.
  - reflexivity.
  - intros name Hname. unfold category_icon, broken.
    destruct (String.eqb_spec name "Integer"); [contradiction | reflexivity].
Qed.

End IconsResolved.

Section IconsResolvedSamples.

Import GString ActionMenu TreeSpec ActionMenuMore RowSpec.

Local Existing Instance Sample.ascii_lowercase.

(** The category "Favorites" of the action "A/Favorites/X" is the item at
    the path [0; 0] of the generated tree: it has the theme's icon
    "Object", texture 2, the theme having no icon "Favorites"; and the
    category "Integer" has the icon "int", texture 1. *)
Lemma category_items_have_resolved_icon_witness :
  cell_icon
    (cell (nth 0 (children
                    (nth 0 (children
                              (_generate_filtered_actions Sample.theme ["B"] ""
                                 [Sample.action "A/Favorites/X" "X" true]))
                         (Item new_cell [])))
               (Item new_cell [])))
  = Some 2
  /\ cell_icon
       (cell (nth 0 (children (_generate_filtered_actions Sample.theme [] ""
                                 [Sample.action "Integer/Add" "Add" true]))
                  (Item new_cell [])))
     = Some 1.
Proof.
  split.
  - destruct (category_items_have_resolved_icon Sample.theme ["B"] ""
                [Sample.action "A/Favorites/X" "X" true] _ [0; 0]
                (nth 0 (children
                          (nth 0 (children
                                    (_generate_filtered_actions Sample.theme ["B"] ""
                                       [Sample.action "A/Favorites/X" "X" true]))
                               (Item new_cell [])))
                     (Item new_cell []))
                (or_intror eq_refl))
      as ([H|(H & _)] & _).
    + reflexivity.
    + discriminate.
    + reflexivity.
    + exact H.
    + discriminate H.
  - destruct (category_items_have_resolved_icon Sample.theme [] ""
                [Sample.action "Integer/Add" "Add" true] _ [0]
                (nth 0 (children (_generate_filtered_actions Sample.theme [] ""
                                    [Sample.action "Integer/Add" "Add" true]))
                     (Item new_cell []))
                (or_intror eq_refl))
      as ([H|(_ & H & _)] & _).
    + reflexivity.
    + discriminate.
    + reflexivity.
    + exact H.
    + now contradiction H.
Defined.

End IconsResolvedSamples.
